(** * Coordinate reconciliation and two-phase capture pipeline

  A shallow embedding of the TypeScript sources

    - [app/lib/imagePreprocessing.ts]  (preprocessing of the raster;
                                        [pixelBoxToPageBox], [mapOcrBoxesToPage]
                                        and the checks of a mapping)
    - [app/lib/coordinateMapping.ts]   (local mapping with scale auto-correction)
    - [app/lib/tesseractOCR.ts]        (detection of the internal scale factor,
                                        character boxes, quality of a result)
    - [app/hooks/useHandwritingOCR.ts] (two-phase session, coordinate validation)
    - [app/lib/smartPositioning.ts]    (density grid, candidates and placement
                                        of suggestion cards)

  A JavaScript [number] is an IEEE-754 binary64 value, so it is modelled by
  Rocq's primitive [float]: [+], [-], [*], [/], [<], [<=] and [===] on
  numbers are the primitive operations, [NaN], the infinities and the two
  zeros are the values of the type itself.  A property that may be
  [undefined] is an [option]. *)

From Stdlib Require Import Floats ZArith List String Ascii Bool Lia.
From Stdlib Require Import DecimalString DecimalNat.
Import ListNotations.

#[local] Set Warnings "-inexact-float".
#[local] Open Scope float_scope.

(** ** JavaScript numbers *)

Module Num.

Definition number := float.

Definition NaN : number := nan.

(** [Number.isFinite(v)]: false for every value that is not a number. *)
Definition Number_isFinite (v : option number) : bool :=
  match v with
  | Some f => is_finite f
  | None => false
  end.

(** The global [isNaN] applied to a number. *)
Definition isNaN (f : number) : bool := is_nan f.

(** [ToNumber]: [undefined] becomes [NaN] in arithmetic. *)
Definition ToNumber (v : option number) : number :=
  match v with
  | Some f => f
  | None => NaN
  end.

(** Truthiness of a number: [0], [-0] and [NaN] are falsy. *)
Definition truthy (f : number) : bool := negb (is_zero f || is_nan f).

(** [a === b] on numbers. *)
Definition strict_eq (a b : number) : bool := (a =? b).

(** [a > b] and [a >= b]. *)
Definition gtb (a b : number) : bool := (b <? a).
Definition geb (a b : number) : bool := (b <=? a).

(** Two numbers are similar when they are the same value or are both a
    zero, of either sign; stated on the decoded value [Prim2SF] of a
    number (sign, mantissa and exponent). *)
Definition sf_sim (a b : spec_float) : Prop :=
  a = b \/ (exists s s', a = S754_zero s /\ b = S754_zero s').

Definition sim (u v : number) : Prop := sf_sim (Prim2SF u) (Prim2SF v).

End Num.

Import Num.

(** ** The [Math] functions the sources call *)

Module JsMath.

(** An integer as a number (exact below 2^53). *)
Definition of_Z (z : Z) : number :=
  SF2Prim (binary_normalize prec emax z 0 false).

Definition of_nat (n : nat) : number := of_Z (Z.of_nat n).

(** [Math.floor]: a finite value with a negative exponent is cut to the
    integer below it; every other value is already integral, infinite or
    [NaN]. *)
Definition floor (v : number) : number :=
  match Prim2SF v with
  | S754_finite s m e =>
      if (0 <=? e)%Z then v
      else
        let n := Z.div (cond_Zopp s (Zpos m)) (Z.pow 2 (- e)) in
        if (n =? 0)%Z then 0 else of_Z n
  | _ => v
  end.

(** [Math.max(a, b)]: [NaN] when an argument is, and [+0] above [-0]. *)
Definition max (a b : number) : number :=
  if is_nan a || is_nan b then NaN
  else if a <? b then b
  else if b <? a then a
  else if get_sign a then b else a.

(** [Math.min(a, b)]: [NaN] when an argument is, and [-0] below [+0]. *)
Definition min (a b : number) : number :=
  if is_nan a || is_nan b then NaN
  else if a <? b then a
  else if b <? a then b
  else if get_sign a then a else b.

(** [Math.min(a, b, c, d)] *)
Definition min4 (a b c d : number) : number := min (min (min a b) c) d.

(** [Math.pow(v, 2)] *)
Definition pow2 (v : number) : number := v * v.

Definition sqrt (v : number) : number := PrimFloat.sqrt v.

Definition abs (v : number) : number := PrimFloat.abs v.

End JsMath.

(** ** Rounding to integers *)

Module Rounding.

(** [Math.round]: the nearest integer, a tie going up; a value at or
    above [2^52] in magnitude is integral already, and a result that is
    zero keeps the sign of the argument. *)
Definition Math_round (v : number) : number :=
  match Prim2SF v with
  | S754_finite s m e =>
      if (0 <=? e)%Z then v
      else
        let n := Z.div (2 * cond_Zopp s (Zpos m) + Z.pow 2 (- e))
                       (Z.pow 2 (1 - e)) in
        if (n =? 0)%Z then (if s then (-0) else 0) else JsMath.of_Z n
  | _ => v
  end.

(** The conversion of a number stored into a [Uint8ClampedArray]:
    [NaN] becomes 0, the value is clamped to 0 .. 255 and rounded to the
    nearest integer, a tie going to the even one. *)
Definition ToUint8Clamp (v : number) : Z :=
  match Prim2SF v with
  | S754_nan => 0
  | S754_zero _ => 0
  | S754_infinity s => if s then 0 else 255
  | S754_finite s m e =>
      if s then 0
      else if (0 <=? e)%Z then Z.min 255 (Zpos m * Z.pow 2 e)
      else
        let d := Z.pow 2 (- e) in
        let q := Z.div (Zpos m) d in
        let r := Z.modulo (Zpos m) d in
        let f :=
          if (2 * r <? d)%Z then q
          else if (d <? 2 * r)%Z then (q + 1)%Z
          else if Z.even q then q else (q + 1)%Z in
        Z.min 255 f
  end.

End Rounding.

(** ** The [String] methods the sources call

  A string is the sequence of the bytes of its UTF-8 encoding. *)

Module JsString.

(** [s.trim() === '']: [s] is made of white space and line terminators
    only (the code points 9 to 13, 32, 160, 5760, 8192 to 8202, 8232,
    8233, 8239, 8287, 12288 and 65279). *)
Fixpoint trimIsEmpty (s : string) : bool :=
  match s with
  | EmptyString => true
  | String c rest =>
      let n := N_of_ascii c in
      if ((9 <=? n) && (n <=? 13) || (n =? 32))%N then trimIsEmpty rest
      else
        match rest with
        | String c2 rest2 =>
            let n2 := N_of_ascii c2 in
            if ((n =? 194) && (n2 =? 160))%N then trimIsEmpty rest2
            else
              match rest2 with
              | String c3 rest3 =>
                  let n3 := N_of_ascii c3 in
                  if ((n =? 225) && (n2 =? 154) && (n3 =? 128)
                      || (n =? 226) && (n2 =? 128)
                         && ((128 <=? n3) && (n3 <=? 138)
                             || (n3 =? 168) || (n3 =? 169) || (n3 =? 175))
                      || (n =? 226) && (n2 =? 129) && (n3 =? 159)
                      || (n =? 227) && (n2 =? 128) && (n3 =? 128)
                      || (n =? 239) && (n2 =? 187) && (n3 =? 191))%N
                  then trimIsEmpty rest3
                  else false
              | EmptyString => false
              end
        | EmptyString => false
        end
  end.

(** [String(n)] for a natural number. *)
Definition String_of_nat (n : nat) : string :=
  NilEmpty.string_of_uint (Nat.to_uint n).

Fixpoint zeros (k : nat) : string :=
  match k with
  | O => EmptyString
  | S k' => String "0" (zeros k')
  end.

(** [s.padStart(targetLength, '0')] *)
Definition padStart0 (s : string) (targetLength : nat) : string :=
  zeros (targetLength - String.length s) ++ s.

End JsString.

(** ** [imagePreprocessing.ts], the pixel-to-page mapping utilities: OCR
    pixel box to page box *)

Module Mapping.

(** [box.bbox] of a box received as [any]. *)
Record AnyBBox := mkAnyBBox {
  bb_x : option number;
  bb_y : option number;
  bb_w : option number;
  bb_h : option number
}.

(** The argument [box: any] of [pixelBoxToPageBox]: every property may be
    missing ([None] is [undefined]), and holds a number when it is there,
    as in the boxes of the OCR engine and of the error analysis. *)
Record AnyBox := mkAnyBox {
  any_id : option string;
  any_x : option number;
  any_y : option number;
  any_w : option number;
  any_h : option number;
  any_bbox : option AnyBBox
}.

(** [interface OcrPixelBox]. *)
Record OcrPixelBox := mkOcrPixelBox {
  px_id : string;
  px_x : number;
  px_y : number;
  px_w : number;
  px_h : number
}.

Record DomRect := mkDomRect {
  rect_x : number;
  rect_y : number;
  rect_width : number;
  rect_height : number
}.

(** [interface DomImageData]. *)
Record DomImageData := mkDomImageData {
  rect : DomRect;
  naturalWidth : number;
  naturalHeight : number
}.

(** [interface PageBox]; [id] is [box.id], which is [undefined] when the
    input carries none. *)
Record PageBox := mkPageBox {
  pb_id : option string;
  pb_x : number;
  pb_y : number;
  pb_w : number;
  pb_h : number
}.

(** An [OcrPixelBox] seen as the [any] argument. *)
Definition ofPixelBox (b : OcrPixelBox) : AnyBox :=
  {| any_id := Some (px_id b);
     any_x := Some (px_x b); any_y := Some (px_y b);
     any_w := Some (px_w b); any_h := Some (px_h b);
     any_bbox := None |}.

(** [box.bbox?.f] *)
Definition bbox_field (f : AnyBBox -> option number) (box : AnyBox)
  : option number :=
  match any_bbox box with
  | Some bb => f bb
  | None => None
  end.

(** [Number.isFinite(box.f) ? box.f : box.bbox?.f] *)
Definition pick (own : option number) (fallback : option number)
  : option number :=
  if Number_isFinite own then own else fallback.

(** [box.id ?? 'unknown'] *)
Definition id_or_unknown (box : AnyBox) : option string :=
  match any_id box with
  | Some i => Some i
  | None => Some "unknown"%string
  end.

(** [pixelBoxToPageBox(box, img, editor)]; the [editor] is not used, and
    the console output of the development mode is left out. *)
Definition pixelBoxToPageBox (box : AnyBox) (img : DomImageData) : PageBox :=
  let bx := pick (any_x box) (bbox_field bb_x box) in
  let by_ := pick (any_y box) (bbox_field bb_y box) in
  let bw := pick (any_w box) (bbox_field bb_w box) in
  let bh := pick (any_h box) (bbox_field bb_h box) in
  if negb (Number_isFinite bx) || negb (Number_isFinite by_) then
    {| pb_id := id_or_unknown box;
       pb_x := NaN; pb_y := NaN; pb_w := NaN; pb_h := NaN |}
  else
    let scaleX := rect_width (rect img) / naturalWidth img in
    let scaleY := rect_height (rect img) / naturalHeight img in
    let pageX1 := rect_x (rect img) + ToNumber bx * scaleX in
    let pageY1 := rect_y (rect img) + ToNumber by_ * scaleY in
    let pageX2 := rect_x (rect img) + (ToNumber bx + ToNumber bw) * scaleX in
    let pageY2 := rect_y (rect img) + (ToNumber by_ + ToNumber bh) * scaleY in
    {| pb_id := any_id box;
       pb_x := pageX1;
       pb_y := pageY1;
       pb_w := pageX2 - pageX1;
       pb_h := pageY2 - pageY1 |}.

Definition mapOcrBoxesToPage (boxes : list AnyBox) (img : DomImageData)
  : list PageBox :=
  map (fun b => pixelBoxToPageBox b img) boxes.

(** The pixel box covering the whole image, [{0, 0, naturalWidth,
    naturalHeight}]. *)
Definition fullImageBox (i : string) (img : DomImageData) : OcrPixelBox :=
  {| px_id := i; px_x := 0; px_y := 0;
     px_w := naturalWidth img; px_h := naturalHeight img |}.

(** The geometry and the box of the worked example. *)
Definition example_geometry : DomImageData :=
  {| rect := {| rect_x := 100; rect_y := 200;
                rect_width := 300; rect_height := 150 |};
     naturalWidth := 900; naturalHeight := 450 |}.

Definition example_box : OcrPixelBox :=
  {| px_id := "c001"; px_x := 90; px_y := 45; px_w := 30; px_h := 45 |}.

(** The page rectangle of a geometry, as a page box. *)
Definition pageRectBox (i : string) (img : DomImageData) : PageBox :=
  {| pb_id := Some i;
     pb_x := rect_x (rect img); pb_y := rect_y (rect img);
     pb_w := rect_width (rect img); pb_h := rect_height (rect img) |}.

(** Two geometries whose page rectangle does not sit on binary
    fractions. *)
Definition tenths_geometry : DomImageData :=
  {| rect := {| rect_x := 0.1; rect_y := 0;
                rect_width := 0.2; rect_height := 1 |};
     naturalWidth := 1; naturalHeight := 1 |}.

Definition fractional_geometry : DomImageData :=
  {| rect := {| rect_x := 100.1; rect_y := 200;
                rect_width := 317.3; rect_height := 150 |};
     naturalWidth := 318; naturalHeight := 150 |}.

(** A box that carries nothing but an id, and one without id whose [x]
    is [NaN] and whose [bbox.x] is infinite. *)
Definition idOnlyBox : AnyBox :=
  {| any_id := Some "c009"%string;
     any_x := None; any_y := None; any_w := None; any_h := None;
     any_bbox := None |}.

Definition nonFiniteBox : AnyBox :=
  {| any_id := None;
     any_x := Some NaN; any_y := Some 4; any_w := Some 1; any_h := Some 1;
     any_bbox := Some {| bb_x := Some infinity; bb_y := Some 2;
                         bb_w := None; bb_h := None |} |}.

(** *** Properties that hold no number

    The parameter is declared [box: any], so a property of the box may
    hold a value of another kind.  [JsValue] has the kinds on which the
    operators of [pixelBoxToPageBox] are decided by the kind alone:
    [undefined], [null], a boolean, a number, a BigInt and a Symbol.
    Strings and objects, whose [+] goes through their conversion to text,
    are left out; the box itself is an object. *)
Inductive JsValue :=
| VUndefined
| VNull
| VBoolean (b : bool)
| VNumber (n : number)
| VBigInt (z : Z)
| VSymbol.

Record ValueBBox := mkValueBBox {
  vbb_x : JsValue;
  vbb_y : JsValue;
  vbb_w : JsValue;
  vbb_h : JsValue
}.

Record ValueBox := mkValueBox {
  val_id : option string;
  val_x : JsValue;
  val_y : JsValue;
  val_w : JsValue;
  val_h : JsValue;
  val_bbox : option ValueBBox
}.

(** [Number.isFinite(v)] converts nothing: it is false unless [v] is a
    number. *)
Definition isFiniteValue (v : JsValue) : bool :=
  match v with
  | VNumber n => is_finite n
  | _ => false
  end.

(** The number held by a value that passed [Number.isFinite]. *)
Definition numberOf (v : JsValue) : number :=
  match v with
  | VNumber n => n
  | _ => NaN
  end.

(** [a + v] for a number [a]: [undefined] counts as [NaN], [null] as
    [0], a boolean as [0] or [1]; a BigInt or a Symbol makes [+] throw a
    [TypeError], which is [None]. *)
Definition addValue (a : number) (v : JsValue) : option number :=
  match v with
  | VUndefined => Some (a + NaN)
  | VNull => Some (a + 0)
  | VBoolean b => Some (a + (if b then 1 else 0))
  | VNumber n => Some (a + n)
  | VBigInt _ => None
  | VSymbol => None
  end.

(** [box.bbox?.f] *)
Definition bboxValue (f : ValueBBox -> JsValue) (box : ValueBox) : JsValue :=
  match val_bbox box with
  | Some bb => f bb
  | None => VUndefined
  end.

(** [Number.isFinite(box.f) ? box.f : box.bbox?.f] *)
Definition pickValue (own fallback : JsValue) : JsValue :=
  if isFiniteValue own then own else fallback.

(** [pixelBoxToPageBox] on such a box; [None] is a thrown [TypeError].
    The corners are computed in the order of the source, [pageX2] before
    [pageY2]. *)
Definition pixelBoxToPageBoxOfValues (box : ValueBox) (img : DomImageData)
  : option PageBox :=
  let bx := pickValue (val_x box) (bboxValue vbb_x box) in
  let by_ := pickValue (val_y box) (bboxValue vbb_y box) in
  let bw := pickValue (val_w box) (bboxValue vbb_w box) in
  let bh := pickValue (val_h box) (bboxValue vbb_h box) in
  if negb (isFiniteValue bx) || negb (isFiniteValue by_) then
    Some {| pb_id := match val_id box with
                     | Some i => Some i
                     | None => Some "unknown"%string
                     end;
            pb_x := NaN; pb_y := NaN; pb_w := NaN; pb_h := NaN |}
  else
    let scaleX := rect_width (rect img) / naturalWidth img in
    let scaleY := rect_height (rect img) / naturalHeight img in
    let pageX1 := rect_x (rect img) + numberOf bx * scaleX in
    let pageY1 := rect_y (rect img) + numberOf by_ * scaleY in
    match addValue (numberOf bx) bw with
    | None => None
    | Some sumX =>
        let pageX2 := rect_x (rect img) + sumX * scaleX in
        match addValue (numberOf by_) bh with
        | None => None
        | Some sumY =>
            let pageY2 := rect_y (rect img) + sumY * scaleY in
            Some {| pb_id := val_id box;
                    pb_x := pageX1;
                    pb_y := pageY1;
                    pb_w := pageX2 - pageX1;
                    pb_h := pageY2 - pageY1 |}
        end
    end.

(** A property that is a number or missing, as a value. *)
Definition valueOf (v : option number) : JsValue :=
  match v with
  | Some n => VNumber n
  | None => VUndefined
  end.

(** A box of numbers seen as a box of values. *)
Definition ofAnyBox (box : AnyBox) : ValueBox :=
  {| val_id := any_id box;
     val_x := valueOf (any_x box); val_y := valueOf (any_y box);
     val_w := valueOf (any_w box); val_h := valueOf (any_h box);
     val_bbox :=
       match any_bbox box with
       | Some bb => Some {| vbb_x := valueOf (bb_x bb);
                            vbb_y := valueOf (bb_y bb);
                            vbb_w := valueOf (bb_w bb);
                            vbb_h := valueOf (bb_h bb) |}
       | None => None
       end |}.

(** A BigInt or a Symbol: the kinds [+] refuses beside a number. *)
Definition refusedByPlus (v : JsValue) : bool :=
  match v with
  | VBigInt _ | VSymbol => true
  | _ => false
  end.

(** The box [{id: 'c001', x: 90, y: 45, bbox: {w: 30n, h: 45}}], whose
    width is a BigInt, and a box of BigInts only. *)
Definition bigIntWidthBox : ValueBox :=
  {| val_id := Some "c001"%string;
     val_x := VNumber 90; val_y := VNumber 45;
     val_w := VUndefined; val_h := VUndefined;
     val_bbox := Some {| vbb_x := VUndefined; vbb_y := VUndefined;
                         vbb_w := VBigInt 30; vbb_h := VNumber 45 |} |}.

Definition bigIntBox : ValueBox :=
  {| val_id := None;
     val_x := VBigInt 90; val_y := VBigInt 45;
     val_w := VBigInt 30; val_h := VBigInt 45;
     val_bbox := None |}.

End Mapping.

(** ** [imagePreprocessing.ts]: the preprocessing of the raster *)

Module ImagePreprocessing.

Import Rounding.

(** An [ImageData]: [data] is the [Uint8ClampedArray] of the channels R, G,
    B, A of the pixels, row by row, each an integer from 0 to 255, and
    holds [4 * width * height] of them (the browser builds no other, and
    none with a [width] or a [height] of 0). *)
Record ImageData := mkImageData {
  width : nat;
  height : nat;
  data : list Z
}.

(** [interface ImageProcessingOptions] *)
Record ImageProcessingOptions := mkImageProcessingOptions {
  opt_grayscale : bool;
  opt_binary : bool;
  opt_denoise : bool;
  opt_enhance : bool
}.

(** [data[i]] read as a number. *)
Definition channel (v : Z) : number := JsMath.of_Z v.

(** The value stored in the three colour channels of a pixel by
    [toGrayscale]. *)
Definition grayOf (r g b : Z) : Z :=
  ToUint8Clamp
    (Math_round (channel r * 0.299 + channel g * 0.587 + channel b * 0.114)).

(** The loop [for (i = 0; i < data.length; i += 4)] of [toGrayscale]; in
    an array that stops inside a pixel a missing channel reads as
    [undefined], and a write past the end is ignored. *)
Fixpoint grayscale (data : list Z) : list Z :=
  match data with
  | r :: g :: b :: a :: rest =>
      let gray := grayOf r g b in
      gray :: gray :: gray :: a :: grayscale rest
  | [r; g; b] => let gray := grayOf r g b in [gray; gray; gray]
  | [_; _] => [ToUint8Clamp NaN; ToUint8Clamp NaN]
  | [_] => [ToUint8Clamp NaN]
  | [] => []
  end.

Definition toGrayscale (imageData : ImageData) : ImageData :=
  {| width := width imageData; height := height imageData;
     data := grayscale (data imageData) |}.

(** [histogram[k]++] *)
Fixpoint increment (histogram : list number) (k : nat) : list number :=
  match histogram, k with
  | [], _ => []
  | c :: h, O => (c + 1) :: h
  | c :: h, S k' => c :: increment h k'
  end.

(** The values [data[i]] for [i = 0, 4, 8, ...]. *)
Fixpoint everyFourth (data : list Z) : list Z :=
  match data with
  | r :: _ :: _ :: _ :: rest => r :: everyFourth rest
  | r :: _ => [r]
  | [] => []
  end.

(** The state of the loop over the thresholds of
    [calculateOtsuThreshold]. *)
Record OtsuState := mkOtsuState {
  sumB : number;
  wB : number;
  varMax : number;
  threshold : number
}.

(** The loop [for (t = 0; t < 256; t++)], from [t] on: [continue] while no
    pixel is at or below [t], [break] once none is above it. *)
Fixpoint otsuLoop (ts : list nat) (histogram : list number)
    (total sum : number) (st : OtsuState) : number :=
  match ts with
  | [] => threshold st
  | t :: ts' =>
      let wB := wB st + nth t histogram 0 in
      if strict_eq wB 0 then
        otsuLoop ts' histogram total sum
          {| sumB := sumB st; wB := wB; varMax := varMax st;
             threshold := threshold st |}
      else
        let wF := total - wB in
        if strict_eq wF 0 then threshold st
        else
          let sumB := sumB st + JsMath.of_nat t * nth t histogram 0 in
          let mB := sumB / wB in
          let mF := (sum - sumB) / wF in
          let varBetween := wB * wF * (mB - mF) * (mB - mF) in
          if gtb varBetween (varMax st) then
            otsuLoop ts' histogram total sum
              {| sumB := sumB; wB := wB; varMax := varBetween;
                 threshold := JsMath.of_nat t |}
          else
            otsuLoop ts' histogram total sum
              {| sumB := sumB; wB := wB; varMax := varMax st;
                 threshold := threshold st |}
  end.

Definition calculateOtsuThreshold (imageData : ImageData) : number :=
  let histogram :=
    fold_left (fun h v => increment h (Z.to_nat v))
      (everyFourth (data imageData)) (repeat 0 256) in
  let total :=
    JsMath.of_nat (width imageData) * JsMath.of_nat (height imageData) in
  let sum :=
    fold_left (fun sum i => sum + JsMath.of_nat i * nth i histogram 0)
      (seq 0 256) 0 in
  otsuLoop (seq 0 256) histogram total sum
    {| sumB := 0; wB := 0; varMax := 0; threshold := 0 |}.

(** [gray > threshold ? 255 : 0] *)
Definition binaryOf (threshold : number) (gray : Z) : Z :=
  if gtb (channel gray) threshold then 255 else 0.

Fixpoint binarize (threshold : number) (data : list Z) : list Z :=
  match data with
  | gray :: _ :: _ :: a :: rest =>
      let binary := binaryOf threshold gray in
      binary :: binary :: binary :: a :: binarize threshold rest
  | [gray; _; _] =>
      let binary := binaryOf threshold gray in [binary; binary; binary]
  | [gray; _] => let binary := binaryOf threshold gray in [binary; binary]
  | [gray] => [binaryOf threshold gray]
  | [] => []
  end.

(** [toBinary(imageData, threshold?)]: without a threshold the one of
    Otsu is taken. *)
Definition toBinary (imageData : ImageData) (threshold : option number)
  : ImageData :=
  let threshold :=
    match threshold with
    | Some t => t
    | None => calculateOtsuThreshold imageData
    end in
  {| width := width imageData; height := height imageData;
     data := binarize threshold (data imageData) |}.

(** [data[idx]] of a pixel. *)
Definition at_ (imageData : ImageData) (idx : Z) : Z :=
  nth (Z.to_nat idx) (data imageData) 0%Z.

(** The values of [dy] (and of [dx]) in
    [for (dy = -radius; dy <= radius; dy++)]. *)
Definition offsets (radius : nat) : list Z :=
  map (fun k => (Z.of_nat k - Z.of_nat radius)%Z) (seq 0 (2 * radius + 1)).

Definition inside (imageData : ImageData) (ny nx : Z) : bool :=
  (0 <=? ny)%Z && (ny <? Z.of_nat (height imageData))%Z
  && (0 <=? nx)%Z && (nx <? Z.of_nat (width imageData))%Z.

(** The values [data[nIdx]] met by the two inner loops around the pixel
    [(x, y)], in the order they are met. *)
Definition neighbourhood (imageData : ImageData) (radius : nat) (y x : Z)
  : list Z :=
  flat_map
    (fun dy =>
       flat_map
         (fun dx =>
            let ny := (y + dy)%Z in
            let nx := (x + dx)%Z in
            if inside imageData ny nx then
              let nIdx := ((ny * Z.of_nat (width imageData) + nx) * 4)%Z in
              [at_ imageData nIdx]
            else [])
         (offsets radius))
    (offsets radius).

(** The four values written for the pixel [(x, y)]; [Math.min] and
    [Math.max] are taken between integers from 0 to 255. *)
Definition erodedPixel (imageData : ImageData) (radius : nat) (y x : Z)
  : list Z :=
  let idx := ((y * Z.of_nat (width imageData) + x) * 4)%Z in
  let minVal := fold_left Z.min (neighbourhood imageData radius y x) 255%Z in
  [minVal; minVal; minVal; at_ imageData (idx + 3)].

Definition dilatedPixel (imageData : ImageData) (radius : nat) (y x : Z)
  : list Z :=
  let idx := ((y * Z.of_nat (width imageData) + x) * 4)%Z in
  let maxVal := fold_left Z.max (neighbourhood imageData radius y x) 0%Z in
  [maxVal; maxVal; maxVal; at_ imageData (idx + 3)].

(** The two loops over the rows and the columns, which fill [output]. *)
Definition forEachPixel (imageData : ImageData) (pixel : Z -> Z -> list Z)
  : list Z :=
  flat_map
    (fun y =>
       flat_map (fun x => pixel (Z.of_nat y) (Z.of_nat x))
                (seq 0 (width imageData)))
    (seq 0 (height imageData)).

Definition morphologyErode (imageData : ImageData) (radius : nat)
  : ImageData :=
  {| width := width imageData; height := height imageData;
     data := forEachPixel imageData (erodedPixel imageData radius) |}.

Definition morphologyDilate (imageData : ImageData) (radius : nat)
  : ImageData :=
  {| width := width imageData; height := height imageData;
     data := forEachPixel imageData (dilatedPixel imageData radius) |}.

Definition denoise (imageData : ImageData) : ImageData :=
  let eroded := morphologyErode imageData 1 in
  morphologyDilate eroded 1.

(** [Math.max(0, Math.min(255, factor * (pixel - 128) + 128))], stored. *)
Definition contrastOf (factor : number) (pixel : Z) : Z :=
  ToUint8Clamp
    (JsMath.max 0 (JsMath.min 255 (factor * (channel pixel - 128) + 128))).

Fixpoint contrast (factor : number) (data : list Z) : list Z :=
  match data with
  | r :: g :: b :: a :: rest =>
      contrastOf factor r :: contrastOf factor g :: contrastOf factor b
      :: a :: contrast factor rest
  | _ => map (contrastOf factor) data
  end.

(** [enhanceContrast(imageData, factor = 1.5)] *)
Definition enhanceContrast (imageData : ImageData) (factor : option number)
  : ImageData :=
  let factor := match factor with Some f => f | None => 1.5 end in
  {| width := width imageData; height := height imageData;
     data := contrast factor (data imageData) |}.

(** [preprocessImage(canvas, options)], from the image data read off the
    canvas to the image data put on the canvas returned. *)
Definition preprocessImage (canvas : ImageData)
    (options : ImageProcessingOptions) : ImageData :=
  let imageData := canvas in
  let imageData :=
    if opt_grayscale options then toGrayscale imageData else imageData in
  let imageData :=
    if opt_enhance options then enhanceContrast imageData (Some 1.3)
    else imageData in
  let imageData :=
    if opt_denoise options then denoise imageData else imageData in
  let imageData :=
    if opt_binary options then toBinary imageData None else imageData in
  imageData.

(** The invariant of an [ImageData]. *)
Definition wellFormed (imageData : ImageData) : Prop :=
  List.length (data imageData)
  = (4 * (width imageData * height imageData))%nat
  /\ Forall (fun v => (0 <= v <= 255)%Z) (data imageData).

(** The channel [c] (0 for R to 3 for A) of the pixel [(x, y)]. *)
Definition channelAt (imageData : ImageData) (y x c : nat) : Z :=
  nth ((y * width imageData + x) * 4 + c) (data imageData) 0%Z.

(** A picture of two by two pixels. *)
Definition samplePicture : ImageData :=
  {| width := 2; height := 2;
     data := [ 200; 100; 50; 255;   10; 20; 30; 128;
               90; 90; 90; 255;     250; 240; 5; 0 ]%Z |}.

(** A channel value: an integer from 0 to 255. *)
Definition inRange (v : Z) : Prop := (0 <= v <= 255)%Z.

(** What each step of the pipeline keeps: the size, the invariant of the
    image and the alpha channel of every pixel. *)
Definition keeps (input output : ImageData) : Prop :=
  wellFormed output
  /\ width output = width input /\ height output = height input
  /\ forall y x,
       (y < height input)%nat -> (x < width input)%nat ->
       channelAt output y x 3 = channelAt input y x 3.

End ImagePreprocessing.

(** ** [coordinateMapping.ts]: local mapping with scale auto-correction *)

Module CoordinateMapping.

(** An optional property [w?: number]: absent, present but [undefined],
    or a number.  ['w' in o] only asks for presence, [o.w !== undefined]
    for a value. *)
Inductive prop :=
| Absent
| Undef
| Val (n : number).

Definition has (p : prop) : bool :=
  match p with Absent => false | _ => true end.

(** [o.w && o.w > bound], read as a condition. *)
Definition truthy_and_gt (p : prop) (bound : number) : bool :=
  match p with
  | Val n => truthy n && gtb n bound
  | _ => false
  end.

(** [{ x: number; y: number; w?: number; h?: number }] *)
Record OcrCoord := mkOcrCoord {
  oc_x : number;
  oc_y : number;
  oc_w : prop;
  oc_h : prop
}.

(** [interface BoundingBox] *)
Record BoundingBox := mkBoundingBox {
  bx_x : number;
  bx_y : number;
  bx_w : number;
  bx_h : number
}.

Record ImageSize := mkImageSize {
  width : number;
  height : number
}.

Definition mapLocalOcrCoordinates (ocrCoord : OcrCoord)
    (selectionBounds : BoundingBox) : OcrCoord :=
  if has (oc_w ocrCoord) && has (oc_h ocrCoord) then
    {| oc_x := bx_x selectionBounds + oc_x ocrCoord;
       oc_y := bx_y selectionBounds + oc_y ocrCoord;
       oc_w := oc_w ocrCoord;
       oc_h := oc_h ocrCoord |}
  else
    {| oc_x := bx_x selectionBounds + oc_x ocrCoord;
       oc_y := bx_y selectionBounds + oc_y ocrCoord;
       oc_w := Absent;
       oc_h := Absent |}.

(** [result.w] is set only when [ocrCoord.w !== undefined]. *)
Definition scale_prop (p : prop) (correctionFactor : number) : prop :=
  match p with
  | Val n => Val (n / correctionFactor)
  | _ => Absent
  end.

Definition applyScaleCorrectionToOCRCoordinates (ocrCoord : OcrCoord)
    (correctionFactor : number) : OcrCoord :=
  {| oc_x := oc_x ocrCoord / correctionFactor;
     oc_y := oc_y ocrCoord / correctionFactor;
     oc_w := scale_prop (oc_w ocrCoord) correctionFactor;
     oc_h := scale_prop (oc_h ocrCoord) correctionFactor |}.

(** [detectedInternalScaleFactor && detectedInternalScaleFactor > 1] *)
Definition reported (detectedInternalScaleFactor : option number) : bool :=
  match detectedInternalScaleFactor with
  | Some f => truthy f && gtb f 1
  | None => false
  end.

Definition isOversized (ocrCoord : OcrCoord) (imageSize : ImageSize) : bool :=
  gtb (oc_x ocrCoord) (width imageSize * 1.5)
  || gtb (oc_y ocrCoord) (height imageSize * 1.5)
  || truthy_and_gt (oc_w ocrCoord) (width imageSize * 0.8)
  || truthy_and_gt (oc_h ocrCoord) (height imageSize * 0.8).

(** The first half of [mapLocalOcrCoordinatesWithAutoCorrection]: the two
    local variables [appliedScaleFactor] and [correctedOcrCoord] as they
    stand when the final mapping is called. *)
Definition autoCorrection (ocrCoord : OcrCoord) (imageSize : ImageSize)
    (detectedInternalScaleFactor : option number) : number * OcrCoord :=
  if reported detectedInternalScaleFactor then
    let appliedScaleFactor := ToNumber detectedInternalScaleFactor in
    (appliedScaleFactor,
     applyScaleCorrectionToOCRCoordinates ocrCoord appliedScaleFactor)
  else if isOversized ocrCoord imageSize then
    (2, applyScaleCorrectionToOCRCoordinates ocrCoord 2)
  else
    (1, ocrCoord).

Definition appliedScaleFactor (ocrCoord : OcrCoord) (imageSize : ImageSize)
    (detected : option number) : number :=
  fst (autoCorrection ocrCoord imageSize detected).

Definition correctedOcrCoord (ocrCoord : OcrCoord) (imageSize : ImageSize)
    (detected : option number) : OcrCoord :=
  snd (autoCorrection ocrCoord imageSize detected).

Definition mapLocalOcrCoordinatesWithAutoCorrection (ocrCoord : OcrCoord)
    (selectionBounds : BoundingBox) (imageSize : ImageSize)
    (detectedInternalScaleFactor : option number) : OcrCoord :=
  mapLocalOcrCoordinates
    (correctedOcrCoord ocrCoord imageSize detectedInternalScaleFactor)
    selectionBounds.

(** The box of the worked example of the scale correction, a selection
    and an image of 900 by 450. *)
Definition doubled_coord : OcrCoord :=
  {| oc_x := 200; oc_y := 100; oc_w := Val 40; oc_h := Val 60 |}.

Definition example_selection : BoundingBox :=
  {| bx_x := 100; bx_y := 200; bx_w := 900; bx_h := 450 |}.

Definition example_image : ImageSize := {| width := 900; height := 450 |}.

(** A box beyond one and a half widths of that image. *)
Definition oversized_coord : OcrCoord :=
  {| oc_x := 1400; oc_y := 100; oc_w := Val 40; oc_h := Val 60 |}.

End CoordinateMapping.

(** ** [tesseractOCR.ts]: the internal scale factor found by [processImage] *)

Module Tesseract.

Record Bbox := mkBbox {
  x0 : number;
  y0 : number;
  x1 : number;
  y1 : number
}.

Record Symbol := mkSymbol {
  text : string;
  bbox : Bbox;
  confidence : number
}.

(** [word.symbols] may be missing. *)
Record Word := mkWord { symbols : option (list Symbol) }.
Record Line := mkLine { words : list Word }.
Record Paragraph := mkParagraph { lines : list Line }.

(** [tesseractResult.data] *)
Record RecognizeData := mkRecognizeData { paragraphs : list Paragraph }.

(** The symbol [processImage] inspects: the first symbol of the first word
    of the first line of the first paragraph. *)
Definition firstSymbol (data : RecognizeData) : option Symbol :=
  match paragraphs data with
  | firstParagraph :: _ =>
      match lines firstParagraph with
      | firstLine :: _ =>
          match words firstLine with
          | firstWord :: _ =>
              match symbols firstWord with
              | Some (s :: _) => Some s
              | _ => None
              end
          | [] => None
          end
      | [] => None
      end
  | [] => None
  end.

(** [firstCharInfo.originalCoords.h / preprocessedCanvas.height] *)
Definition charHeightRatio (firstSymbol : Symbol) (canvasHeight : number)
  : number :=
  (y1 (bbox firstSymbol) - y0 (bbox firstSymbol)) / canvasHeight.

(** The value [processImage] stores in
    [metadata.detectedInternalScaleFactor]. *)
Definition internalScaleFactor (data : RecognizeData)
    (canvasHeight : number) : number :=
  match firstSymbol data with
  | Some s => if gtb (charHeightRatio s canvasHeight) 0.5 then 2 else 1
  | None => 1
  end.

(** A recognition whose first symbol has the given height. *)
Definition resultWithHeight (symbolHeight : number) : RecognizeData :=
  {| paragraphs :=
       [ {| lines :=
              [ {| words :=
                     [ {| symbols :=
                            Some [ {| text := "7";
                                      bbox := {| x0 := 10; y0 := 20;
                                                 x1 := 40;
                                                 y1 := 20 + symbolHeight |};
                                      confidence := 93 |} ] |} ] |} ] |} ] |}.

End Tesseract.

(** ** [tesseractOCR.ts]: the worker of [TesseractOCRProcessor] *)

Module Processor.

Import Tesseract.

(** A worker of the OCR engine, by the order of its creation. *)
Definition Worker := nat.

(** The two private fields of [class TesseractOCRProcessor]. *)
Record TesseractOCRProcessor := mkProcessor {
  worker : option Worker;
  isInitialized : bool
}.

(** [new TesseractOCRProcessor()] *)
Definition newProcessor : TesseractOCRProcessor :=
  {| worker := None; isInitialized := false |}.

(** What a method throws: the error of [recognize] on a processor that is
    not initialized, or the error of the engine, thrown again. *)
Inductive Thrown :=
| NotInitialized
| EngineError (message : string).

(** What an awaited call of the engine settles with. *)
Inductive Answer (A : Type) :=
| Resolves (a : A)
| Rejects (message : string).
Arguments Resolves {A} a.
Arguments Rejects {A} message.

(** The calls a method makes to the engine. *)
Inductive EngineCall :=
| CreateWorker (w : Worker)
| SetParameters (w : Worker)
| WorkerRecognize (w : Worker)
| Terminate (w : Worker).

(** The run of a method: the processor it leaves, what it returns or
    throws, and the calls it made. *)
Record Ran (A : Type) := mkRan {
  left : TesseractOCRProcessor;
  settled : A + Thrown;
  calls : list EngineCall
}.
Arguments mkRan {A} left settled calls.
Arguments left {A} r.
Arguments settled {A} r.
Arguments calls {A} r.

(** [initialize()]; [createWorker] and [setParameters] are the answers of
    the engine to the two awaited calls. *)
Definition initialize (createWorker : Answer Worker)
    (setParameters : Answer unit) (this : TesseractOCRProcessor)
  : Ran unit :=
  if isInitialized this then mkRan this (inl tt) []
  else
    match createWorker with
    | Rejects message => mkRan this (inr (EngineError message)) []
    | Resolves w =>
        let this := {| worker := Some w;
                       isInitialized := isInitialized this |} in
        match setParameters with
        | Rejects message =>
            mkRan this (inr (EngineError message))
                  [CreateWorker w; SetParameters w]
        | Resolves _ =>
            mkRan {| worker := worker this; isInitialized := true |}
                  (inl tt) [CreateWorker w; SetParameters w]
        end
    end.

(** [recognize(imageData)]; [answer] is the answer of
    [this.worker.recognize]. *)
Definition recognize (answer : Answer RecognizeData)
    (this : TesseractOCRProcessor) : Ran RecognizeData :=
  match worker this with
  | Some w =>
      if negb (isInitialized this) then mkRan this (inr NotInitialized) []
      else
        match answer with
        | Resolves result => mkRan this (inl result) [WorkerRecognize w]
        | Rejects message =>
            mkRan this (inr (EngineError message)) [WorkerRecognize w]
        end
  | None => mkRan this (inr NotInitialized) []
  end.

(** [cleanup()]; [terminate] is the answer of [this.worker.terminate]. *)
Definition cleanup (terminate : Answer unit) (this : TesseractOCRProcessor)
  : Ran unit :=
  match worker this with
  | Some w =>
      match terminate with
      | Resolves _ =>
          mkRan {| worker := None; isInitialized := false |} (inl tt)
                [Terminate w]
      | Rejects message =>
          mkRan this (inr (EngineError message)) [Terminate w]
      end
  | None => mkRan this (inl tt) []
  end.

(** [processImage] up to the recognition:
    [await this.initialize(); await this.recognize(preprocessedCanvas)]. *)
Definition recognition (createWorker : Answer Worker)
    (setParameters : Answer unit) (answer : Answer RecognizeData)
    (this : TesseractOCRProcessor) : Ran RecognizeData :=
  let r := initialize createWorker setParameters this in
  match settled r with
  | inr thrown => mkRan (left r) (inr thrown) (calls r)
  | inl _ =>
      let r' := recognize answer (left r) in
      mkRan (left r') (settled r') (calls r ++ calls r')
  end.

(** A call of a method of the processor, with the answers of the
    engine. *)
Inductive MethodCall :=
| CallInitialize (createWorker : Answer Worker) (setParameters : Answer unit)
| CallRecognize (answer : Answer RecognizeData)
| CallCleanup (terminate : Answer unit)
| CallProcessImage (createWorker : Answer Worker)
    (setParameters : Answer unit) (answer : Answer RecognizeData).

(** The processor a call leaves, and the engine calls it makes. *)
Definition after (this : TesseractOCRProcessor) (c : MethodCall)
  : TesseractOCRProcessor :=
  match c with
  | CallInitialize cw sp => left (initialize cw sp this)
  | CallRecognize a => left (recognize a this)
  | CallCleanup t => left (cleanup t this)
  | CallProcessImage cw sp a => left (recognition cw sp a this)
  end.

Definition callsOf (this : TesseractOCRProcessor) (c : MethodCall)
  : list EngineCall :=
  match c with
  | CallInitialize cw sp => calls (initialize cw sp this)
  | CallRecognize a => calls (recognize a this)
  | CallCleanup t => calls (cleanup t this)
  | CallProcessImage cw sp a => calls (recognition cw sp a this)
  end.

(** The processor after a sequence of calls. *)
Definition afterAll (cs : list MethodCall) (this : TesseractOCRProcessor)
  : TesseractOCRProcessor :=
  fold_left after cs this.

(** The engine calls of a sequence of method calls. *)
Fixpoint engineCalls (cs : list MethodCall) (this : TesseractOCRProcessor)
  : list EngineCall :=
  match cs with
  | [] => []
  | c :: cs' => callsOf this c ++ engineCalls cs' (after this c)
  end.

(** The invariant of the two fields. *)
Definition ready (this : TesseractOCRProcessor) : Prop :=
  isInitialized this = true -> worker this <> None.

End Processor.

(** ** [types/ocr.ts] *)

Module Ocr.

Record Box := mkBox {
  x : number;
  y : number;
  w : number;
  h : number
}.

Record Point := mkPoint {
  px : number;
  py : number
}.

(** [interface CharacterBox] *)
Record CharacterBox := mkCharacterBox {
  char_id : string;
  char : string;
  char_bbox : Box;
  char_center : Point;
  char_confidence : number
}.

(** [interface HandwritingError] *)
Record HandwritingError := mkHandwritingError {
  id : string;
  bbox : Box;
  center : Point;
  errorType : string;
  suggestion : string;
  explanation : string;
  action : string
}.

(** [{ ...error, bbox: b, center: c }] *)
Definition with_bbox_center (error : HandwritingError) (b : Box) (c : Point)
  : HandwritingError :=
  {| id := id error; bbox := b; center := c;
     errorType := errorType error; suggestion := suggestion error;
     explanation := explanation error; action := action error |}.

End Ocr.

(** ** [imagePreprocessing.ts]: the checks of a mapping *)

Module MappingChecks.

Import Ocr Mapping.

(** [interface SelectionBounds]; the optional corners are not read. *)
Record SelectionBounds := mkSelectionBounds {
  sb_x : number;
  sb_y : number;
  sb_w : number;
  sb_h : number;
  sb_minX : option number;
  sb_minY : option number;
  sb_maxX : option number;
  sb_maxY : option number
}.

Record Union := mkUnion {
  minX : number;
  minY : number;
  maxX : number;
  maxY : number
}.

(** The initial value of the [reduce]. *)
Definition emptyUnion : Union :=
  {| minX := infinity; minY := infinity;
     maxX := neg_infinity; maxY := neg_infinity |}.

(** The callback of the [reduce]. *)
Definition extendUnion (u : Union) (b : PageBox) : Union :=
  {| minX := JsMath.min (minX u) (pb_x b);
     minY := JsMath.min (minY u) (pb_y b);
     maxX := JsMath.max (maxX u) (pb_x b + pb_w b);
     maxY := JsMath.max (maxY u) (pb_y b + pb_h b) |}.

Record Coverage := mkCoverage {
  union : Union;
  covered : bool
}.

Definition calcUnionAndCoverage (pageBoxes : list PageBox)
    (selection : SelectionBounds) : Coverage :=
  let union := fold_left extendUnion pageBoxes emptyUnion in
  let covered :=
    geb (minX union) (sb_x selection)
    && geb (minY union) (sb_y selection)
    && (maxX union <=? sb_x selection + sb_w selection)
    && (maxY union <=? sb_y selection + sb_h selection) in
  {| union := union; covered := covered |}.

(** [calcRmse]: [n] is the length of the shorter array, so [groundBoxes[i]]
    is there for every box of the slice. *)
Definition calcRmse (pageBoxes : list PageBox) (groundBoxes : list Point)
  : number :=
  let n := Nat.min (List.length pageBoxes) (List.length groundBoxes) in
  let sum :=
    fold_left
      (fun acc (bg : PageBox * Point) =>
         let (b, g) := bg in
         let gx := px g in
         let gy := py g in
         let cx := pb_x b + pb_w b / 2 in
         let cy := pb_y b + pb_h b / 2 in
         acc + JsMath.pow2 (cx - gx) + JsMath.pow2 (cy - gy))
      (combine (firstn n pageBoxes) groundBoxes) 0 in
  JsMath.sqrt (sum / (2 * JsMath.of_nat n)).

Definition iou (boxA boxB : PageBox) : number :=
  let interX1 := JsMath.max (pb_x boxA) (pb_x boxB) in
  let interY1 := JsMath.max (pb_y boxA) (pb_y boxB) in
  let interX2 := JsMath.min (pb_x boxA + pb_w boxA) (pb_x boxB + pb_w boxB) in
  let interY2 := JsMath.min (pb_y boxA + pb_h boxA) (pb_y boxB + pb_h boxB) in
  let interArea :=
    JsMath.max 0 (interX2 - interX1) * JsMath.max 0 (interY2 - interY1) in
  if negb (truthy interArea) then 0
  else
    let unionArea :=
      pb_w boxA * pb_h boxA + pb_w boxB * pb_h boxB - interArea in
    interArea / unionArea.

End MappingChecks.

(** ** [tesseractOCR.ts]: the character boxes of a recognition *)

Module CharacterExtraction.

Import Ocr Tesseract JsString Rounding.

(** [`c${String(charIndex + 1).padStart(3, '0')}`] *)
Definition charIdOf (charIndex : nat) : string :=
  String "c" (padStart0 (String_of_nat (charIndex + 1)) 3).

(** The array [characters] and the counter [charIndex]. *)
Record Extracted := mkExtracted {
  characters : list CharacterBox;
  charIndex : nat
}.

(** The callback of [word.symbols.forEach]. *)
Definition pushSymbol (st : Extracted) (symbol : Symbol) : Extracted :=
  if negb (trimIsEmpty (text symbol)) then
    let charId := charIdOf (charIndex st) in
    let bbox :=
      {| x := x0 (Tesseract.bbox symbol);
         y := y0 (Tesseract.bbox symbol);
         w := x1 (Tesseract.bbox symbol) - x0 (Tesseract.bbox symbol);
         h := y1 (Tesseract.bbox symbol) - y0 (Tesseract.bbox symbol) |} in
    let center :=
      {| px := Math_round (x bbox + w bbox / 2);
         py := Math_round (y bbox + h bbox / 2) |} in
    {| characters :=
         characters st ++
         [ {| char_id := charId; char := text symbol; char_bbox := bbox;
              char_center := center;
              char_confidence := confidence symbol / 100 |} ];
       charIndex := S (charIndex st) |}
  else st.

(** The callback of [line.words.forEach]:
    [if (word.symbols && word.symbols.length > 0)]. *)
Definition pushWord (st : Extracted) (word : Word) : Extracted :=
  match symbols word with
  | Some (s :: l) => fold_left pushSymbol (s :: l) st
  | _ => st
  end.

Definition pushLine (st : Extracted) (line : Line) : Extracted :=
  fold_left pushWord (words line) st.

Definition pushParagraph (st : Extracted) (paragraph : Paragraph)
  : Extracted :=
  fold_left pushLine (lines paragraph) st.

(** [extractCharacterBoxes(tesseractResult, imageId)]; the [imageId] is
    not used. *)
Definition extractCharacterBoxes (data : RecognizeData) : list CharacterBox :=
  characters
    (fold_left pushParagraph (paragraphs data)
       {| characters := []; charIndex := 0 |}).

(** An id read back: the number after the [c]. *)
Definition charNumber (charId : string) : option nat :=
  match charId with
  | String "c" digits =>
      option_map Nat.of_uint (NilEmpty.uint_of_string digits)
  | _ => None
  end.

(** The symbols of a recognition, in reading order. *)
Definition symbolsOf (data : RecognizeData) : list Symbol :=
  flat_map
    (fun paragraph =>
       flat_map
         (fun line =>
            flat_map
              (fun word =>
                 match symbols word with Some l => l | None => [] end)
              (words line))
         (lines paragraph))
    (paragraphs data).

(** A recognition of two words, the second made of a blank and a
    digit. *)
Definition sampleRecognition : RecognizeData :=
  {| paragraphs :=
       [ {| lines :=
              [ {| words :=
                     [ {| symbols :=
                            Some [ {| text := "3";
                                      bbox := {| x0 := 10; y0 := 20;
                                                 x1 := 40; y1 := 65 |};
                                      confidence := 93 |};
                                   {| text := "+";
                                      bbox := {| x0 := 50; y0 := 30;
                                                 x1 := 75; y1 := 55 |};
                                      confidence := 88 |} ] |};
                       {| symbols := None |};
                       {| symbols :=
                            Some [ {| text := " ";
                                      bbox := {| x0 := 80; y0 := 20;
                                                 x1 := 90; y1 := 65 |};
                                      confidence := 99 |};
                                   {| text := "4";
                                      bbox := {| x0 := 95; y0 := 20;
                                                 x1 := 126; y1 := 65 |};
                                      confidence := 71 |} ] |} ] |} ] |} ] |}.

(** The invariant of the loops: the counter is the number of characters
    pushed, and the character at each position has the id of that
    position. *)
Definition numbered (st : Extracted) : Prop :=
  charIndex st = List.length (characters st)
  /\ forall k b, nth_error (characters st) k = Some b ->
                 char_id b = charIdOf k.

End CharacterExtraction.

(** ** [useHandwritingOCR.ts]: validation of the coordinates returned by the
     error analysis, and their mapping to the page *)

Module Reconcile.

Import Ocr Mapping.

(** What the function writes with [console.warn]. *)
Inductive Warning :=
| UnknownCharId (error_id : string)
| CoordsFixed (error_id : string) (gpt : Box) (ocr : Box).

(** [new Map(entries)]: entries are set in order, a later entry replaces
    the value of an earlier one with the same key. *)
Definition JsMap (V : Type) := list (string * V).

Fixpoint Map_set {V} (m : JsMap V) (k : string) (v : V) : JsMap V :=
  match m with
  | [] => [(k, v)]
  | (k', v') :: m' =>
      if String.eqb k' k then (k', v) :: m' else (k', v') :: Map_set m' k v
  end.

Fixpoint Map_get {V} (m : JsMap V) (k : string) : option V :=
  match m with
  | [] => None
  | (k', v') :: m' => if String.eqb k' k then Some v' else Map_get m' k
  end.

Definition Map_of {V} (entries : list (string * V)) : JsMap V :=
  fold_left (fun m kv => Map_set m (fst kv) (snd kv)) entries [].

Definition charMapOf (ocrCharBoxes : list CharacterBox) : JsMap CharacterBox :=
  Map_of (map (fun c => (char_id c, c)) ocrCharBoxes).

Definition coordsMatch (error : HandwritingError) (ocrChar : CharacterBox)
  : bool :=
  strict_eq (x (bbox error)) (x (char_bbox ocrChar))
  && strict_eq (y (bbox error)) (y (char_bbox ocrChar))
  && strict_eq (w (bbox error)) (w (char_bbox ocrChar))
  && strict_eq (h (bbox error)) (h (char_bbox ocrChar)).

(** The callback of [gptErrors.map], with its warnings. *)
Definition fixError (charMap : JsMap CharacterBox) (error : HandwritingError)
  : HandwritingError * list Warning :=
  match Map_get charMap (id error) with
  | None => (error, [UnknownCharId (id error)])
  | Some ocrChar =>
      if negb (coordsMatch error ocrChar) then
        (with_bbox_center error (char_bbox ocrChar) (char_center ocrChar),
         [CoordsFixed (id error) (bbox error) (char_bbox ocrChar)])
      else (error, [])
  end.

(** The returned array, and the console output. *)
Definition validateAndFixGPTCoordinates (gptErrors : list HandwritingError)
    (ocrCharBoxes : list CharacterBox)
  : list HandwritingError * list Warning :=
  let charMap := charMapOf ocrCharBoxes in
  let rs := map (fixError charMap) gptErrors in
  (map fst rs, List.concat (map snd rs)).

(** The object handed to [mapOcrBoxesToPage] for one error when the image
    data was found:
    [{ id, x: error.bbox.x, ..., char: error.suggestion, ...error }]. *)
Definition errorAsBox (error : HandwritingError) : AnyBox :=
  {| any_id := Some (id error);
     any_x := Some (x (bbox error)); any_y := Some (y (bbox error));
     any_w := Some (w (bbox error)); any_h := Some (h (bbox error));
     any_bbox := Some {| bb_x := Some (x (bbox error));
                         bb_y := Some (y (bbox error));
                         bb_w := Some (w (bbox error));
                         bb_h := Some (h (bbox error)) |} |}.

(** The same object on the path without image data (no [...error]). *)
Definition errorAsPlainBox (error : HandwritingError) : AnyBox :=
  {| any_id := Some (id error);
     any_x := Some (x (bbox error)); any_y := Some (y (bbox error));
     any_w := Some (w (bbox error)); any_h := Some (h (bbox error));
     any_bbox := None |}.

(** A canonical character box as [pixelBoxToPageBox] receives it (the
    entries of [window.ocrResults]): no own [x], the numbers are under
    [bbox]. *)
Definition charAsBox (c : CharacterBox) : AnyBox :=
  {| any_id := Some (char_id c);
     any_x := None; any_y := None; any_w := None; any_h := None;
     any_bbox := Some {| bb_x := Some (x (char_bbox c));
                         bb_y := Some (y (char_bbox c));
                         bb_w := Some (w (char_bbox c));
                         bb_h := Some (h (char_bbox c)) |} |}.

Definition hasNaN (mappedBox : PageBox) : bool :=
  isNaN (pb_x mappedBox) || isNaN (pb_y mappedBox)
  || isNaN (pb_w mappedBox) || isNaN (pb_h mappedBox).

(** [{ ...error, bbox: mappedBox, center: midpoint of mappedBox }] *)
Definition withMappedBox (error : HandwritingError) (mappedBox : PageBox)
  : HandwritingError :=
  with_bbox_center error
    {| x := pb_x mappedBox; y := pb_y mappedBox;
       w := pb_w mappedBox; h := pb_h mappedBox |}
    {| px := pb_x mappedBox + pb_w mappedBox / 2;
       py := pb_y mappedBox + pb_h mappedBox / 2 |}.

(** The body of [convertedErrors] in [processSelectedShapes] once the image
    data is there: every error is mapped with [mapOcrBoxesToPage], and an
    error whose mapped box holds a [NaN] is returned as it is. *)
Definition convertErrors (results : list HandwritingError)
    (imageData : DomImageData) : list HandwritingError :=
  let mappedPageBoxes := mapOcrBoxesToPage (map errorAsBox results) imageData in
  map (fun em : HandwritingError * PageBox =>
         let (error, mappedBox) := em in
         if hasNaN mappedBox then error else withMappedBox error mappedBox)
      (combine results mappedPageBoxes).

(** The path taken when no image element is found: the image data is
    built from the selection and the OCR metadata, and nothing is checked. *)
Definition convertErrorsStandard (results : list HandwritingError)
    (standardImageData : DomImageData) : list HandwritingError :=
  let mappedPageBoxes :=
    mapOcrBoxesToPage (map errorAsPlainBox results) standardImageData in
  map (fun em : HandwritingError * PageBox =>
         let (error, mappedBox) := em in withMappedBox error mappedBox)
      (combine results mappedPageBoxes).

(** Reconciliation as [processSelectedShapes] runs it: the errors are
    validated against the OCR boxes, then mapped to the page. *)
Definition reconcile (gptErrors : list HandwritingError)
    (ocrCharBoxes : list CharacterBox) (imageData : DomImageData)
  : list HandwritingError :=
  convertErrors (fst (validateAndFixGPTCoordinates gptErrors ocrCharBoxes))
                imageData.

(** The canonical box of an id: the last character box that carries it
    (ids of one recognition are distinct, so it is the one that does). *)
Definition canonical (ocrCharBoxes : list CharacterBox) (k : string)
  : option CharacterBox :=
  find (fun c => String.eqb (char_id c) k) (rev ocrCharBoxes).

(** The non-geometric part of an annotation is kept. *)
Definition sameAnnotation (a b : HandwritingError) : Prop :=
  id a = id b /\ errorType a = errorType b /\ suggestion a = suggestion b
  /\ explanation a = explanation b /\ action a = action b.

(** One recognised character, an annotation that refers to it with
    coordinates of its own, and one that refers to no character. *)
Definition knownChar : CharacterBox :=
  {| char_id := "c001"; char := "7";
     char_bbox := {| x := 90; y := 45; w := 30; h := 45 |};
     char_center := {| px := 105; py := 68 |};
     char_confidence := 0.9 |}.

Definition driftedError : HandwritingError :=
  {| id := "c001";
     bbox := {| x := 412; y := 7; w := 33; h := 45 |};
     center := {| px := 0; py := 0 |};
     errorType := "math"; suggestion := "9"; explanation := "3 + 6";
     action := "circle" |}.

Definition strayError : HandwritingError :=
  {| id := "c404";
     bbox := {| x := 5; y := 6; w := 7; h := 8 |};
     center := {| px := 8; py := 10 |};
     errorType := "notation"; suggestion := "x"; explanation := "symbol";
     action := "underline" |}.

(** A warning for an id that no character box carries. *)
Definition isUnknownCharId (warning : Warning) : bool :=
  match warning with
  | UnknownCharId _ => true
  | CoordsFixed _ _ _ => false
  end.

(** The four numbers of a box are numbers ([NaN] is not). *)
Definition noNaN (b : Box) : bool :=
  negb (isNaN (x b) || isNaN (y b) || isNaN (w b) || isNaN (h b)).

End Reconcile.

(** ** [smartPositioning.ts]: placement of the suggestion cards *)

Module SmartPositioning.

Import Ocr.

(** A call either returns or throws a [TypeError] (a property read on
    [undefined]); [None] is the throw. *)
Definition throws (A : Type) := option A.

Definition bind {A B} (m : throws A) (k : A -> throws B) : throws B :=
  match m with
  | Some a => k a
  | None => None
  end.

Notation "x <- m ;; k" := (bind m (fun x => k))
  (at level 61, m at next level, right associativity).

Fixpoint mapM {A B} (f : A -> throws B) (l : list A) : throws (list B) :=
  match l with
  | [] => Some []
  | a :: l' => b <- f a ;; bs <- mapM f l' ;; Some (b :: bs)
  end.

Record PositionCandidate := mkPositionCandidate {
  cand_x : number;
  cand_y : number;
  score : number;
  direction : string;
  avoided_shapes : number;
  distance_to_error : number
}.

(** [interface SpatialGrid]; [width] and [height] count the cells
    ([GRID_SIZE]), so they are natural numbers here. *)
Record SpatialGrid := mkSpatialGrid {
  width : nat;
  height : nat;
  cellSize : number;
  density : list (list number);
  occupied : list (list bool)
}.

Record Size := mkSize {
  sz_width : number;
  sz_height : number
}.

Record SuggestionPlacement := mkSuggestionPlacement {
  sp_x : number;
  sp_y : number;
  sp_width : number;
  sp_height : number;
  leadLineStart : Point;
  leadLineEnd : Point;
  animationDelay : number
}.

(** The values of [i] visited by [for (i = lo; i <= hi; i++)] when [lo]
    is [Math.max(0, Math.floor(..))] and [hi] is [Math.min(n - 1, ..)]:
    the integers of [0 .. n-1] between the two bounds, in increasing
    order (none when a bound is [NaN]). *)
Definition visited (lo hi : number) (n : nat) : list nat :=
  filter (fun i => (lo <=? JsMath.of_nat i) && (JsMath.of_nat i <=? hi))
         (seq 0 n).

(** [grid.density[row][col]]: a missing row throws, a missing cell is
    [undefined]. *)
Definition densityAt (grid : SpatialGrid) (row col : nat)
  : throws (option number) :=
  match nth_error (density grid) row with
  | Some r => Some (nth_error r col)
  | None => None
  end.

Definition calculateDensityPenalty (position : Point) (cardSize : Size)
    (viewportBounds : Box) (grid : SpatialGrid) : throws number :=
  let cellWidth := w viewportBounds / JsMath.of_nat (width grid) in
  let cellHeight := h viewportBounds / JsMath.of_nat (height grid) in
  let startCol := JsMath.floor ((px position - x viewportBounds) / cellWidth) in
  let endCol :=
    JsMath.floor ((px position + sz_width cardSize - x viewportBounds)
                  / cellWidth) in
  let startRow := JsMath.floor ((py position - y viewportBounds) / cellHeight) in
  let endRow :=
    JsMath.floor ((py position + sz_height cardSize - y viewportBounds)
                  / cellHeight) in
  let rows :=
    visited (JsMath.max 0 startRow)
            (JsMath.min (JsMath.of_nat (height grid) - 1) endRow)
            (height grid) in
  let cols :=
    visited (JsMath.max 0 startCol)
            (JsMath.min (JsMath.of_nat (width grid) - 1) endCol)
            (width grid) in
  let cells := list_prod rows cols in
  ds <- mapM (fun rc => densityAt grid (fst rc) (snd rc)) cells ;;
  let totalDensity := fold_left (fun acc d => acc + ToNumber d) ds 0 in
  let cellCount := JsMath.of_nat (List.length ds) in
  Some (if gtb cellCount 0 then (totalDensity / cellCount) * 25 else 0).

Definition calculateBoundaryBonus (position : Point) (cardSize : Size)
    (viewportBounds : Box) : number :=
  let minDistanceToEdge :=
    JsMath.min4
      (px position - x viewportBounds)
      (py position - y viewportBounds)
      (x viewportBounds + w viewportBounds
       - (px position + sz_width cardSize))
      (y viewportBounds + h viewportBounds
       - (py position + sz_height cardSize)) in
  if geb minDistanceToEdge 40 && (minDistanceToEdge <=? 80) then 1.0
  else if geb minDistanceToEdge 20 && (minDistanceToEdge <=? 120) then 0.5
  else 0.0.

Definition calculateDistanceBonus (position errorPosition : Point) : number :=
  let distance :=
    JsMath.sqrt (JsMath.pow2 (px position - px errorPosition)
                 + JsMath.pow2 (py position - py errorPosition)) in
  if geb distance 100 && (distance <=? 150) then 1.0
  else if geb distance 80 && (distance <=? 200) then 0.6
  else if geb distance 60 && (distance <=? 250) then 0.3
  else 0.0.

Definition calculateDirectionBonus (position errorPosition : Point) : number :=
  let dx := px position - px errorPosition in
  let dy := py position - py errorPosition in
  if gtb dx 0 && (dy <? 0) then 1.0
  else if gtb dx 0 && gtb dy 0 then 0.8
  else if gtb dx 0 && (JsMath.abs dy <? 20) then 0.6
  else if (dx <? 0) && (dy <? 0) then 0.4
  else 0.2.

Definition calculatePositionScore (position : Point) (cardSize : Size)
    (errorPosition : Point) (viewportBounds : Box) (grid : SpatialGrid)
  : throws number :=
  let score := 100 in
  densityPenalty <-
    calculateDensityPenalty position cardSize viewportBounds grid ;;
  let score := score - densityPenalty * 40 in
  let boundaryBonus := calculateBoundaryBonus position cardSize viewportBounds in
  let score := score + boundaryBonus * 20 in
  let distanceBonus := calculateDistanceBonus position errorPosition in
  let score := score + distanceBonus * 25 in
  let directionBonus := calculateDirectionBonus position errorPosition in
  let score := score + directionBonus * 15 in
  Some (JsMath.max 0 score).

Definition DISTANCE_OPTIONS : list number := [80; 120; 160; 200].

Record Direction := mkDirection {
  name : string;
  dx : number;
  dy : number
}.

Definition directions : list Direction :=
  [ mkDirection "N" 0 (-1);
    mkDirection "NE" 1 (-1);
    mkDirection "E" 1 0;
    mkDirection "SE" 1 1;
    mkDirection "S" 0 1;
    mkDirection "SW" (-1) 1;
    mkDirection "W" (-1) 0;
    mkDirection "NW" (-1) (-1) ]%string.

(** [array.sort(compare)]: a stable sort; [a] moves behind [b] only when
    [compare(a, b) > 0].  This is the order of the engine when [compare]
    is consistent, as [b.score - a.score] is on scores that are numbers;
    with a [NaN] among the scores the order of the engine depends on its
    algorithm, and the result here is one of the orders it may give. *)
Fixpoint insertSorted {A} (compare : A -> A -> number) (a : A) (l : list A)
  : list A :=
  match l with
  | [] => [a]
  | b :: l' =>
      if gtb (compare a b) 0 then b :: insertSorted compare a l'
      else a :: l
  end.

Definition sort {A} (compare : A -> A -> number) (l : list A) : list A :=
  fold_right (insertSorted compare) [] l.

(** The body of the inner [forEach]: one direction and one distance give
    a candidate when the card lies inside the viewport. *)
Definition candidateAt (errorPosition : Point) (cardSize : Size)
    (viewportBounds : Box) (grid : SpatialGrid)
    (dir : Direction) (distance : number)
  : throws (list PositionCandidate) :=
  let candidateX := px errorPosition + dx dir * distance in
  let candidateY := py errorPosition + dy dir * distance in
  if geb candidateX (x viewportBounds)
     && (candidateX + sz_width cardSize
         <=? x viewportBounds + w viewportBounds)
     && geb candidateY (y viewportBounds)
     && (candidateY + sz_height cardSize
         <=? y viewportBounds + h viewportBounds)
  then
    score <- calculatePositionScore (mkPoint candidateX candidateY) cardSize
               errorPosition viewportBounds grid ;;
    Some [ {| cand_x := candidateX; cand_y := candidateY; score := score;
              direction := name dir; avoided_shapes := 0;
              distance_to_error := distance |} ]
  else Some [].

Definition generatePositionCandidates (errorPosition : Point)
    (cardSize : Size) (viewportBounds : Box) (grid : SpatialGrid)
  : throws (list PositionCandidate) :=
  cs <- mapM (fun dd : Direction * number =>
                candidateAt errorPosition cardSize viewportBounds grid
                  (fst dd) (snd dd))
             (list_prod directions DISTANCE_OPTIONS) ;;
  Some (sort (fun a b => score b - score a) (List.concat cs)).

(** The test of the filter: the card at [candidate] meets the rectangle
    [used]. *)
Definition overlaps (cx cy : number) (cardSize : Size) (used : Box) : bool :=
  negb (geb cx (x used + w used)
        || (cx + sz_width cardSize <=? x used)
        || geb cy (y used + h used)
        || (cy + sz_height cardSize <=? y used)).

Definition isFree (cardSize : Size) (usedPositions : list Box)
    (candidate : PositionCandidate) : bool :=
  negb (existsb (overlaps (cand_x candidate) (cand_y candidate) cardSize)
                usedPositions).

(** The rectangle recorded in [usedPositions] for a card placed at
    [(bx, by)]: the card with a buffer of 20 on every side. *)
Definition buffered (bx by_ : number) (cardSize : Size) : Box :=
  {| x := bx - 20; y := by_ - 20;
     w := sz_width cardSize + 40; h := sz_height cardSize + 40 |}.

Definition placementAt (bx by_ : number) (cardSize : Size)
    (errorCenter : Point) (index : nat) : SuggestionPlacement :=
  {| sp_x := bx; sp_y := by_;
     sp_width := sz_width cardSize; sp_height := sz_height cardSize;
     leadLineStart := errorCenter;
     leadLineEnd := {| px := bx + sz_width cardSize / 2;
                       py := by_ + sz_height cardSize / 2 |};
     animationDelay := JsMath.of_nat index * 800 |}.

Definition errorCenterOf (error : HandwritingError) : Point :=
  {| px := x (bbox error) + w (bbox error) / 2;
     py := y (bbox error) + h (bbox error) / 2 |}.

(** The free candidates for one error, best first. *)
Definition freeCandidates (error : HandwritingError) (viewportBounds : Box)
    (grid : SpatialGrid) (cardSize : Size) (usedPositions : list Box)
  : throws (list PositionCandidate) :=
  candidates <-
    generatePositionCandidates (errorCenterOf error) cardSize
      viewportBounds grid ;;
  Some (filter (isFree cardSize usedPositions) candidates).

(** The two arrays the loop of [optimizeMultipleErrorLayout] fills. *)
Record LayoutState := mkLayoutState {
  placements : list SuggestionPlacement;
  usedPositions : list Box
}.

(** The body of [errors.forEach((error, index) => ...)]. *)
Definition placeError (viewportBounds : Box) (grid : SpatialGrid)
    (cardSize : Size) (st : LayoutState) (error : HandwritingError)
    (index : nat) : throws LayoutState :=
  let errorCenter := errorCenterOf error in
  candidates <-
    freeCandidates error viewportBounds grid cardSize (usedPositions st) ;;
  match candidates with
  | bestPosition :: _ =>
      Some {| placements :=
                placements st ++
                [placementAt (cand_x bestPosition) (cand_y bestPosition)
                   cardSize errorCenter index];
              usedPositions :=
                usedPositions st ++
                [buffered (cand_x bestPosition) (cand_y bestPosition)
                   cardSize] |}
  | [] =>
      let fallbackX := px errorCenter + 100 in
      let fallbackY := py errorCenter - sz_height cardSize / 2 in
      Some {| placements :=
                placements st ++
                [placementAt fallbackX fallbackY cardSize errorCenter index];
              usedPositions := usedPositions st |}
  end.

Fixpoint forEachError (viewportBounds : Box) (grid : SpatialGrid)
    (cardSize : Size) (errors : list HandwritingError) (index : nat)
    (st : LayoutState) : throws LayoutState :=
  match errors with
  | [] => Some st
  | error :: rest =>
      st' <- placeError viewportBounds grid cardSize st error index ;;
      forEachError viewportBounds grid cardSize rest (S index) st'
  end.

Definition defaultCardSize : Size := {| sz_width := 180; sz_height := 120 |}.

Definition optimizeMultipleErrorLayout (errors : list HandwritingError)
    (viewportBounds : Box) (grid : SpatialGrid) (cardSize : Size)
  : throws (list SuggestionPlacement) :=
  st <- forEachError viewportBounds grid cardSize errors 0
          {| placements := []; usedPositions := [] |} ;;
  Some (placements st).

(** The footprint of a returned placement with the buffer of 20 around
    it. *)
Definition bufferedFootprint (p : SuggestionPlacement) : Box :=
  {| x := sp_x p - 20; y := sp_y p - 20;
     w := sp_width p + 40; h := sp_height p + 40 |}.

(** Two rectangles meet: the test of the filter, between rectangles. *)
Definition rectsIntersect (a b : Box) : bool :=
  negb (geb (x a) (x b + w b)
        || (x a + w a <=? x b)
        || geb (y a) (y b + h b)
        || (y a + h a <=? y b)).

(** An empty grid of [n] by [n] cells. *)
Definition emptyGrid (n : nat) (cell : number) : SpatialGrid :=
  {| width := n; height := n; cellSize := cell;
     density := repeat (repeat 0 n) n;
     occupied := repeat (repeat false n) n |}.

Definition errorAt (i : string) (bx by_ : number) : HandwritingError :=
  {| id := i; bbox := {| x := bx; y := by_; w := 20; h := 20 |};
     center := {| px := bx + 10; py := by_ + 10 |};
     errorType := "math"; suggestion := "7"; explanation := "sum";
     action := "circle" |}%string.

(** The footprint of a returned placement: the card itself. *)
Definition cardFootprint (p : SuggestionPlacement) : Box :=
  {| x := sp_x p; y := sp_y p; w := sp_width p; h := sp_height p |}.

(** For each error of a run of the loop, whether it was placed by the
    fallback (no free candidate was left).  The returned placements do not
    record it; this follows the loop and notes the branch taken. *)
Fixpoint fallbackFlags (viewportBounds : Box) (grid : SpatialGrid)
    (cardSize : Size) (errors : list HandwritingError) (index : nat)
    (st : LayoutState) : throws (list bool) :=
  match errors with
  | [] => Some []
  | error :: rest =>
      candidates <-
        freeCandidates error viewportBounds grid cardSize (usedPositions st) ;;
      st' <- placeError viewportBounds grid cardSize st error index ;;
      flags <- fallbackFlags viewportBounds grid cardSize rest (S index) st' ;;
      Some (match candidates with [] => true | _ :: _ => false end :: flags)
  end.

Definition usedFallback (errors : list HandwritingError)
    (viewportBounds : Box) (grid : SpatialGrid) (cardSize : Size)
  : throws (list bool) :=
  fallbackFlags viewportBounds grid cardSize errors 0
    {| placements := []; usedPositions := [] |}.

(** A viewport of 2000 by 2000 with nothing drawn in it, and two errors
    whose centres are 210 apart on one line. *)
Definition wideViewport : Box := {| x := 0; y := 0; w := 2000; h := 2000 |}.

Definition neighbouringErrors : list HandwritingError :=
  [errorAt "c001" 490 990; errorAt "c002" 700 990].

(** A viewport that holds a card but none of the candidates of an error
    in its middle. *)
Definition tightViewport : Box := {| x := 0; y := 0; w := 200; h := 130 |}.

(** The test of [generatePositionCandidates]: the card at [(cx, cy)] lies
    inside the viewport. *)
Definition cardInside (cx cy : number) (cardSize : Size)
    (viewportBounds : Box) : bool :=
  geb cx (x viewportBounds)
  && (cx + sz_width cardSize <=? x viewportBounds + w viewportBounds)
  && geb cy (y viewportBounds)
  && (cy + sz_height cardSize <=? y viewportBounds + h viewportBounds).

(** A grid is consistent when [density] has a row for each of the
    [height] rows the loops may visit. *)
Definition consistent (grid : SpatialGrid) : Prop :=
  (height grid <= List.length (density grid))%nat.

(** What a returned placement shows of the branch that made it: the card
    sits where the fallback puts one, 100 to the right of the start of
    its lead line and half its height above it. *)
Definition looksLikeFallback (p : SuggestionPlacement) : bool :=
  strict_eq (sp_x p) (px (leadLineStart p) + 100)
  && strict_eq (sp_y p) (py (leadLineStart p) - sp_height p / 2).

(** The position of the fallback for the lead line of [p] is made of
    numbers, and none of the 32 candidate offsets leads to it. *)
Definition distinguishable (p : SuggestionPlacement) : bool :=
  let c := leadLineStart p in
  let fallbackX := px c + 100 in
  let fallbackY := py c - sp_height p / 2 in
  negb (is_nan fallbackX) && negb (is_nan fallbackY)
  && forallb
       (fun dd : Direction * number =>
          negb (strict_eq (px c + dx (fst dd) * snd dd) fallbackX
                && strict_eq (py c + dy (fst dd) * snd dd) fallbackY))
       (list_prod directions DISTANCE_OPTIONS).

(** An error centred at [(2^60, 2^60)], where neighbouring numbers are
    256 apart, with a viewport that holds no candidate and one that
    holds the candidates to the east and the south. *)
Definition farError : HandwritingError :=
  {| id := "c001";
     bbox := {| x := 1152921504606846976; y := 1152921504606846976;
                w := 0; h := 0 |};
     center := {| px := 1152921504606846976; py := 1152921504606846976 |};
     errorType := "math"; suggestion := "7"; explanation := "sum";
     action := "circle" |}%string.

Definition pointViewport : Box := {| x := 0; y := 0; w := 0; h := 0 |}.

Definition farViewport : Box :=
  {| x := 1152921504606846976; y := 1152921504606846976;
     w := 256; h := 0 |}.

End SmartPositioning.

(** ** [smartPositioning.ts]: [createSpatialGrid] *)

Module GridCreation.

Import Ocr SmartPositioning.

(** A shape of the page: [shape.type] and
    [editor.getShapeGeometry(shape).bounds]. *)
Record Shape := mkShape {
  shape_type : string;
  shape_bounds : Box
}.

(** A cell of [occupied]: the array is filled with the number [0], and a
    cell under a shape is set to [true]. *)
Inductive OccupiedCell :=
| Zero
| True_.

(** The object [createSpatialGrid] returns. *)
Record CreatedGrid := mkCreatedGrid {
  cg_width : nat;
  cg_height : nat;
  cg_cellSize : number;
  cg_density : list (list number);
  cg_occupied : list (list OccupiedCell)
}.

Definition GRID_SIZE : nat := 32.

(** The weight of a shape in the density of a cell. *)
Definition weightOf (type : string) : number :=
  if String.eqb type "draw" then 0.8
  else if String.eqb type "text" then 0.9
  else if String.eqb type "geo" then 0.6
  else 1.0.

(** [l[i] = f(l[i])] for an index inside the array. *)
Fixpoint updateAt {A} (f : A -> A) (l : list A) (i : nat) : list A :=
  match l, i with
  | [], _ => []
  | a :: l', O => f a :: l'
  | a :: l', S i' => a :: updateAt f l' i'
  end.

(** The body of the two loops over the cells of a shape:
    [density[row][col] += weight; occupied[row][col] = true]. *)
Definition markCell (weight : number)
    (g : list (list number) * list (list OccupiedCell)) (rc : nat * nat)
  : list (list number) * list (list OccupiedCell) :=
  let (row, col) := rc in
  (updateAt (fun r => updateAt (fun d => d + weight) r col) (fst g) row,
   updateAt (fun r => updateAt (fun _ => True_) r col) (snd g) row).

(** The callback of [shapes.forEach]. *)
Definition addShape (viewportBounds : Box) (cellWidth cellHeight : number)
    (g : list (list number) * list (list OccupiedCell)) (shape : Shape)
  : list (list number) * list (list OccupiedCell) :=
  let bounds := shape_bounds shape in
  let shapeX := x bounds in
  let shapeY := y bounds in
  let shapeW := w bounds in
  let shapeH := h bounds in
  let startCol :=
    JsMath.max 0 (JsMath.floor ((shapeX - x viewportBounds) / cellWidth)) in
  let endCol :=
    JsMath.min (JsMath.of_nat GRID_SIZE - 1)
      (JsMath.floor ((shapeX + shapeW - x viewportBounds) / cellWidth)) in
  let startRow :=
    JsMath.max 0 (JsMath.floor ((shapeY - y viewportBounds) / cellHeight)) in
  let endRow :=
    JsMath.min (JsMath.of_nat GRID_SIZE - 1)
      (JsMath.floor ((shapeY + shapeH - y viewportBounds) / cellHeight)) in
  let rows := visited startRow endRow GRID_SIZE in
  let cols := visited startCol endCol GRID_SIZE in
  fold_left (markCell (weightOf (shape_type shape))) (list_prod rows cols) g.

(** [createSpatialGrid(editor, viewportBounds)]; [shapes] is
    [editor.getCurrentPageShapes()]. *)
Definition createSpatialGrid (shapes : list Shape) (viewportBounds : Box)
  : CreatedGrid :=
  let cellWidth := w viewportBounds / JsMath.of_nat GRID_SIZE in
  let cellHeight := h viewportBounds / JsMath.of_nat GRID_SIZE in
  let density := repeat (repeat 0 GRID_SIZE) GRID_SIZE in
  let occupied := repeat (repeat Zero GRID_SIZE) GRID_SIZE in
  let g :=
    fold_left (addShape viewportBounds cellWidth cellHeight) shapes
      (density, occupied) in
  {| cg_width := GRID_SIZE;
     cg_height := GRID_SIZE;
     cg_cellSize := JsMath.min cellWidth cellHeight;
     cg_density := fst g;
     cg_occupied := snd g |}.

(** The grid as the [SpatialGrid] the other functions receive; a cell of
    [occupied] that still holds [0] reads as [false]. *)
Definition asSpatialGrid (g : CreatedGrid) : SpatialGrid :=
  {| width := cg_width g;
     height := cg_height g;
     cellSize := cg_cellSize g;
     density := cg_density g;
     occupied :=
       map (map (fun c => match c with True_ => true | Zero => false end))
           (cg_occupied g) |}.

(** A page with a stroke and a text. *)
Definition sampleShapes : list Shape :=
  [ {| shape_type := "draw";
       shape_bounds := {| x := 100; y := 100; w := 300; h := 80 |} |};
    {| shape_type := "text";
       shape_bounds := {| x := 900; y := 1200; w := 200; h := 40 |} |} ].

(** A grid of [n] rows of [n] cells. *)
Definition square {A} (n : nat) (rows : list (list A)) : Prop :=
  List.length rows = n /\ Forall (fun r => List.length r = n) rows.

End GridCreation.

(** ** [useHandwritingOCR.ts]: the two-phase session *)

Module Session.

Import Ocr Mapping.

Definition ShapeId := string.

(** An [HTMLCanvasElement]: which raster it is, and its size. *)
Record Canvas := mkCanvas {
  raster : nat;
  canvas_width : number;
  canvas_height : number
}.

Record Blob := mkBlob { blob_raster : nat }.

Record Metadata := mkMetadata {
  imageWidth : number;
  imageHeight : number;
  detectedInternalScaleFactor : option number
}.

(** [interface OCRResult] (without the time stamps and the two encoded
    images). *)
Record OCRResult := mkOCRResult {
  imageId : string;
  fullText : string;
  charBoxes : list CharacterBox;
  metadata : Metadata
}.

Record ErrorAnalysisResult := mkErrorAnalysisResult {
  originalContent : string;
  hasErrors : bool;
  results : list HandwritingError
}.

Record ErrorAnalysisResponse := mkErrorAnalysisResponse {
  ea_success : bool;
  ea_result : option ErrorAnalysisResult
}.

Record InitializationData := mkInitializationData {
  selectionBounds : option Box;
  shapeIds : list ShapeId;
  imageCanvas : option Canvas
}.

(** [interface OCRState] *)
Record OCRState := mkOCRState {
  isProcessing : bool;
  progress : Z;
  currentStep : string;
  lastResult : option OCRResult;
  lastSelectionBounds : option Box;
  lastErrorAnalysis : option ErrorAnalysisResponse;
  errorMarkShapeIds : list ShapeId;
  suggestionPlacements : list SmartPositioning.SuggestionPlacement;
  spatialGrid : option SmartPositioning.SpatialGrid;
  suggestionsVisible : bool;
  isInitialized : bool;
  initializationData : option InitializationData;
  error : option string
}.

(** The state [useState] starts with, and [resetOCRState] restores. *)
Definition initialState : OCRState :=
  {| isProcessing := false; progress := 0; currentStep := "";
     lastResult := None; lastSelectionBounds := None;
     lastErrorAnalysis := None; errorMarkShapeIds := [];
     suggestionPlacements := []; spatialGrid := None;
     suggestionsVisible := false;
     isInitialized := false; initializationData := None;
     error := None |}.

(** The [Partial<OCRState>] objects passed to [updateOCRState], one
    setter per property. *)
Definition set_isProcessing (v : bool) (s : OCRState) : OCRState :=
  mkOCRState v (progress s) (currentStep s) (lastResult s)
    (lastSelectionBounds s) (lastErrorAnalysis s) (errorMarkShapeIds s)
    (suggestionPlacements s) (spatialGrid s) (suggestionsVisible s)
    (isInitialized s) (initializationData s) (error s).

Definition set_step (p : Z) (step : string) (s : OCRState) : OCRState :=
  mkOCRState (isProcessing s) p step (lastResult s)
    (lastSelectionBounds s) (lastErrorAnalysis s) (errorMarkShapeIds s)
    (suggestionPlacements s) (spatialGrid s) (suggestionsVisible s)
    (isInitialized s) (initializationData s) (error s).

Definition set_error (v : option string) (s : OCRState) : OCRState :=
  mkOCRState (isProcessing s) (progress s) (currentStep s) (lastResult s)
    (lastSelectionBounds s) (lastErrorAnalysis s) (errorMarkShapeIds s)
    (suggestionPlacements s) (spatialGrid s) (suggestionsVisible s)
    (isInitialized s) (initializationData s) v.

Definition set_initialized (v : bool) (d : option InitializationData)
    (s : OCRState) : OCRState :=
  mkOCRState (isProcessing s) (progress s) (currentStep s) (lastResult s)
    (lastSelectionBounds s) (lastErrorAnalysis s) (errorMarkShapeIds s)
    (suggestionPlacements s) (spatialGrid s) (suggestionsVisible s)
    v d (error s).

Definition set_suggestions
    (ps : list SmartPositioning.SuggestionPlacement)
    (g : option SmartPositioning.SpatialGrid) (visible : bool)
    (s : OCRState) : OCRState :=
  mkOCRState (isProcessing s) (progress s) (currentStep s) (lastResult s)
    (lastSelectionBounds s) (lastErrorAnalysis s) (errorMarkShapeIds s)
    ps g visible
    (isInitialized s) (initializationData s) (error s).

Definition set_lastErrorAnalysis (v : option ErrorAnalysisResponse)
    (s : OCRState) : OCRState :=
  mkOCRState (isProcessing s) (progress s) (currentStep s) (lastResult s)
    (lastSelectionBounds s) v (errorMarkShapeIds s)
    (suggestionPlacements s) (spatialGrid s) (suggestionsVisible s)
    (isInitialized s) (initializationData s) (error s).

Definition set_errorMarkShapeIds (v : list ShapeId) (s : OCRState)
  : OCRState :=
  mkOCRState (isProcessing s) (progress s) (currentStep s) (lastResult s)
    (lastSelectionBounds s) (lastErrorAnalysis s) v
    (suggestionPlacements s) (spatialGrid s) (suggestionsVisible s)
    (isInitialized s) (initializationData s) (error s).

Definition set_lastResult (r : option OCRResult) (b : option Box)
    (s : OCRState) : OCRState :=
  mkOCRState (isProcessing s) (progress s) (currentStep s) r b
    (lastErrorAnalysis s) (errorMarkShapeIds s)
    (suggestionPlacements s) (spatialGrid s) (suggestionsVisible s)
    (isInitialized s) (initializationData s) (error s).

(** The messages of the errors the hook throws and reports. *)
Inductive Message :=
| NoSelection            (* no shape is selected *)
| NoSelectionBounds      (* the selection has no page bounds *)
| NoCanvasImage          (* toImage gave no blob *)
| ImageLoadFailed        (* the proxy image fired onerror *)
| IncompleteInitData     (* initializationData lacks canvas or bounds *)
| InitFailedDefault      (* initialize: the thrown value is not an Error *)
| UnknownErrorDefault    (* recognize: the thrown value is not an Error *)
| InitSucceeded          (* the message of a successful initialization *)
| Other (text : string). (* the message of an Error of a collaborator *)

(** A call of a collaborator returns or throws; a thrown value is an
    [Error] with a message, or something else. *)
Inductive Outcome (A : Type) :=
| Returns (a : A)
| Throws (message : option Message).
Arguments Returns {A} a.
Arguments Throws {A} message.

(** [interface UseHandwritingOCROptions]; [None] is [undefined]. *)
Record Options := mkOptions {
  autoSave : option bool;
  autoSaveToDataDirectory : option bool;
  enableErrorAnalysis : option bool;
  autoMarkErrors : option bool;
  enableSmartSuggestions : option bool;
  autoShowSuggestions : option bool;
  enableTTS : option bool
}.

(** [options.f !== false] *)
Definition notFalse (o : option bool) : bool :=
  match o with Some false => false | _ => true end.

(** [options.f] as a condition *)
Definition isTrue (o : option bool) : bool :=
  match o with Some true => true | _ => false end.

(** The collaborators: the canvas editor, the DOM, the OCR engine, the
    error analysis and the storage, each by what it answers. *)
Record World := mkWorld {
  getSelectedShapeIds : list ShapeId;
  getSelectionPageBounds : option Box;
  toImage : list ShapeId -> Outcome (option Blob);
  blobToCanvas : Blob -> Outcome Canvas;
  proxyImageLoads : Blob -> bool;
  preprocessImage : Canvas -> Outcome Canvas;
  processImageOCR : Canvas -> Canvas -> Outcome OCRResult;
  saveOCRResultToDataDirectory : OCRResult -> Outcome unit;
  analyzeHandwritingErrors :
    OCRResult -> Canvas -> Outcome ErrorAnalysisResponse;
  getImageData : option DomImageData;
  markErrorsWithAnimation : list HandwritingError -> list ShapeId
}.

(** What a run does to its collaborators. *)
Inductive Event :=
| Rasterize (ids : list ShapeId)                 (* editor.toImage *)
| LoadProxyImage (b : Blob)                      (* img.src = ... *)
| PlaceProxyImage (bounds : Box)                 (* img.style.left ... *)
| Recognize (original preprocessed : Canvas)     (* processImageOCR *)
| SaveLocal (r : OCRResult)
| SaveData (r : OCRResult)
| Analyze (r : OCRResult) (original : Canvas)
| MarkErrors (errors : list HandwritingError)
| ScheduleSuggestions
| ScheduleSpeech
| Toast (toast_id : string).

(** A run of an asynchronous function of the hook from a state: what it
    settles with, the state it leaves and what it did. *)
Record Run (A : Type) := mkRun {
  outcome : Outcome A;
  final : OCRState;
  trace : list Event
}.
Arguments mkRun {A} outcome final trace.
Arguments outcome {A} r.
Arguments final {A} r.
Arguments trace {A} r.

Definition M (A : Type) := OCRState -> Run A.

Definition ret {A} (a : A) : M A := fun s => mkRun (Returns a) s [].

Definition throw {A} (m : Message) : M A :=
  fun s => mkRun (Throws (Some m)) s [].

Definition bind {A B} (m : M A) (k : A -> M B) : M B :=
  fun s =>
    let r := m s in
    match outcome r with
    | Returns a =>
        let r' := k a (final r) in
        mkRun (outcome r') (final r') (trace r ++ trace r')
    | Throws e => mkRun (Throws e) (final r) (trace r)
    end.

Notation "x <- m ;; k" := (bind m (fun x => k))
  (at level 61, m at next level, right associativity).
Notation "m ;;; k" := (bind m (fun _ => k))
  (at level 61, right associativity).

(** [try { body } catch (error) { handler }] *)
Definition tryCatch {A} (body : M A) (handler : option Message -> M A)
  : M A :=
  fun s =>
    let r := body s in
    match outcome r with
    | Returns a => r
    | Throws e =>
        let r' := handler e (final r) in
        mkRun (outcome r') (final r') (trace r ++ trace r')
    end.

(** [updateOCRState(updates)] *)
Definition updateOCRState (f : OCRState -> OCRState) : M unit :=
  fun s => mkRun (Returns tt) (f s) [].

Definition emit (e : Event) : M unit := fun s => mkRun (Returns tt) s [e].

(** [await collaborator(...)] *)
Definition await {A} (o : Outcome A) : M A :=
  fun s => mkRun o s [].

(** [error instanceof Error ? error.message : fallback] *)
Definition messageOf (e : option Message) (fallback : Message) : Message :=
  match e with Some m => m | None => fallback end.

Definition text_of (m : Message) : string :=
  match m with
  | NoSelection => "no-selection"
  | NoSelectionBounds => "no-selection-bounds"
  | NoCanvasImage => "no-canvas-image"
  | ImageLoadFailed => "image-load-failed"
  | IncompleteInitData => "incomplete-initialization-data"
  | InitFailedDefault => "initialization-failed"
  | UnknownErrorDefault => "unknown-error"
  | InitSucceeded => "initialized"
  | Other t => t
  end.

(** *** First phase: [initializeOCR] *)

Record InitResult := mkInitResult {
  init_success : bool;
  init_message : Message
}.

Definition initializeOCR (env : World) : M InitResult :=
  tryCatch
    (updateOCRState
       (fun s => set_suggestions [] None false
                   (set_error None
                      (set_step 0 "Initializing OCR environment..."
                         (set_isProcessing true s)))) ;;;
     let shapeIds := getSelectedShapeIds env in
     if Nat.eqb (List.length shapeIds) 0 then throw NoSelection
     else
       match getSelectionPageBounds env with
       | None => throw NoSelectionBounds
       | Some selectionBounds =>
           updateOCRState (set_step 30 "Capturing image data...") ;;;
           emit (Rasterize shapeIds) ;;;
           blob <- await (toImage env shapeIds) ;;
           match blob with
           | None => throw NoCanvasImage
           | Some blob =>
               updateOCRState (set_step 60 "Converting to canvas...") ;;;
               imageCanvas <- await (blobToCanvas env blob) ;;
               updateOCRState (set_step 90 "Setting up image elements...") ;;;
               emit (LoadProxyImage blob) ;;;
               (if proxyImageLoads env blob then ret tt
                else throw ImageLoadFailed) ;;;
               emit (PlaceProxyImage selectionBounds) ;;;
               updateOCRState
                 (fun s =>
                    set_isProcessing false
                      (set_initialized true
                         (Some {| selectionBounds := Some selectionBounds;
                                  shapeIds := shapeIds;
                                  imageCanvas := Some imageCanvas |})
                         (set_step 100 "Initialization completed" s))) ;;;
               emit (Toast "ocr-initialized") ;;;
               ret {| init_success := true; init_message := InitSucceeded |}
           end
       end)
    (fun e =>
       let errorMessage := messageOf e InitFailedDefault in
       updateOCRState
         (fun s =>
            set_initialized false None
              (set_error (Some (text_of errorMessage))
                 (set_isProcessing false s))) ;;;
       ret {| init_success := false; init_message := errorMessage |}).

(** *** Second phase *)

(** [validateOCRResult(ocrResult).isValid] of [tesseractOCR.ts] *)
Definition validateOCRResult_isValid (r : OCRResult) : bool :=
  let noText := String.eqb (fullText r) "" in
  let noBoxes := Nat.eqb (List.length (charBoxes r)) 0 in
  let avgConfidence :=
    fold_left (fun sum c => sum + char_confidence c) (charBoxes r) 0
    / JsMath.of_nat (List.length (charBoxes r)) in
  let hasLowConfidenceChars :=
    existsb (fun c => char_confidence c <? 0.3) (charBoxes r) in
  negb (noText || noBoxes || (avgConfidence <? 0.5) || hasLowConfidenceChars).

(** [ocrResult.metadata.imageWidth = width] and the same for the height. *)
Definition withImageSize (r : OCRResult) (width height : number)
  : OCRResult :=
  {| imageId := imageId r; fullText := fullText r;
     charBoxes := charBoxes r;
     metadata :=
       {| imageWidth := width; imageHeight := height;
          detectedInternalScaleFactor :=
            detectedInternalScaleFactor (metadata r) |} |}.

(** [errorAnalysisResult.result.results = fixedErrors] *)
Definition withResults (a : ErrorAnalysisResult)
    (fixedErrors : list HandwritingError) : ErrorAnalysisResult :=
  {| originalContent := originalContent a; hasErrors := hasErrors a;
     results := fixedErrors |}.

(** The image data built from the selection and the OCR metadata when no
    image element is found. *)
Definition standardImageData (selectionBounds : Box) (r : OCRResult)
  : DomImageData :=
  {| rect := {| rect_x := x selectionBounds; rect_y := y selectionBounds;
                rect_width := w selectionBounds;
                rect_height := h selectionBounds |};
     naturalWidth := imageWidth (metadata r);
     naturalHeight := imageHeight (metadata r) |}.

(** The errors in page coordinates, as they are drawn. *)
Definition convertedErrors (env : World) (selectionBounds : Box)
    (ocrResult : OCRResult) (results : list HandwritingError)
  : list HandwritingError :=
  match getImageData env with
  | Some imageData => Reconcile.convertErrors results imageData
  | None =>
      Reconcile.convertErrorsStandard results
        (standardImageData selectionBounds ocrResult)
  end.

(** [generateSmartSuggestionLayout]: the cards are stacked to the right of
    the selection. *)
Fixpoint simplePlacements (errors : list HandwritingError)
    (selectionBounds : Box) (index : nat)
  : list SmartPositioning.SuggestionPlacement :=
  match errors with
  | [] => []
  | error :: rest =>
      let cardX := x selectionBounds + w selectionBounds + 20 in
      let cardY := y selectionBounds + JsMath.of_nat index * 130 in
      {| SmartPositioning.sp_x := cardX;
         SmartPositioning.sp_y := cardY;
         SmartPositioning.sp_width := 180;
         SmartPositioning.sp_height := 120;
         SmartPositioning.leadLineStart :=
           {| px := px (center error); py := py (center error) |};
         SmartPositioning.leadLineEnd :=
           {| px := cardX; py := cardY + 120 / 2 |};
         SmartPositioning.animationDelay := JsMath.of_nat index * 300 |}
      :: simplePlacements rest selectionBounds (S index)
  end.

(** The error analysis step: it has its own [try]/[catch], so it always
    completes; it gives [errorAnalysisResult] and [errorMarkShapeIds]. *)
Definition analysisStep (env : World) (options : Options)
    (ocrState : OCRState) (ocrResult : OCRResult) (originalCanvas : Canvas)
    (selectionBounds : Box)
  : M (option ErrorAnalysisResponse * list ShapeId) :=
  if notFalse (enableErrorAnalysis options) then
    updateOCRState (set_step 92 "Analyzing handwriting errors...") ;;;
    emit (Analyze ocrResult originalCanvas) ;;;
    match analyzeHandwritingErrors env ocrResult originalCanvas with
    | Throws _ =>
        emit (Toast "error-analysis-failed") ;;; ret (None, [])
    | Returns response =>
        match ea_success response, ea_result response with
        | true, Some result =>
            let result :=
              if hasErrors result then
                withResults result
                  (fst (Reconcile.validateAndFixGPTCoordinates
                          (results result) (charBoxes ocrResult)))
              else result in
            let response :=
              {| ea_success := ea_success response;
                 ea_result := Some result |} in
            let confirmed :=
              {| ea_success := true; ea_result := Some result |} in
            if hasErrors result then
              if isTrue (autoMarkErrors options)
                 && negb (Nat.eqb (List.length (results result)) 0)
              then
                let converted :=
                  convertedErrors env selectionBounds ocrResult
                    (results result) in
                let errorMarkShapeIds :=
                  markErrorsWithAnimation env converted in
                emit (MarkErrors converted) ;;;
                updateOCRState
                  (fun s =>
                     set_errorMarkShapeIds
                       (Session.errorMarkShapeIds ocrState
                        ++ errorMarkShapeIds)
                       (set_lastErrorAnalysis (Some confirmed) s)) ;;;
                ret (Some response, errorMarkShapeIds)
              else
                updateOCRState (set_lastErrorAnalysis (Some confirmed)) ;;;
                ret (Some response, [])
            else
              emit (Toast "no-errors-found") ;;; ret (Some response, [])
        | _, _ => ret (Some response, [])
        end
    end
  else ret (None, []).

(** [errorAnalysisResult?.result?.hasErrors] *)
Definition analysisHasErrors (a : option ErrorAnalysisResponse) : bool :=
  match a with
  | Some response =>
      match ea_result response with
      | Some result => hasErrors result
      | None => false
      end
  | None => false
  end.

Definition analysisResults (a : option ErrorAnalysisResponse)
  : list HandwritingError :=
  match a with
  | Some response =>
      match ea_result response with
      | Some result => results result
      | None => []
      end
  | None => []
  end.

(** [interface OCRProcessingResult], without the elapsed time. *)
Record OCRProcessingResult := mkOCRProcessingResult {
  success : bool;
  result : option OCRResult;
  result_error : option Message
}.

(** The second phase of [processSelectedShapes], entered with the
    initialization data of the state the callback was created with. *)
Definition recognize (env : World) (options : Options) (ocrState : OCRState)
    (data : InitializationData) : M OCRProcessingResult :=
  tryCatch
    (updateOCRState
       (fun s => set_suggestions [] None false
                   (set_error None
                      (set_step 0 "Starting OCR recognition..."
                         (set_isProcessing true s)))) ;;;
     match imageCanvas data, selectionBounds data with
     | Some initImageCanvas, Some initSelectionBounds =>
         updateOCRState (set_step 20 "Using initialized image data...") ;;;
         let originalCanvas := initImageCanvas in
         let width := canvas_width originalCanvas in
         let height := canvas_height originalCanvas in
         let selectionBounds := initSelectionBounds in
         updateOCRState (set_step 30 "Preprocessing image...") ;;;
         preprocessedCanvas <- await (preprocessImage env originalCanvas) ;;
         updateOCRState (set_step 50 "Performing OCR recognition...") ;;;
         emit (Recognize originalCanvas preprocessedCanvas) ;;;
         ocrResult <-
           await (processImageOCR env originalCanvas preprocessedCanvas) ;;
         let ocrResult := withImageSize ocrResult width height in
         updateOCRState (set_step 80 "Validating recognition results...") ;;;
         (if validateOCRResult_isValid ocrResult then ret tt
          else emit (Toast "ocr-quality-warning")) ;;;
         updateOCRState (set_step 90 "Saving results...") ;;;
         (if notFalse (autoSave options) then emit (SaveLocal ocrResult)
          else ret tt) ;;;
         (if notFalse (autoSaveToDataDirectory options) then
            emit (SaveData ocrResult) ;;;
            match saveOCRResultToDataDirectory env ocrResult with
            | Returns _ => emit (Toast "data-save-success")
            | Throws _ => emit (Toast "data-save-error")
            end
          else ret tt) ;;;
         analysis <-
           analysisStep env options ocrState ocrResult originalCanvas
             selectionBounds ;;
         let errorAnalysisResult := fst analysis in
         let errorMarkShapeIds := snd analysis in
         let suggest :=
           notFalse (enableSmartSuggestions options)
           && analysisHasErrors errorAnalysisResult in
         (if suggest then
            updateOCRState (set_step 98 "Generating smart suggestions...")
          else ret tt) ;;;
         let suggestionPlacements :=
           if suggest then
             simplePlacements (analysisResults errorAnalysisResult)
               selectionBounds 0
           else [] in
         updateOCRState
           (fun s =>
              set_isProcessing false
                (set_suggestions suggestionPlacements None false
                   (set_errorMarkShapeIds errorMarkShapeIds
                      (set_lastErrorAnalysis errorAnalysisResult
                         (set_lastResult (Some ocrResult)
                            (Some selectionBounds)
                            (set_step 100 "Processing completed" s)))))) ;;;
         (if notFalse (autoShowSuggestions options)
             && analysisHasErrors errorAnalysisResult
          then emit ScheduleSuggestions else ret tt) ;;;
         (match errorAnalysisResult with
          | Some response =>
              match ea_result response with
              | Some _ => emit (Toast "error-analysis-result")
              | None => ret tt
              end
          | None => ret tt
          end) ;;;
         (if isTrue (enableTTS options) then emit ScheduleSpeech
          else ret tt) ;;;
         ret {| success := true; result := Some ocrResult;
                result_error := None |}
     | _, _ => throw IncompleteInitData
     end)
    (fun e =>
       let errorMessage := messageOf e UnknownErrorDefault in
       updateOCRState
         (fun s =>
            set_suggestions [] None false
              (set_error (Some (text_of errorMessage))
                 (set_isProcessing false s))) ;;;
       emit (Toast "ocr-error") ;;;
       ret {| success := false; result := None;
              result_error := Some errorMessage |}).

(** [processSelectedShapes]; [ocrState] is the state of the render that
    created the callback. *)
Definition processSelectedShapes (env : World) (options : Options)
    (ocrState : OCRState) : M OCRProcessingResult :=
  match isInitialized ocrState, initializationData ocrState with
  | true, Some data => recognize env options ocrState data
  | _, _ =>
      initResult <- initializeOCR env ;;
      ret {| success := init_success initResult;
             result := None;
             result_error :=
               if init_success initResult then None
               else Some (init_message initResult) |}
  end.

(** [resetOCRState] *)
Definition resetOCRState : M unit := updateOCRState (fun _ => initialState).

(** *** The button of [HandwritingButton.tsx] *)

(** [handleProcessSelected] *)
Definition handleProcessSelected (env : World) (options : Options)
    (ocrState : OCRState) : M unit :=
  resetOCRState ;;;
  tryCatch (processSelectedShapes env options ocrState ;;; ret tt)
           (fun _ => ret tt).

(** The options [HandwritingButton] passes to the hook. *)
Definition buttonOptions : Options :=
  {| autoSave := Some true; autoSaveToDataDirectory := Some true;
     enableErrorAnalysis := Some true; autoMarkErrors := Some true;
     enableSmartSuggestions := Some true; autoShowSuggestions := Some true;
     enableTTS := Some false |}.

(** A world for the examples: one selected shape, a raster of 900 by 450
    and an engine that reads one character. *)
Definition sampleCanvas : Canvas :=
  {| raster := 1; canvas_width := 900; canvas_height := 450 |}.

Definition sampleChar : CharacterBox :=
  {| char_id := "c001"; char := "7";
     char_bbox := {| x := 90; y := 45; w := 30; h := 45 |};
     char_center := {| px := 105; py := 68 |};
     char_confidence := 0.9 |}.

Definition sampleResult : OCRResult :=
  {| imageId := "ocr_sample"; fullText := "7";
     charBoxes := [sampleChar];
     metadata := {| imageWidth := 900; imageHeight := 450;
                    detectedInternalScaleFactor := Some 1 |} |}.

Definition sampleBounds : Box := {| x := 100; y := 200; w := 300; h := 150 |}.

Definition sampleWorld : World :=
  {| getSelectedShapeIds := ["shape:a"%string];
     getSelectionPageBounds := Some sampleBounds;
     toImage := fun _ => Returns (Some {| blob_raster := 1 |});
     blobToCanvas := fun b =>
       Returns {| raster := blob_raster b;
                  canvas_width := 900; canvas_height := 450 |};
     proxyImageLoads := fun _ => true;
     preprocessImage := fun c =>
       Returns {| raster := raster c + 100;
                  canvas_width := canvas_width c;
                  canvas_height := canvas_height c |};
     processImageOCR := fun _ _ => Returns sampleResult;
     saveOCRResultToDataDirectory := fun _ => Returns tt;
     analyzeHandwritingErrors := fun _ _ =>
       Returns {| ea_success := true;
                  ea_result :=
                    Some {| originalContent := "7"; hasErrors := false;
                            results := [] |} |};
     getImageData := None;
     markErrorsWithAnimation := fun _ => [] |}.

(** A state in which a phase is in flight. *)
Definition busyState : OCRState :=
  set_step 60 "Converting to canvas..." (set_isProcessing true initialState).

(** An initialized state in which a phase is in flight. *)
Definition busyInitializedState : OCRState :=
  set_isProcessing true
    (set_initialized true
       (Some {| selectionBounds := Some sampleBounds;
                shapeIds := ["shape:a"%string];
                imageCanvas := Some sampleCanvas |})
       initialState).

(** *** What is observed of a run *)

Definition isRasterize (e : Event) : bool :=
  match e with Rasterize _ => true | _ => false end.

Definition isRecognize (e : Event) : bool :=
  match e with Recognize _ _ => true | _ => false end.

(** Every event of every run of [m] satisfies [P]. *)
Definition traceAll {A} (P : Event -> Prop) (m : M A) : Prop :=
  forall s, Forall P (trace (m s)).

(** Every run of [m] returns, with a value that satisfies [Q]. *)
Definition returnsWith {A} (Q : A -> Prop) (m : M A) : Prop :=
  forall s, exists a, outcome (m s) = Returns a /\ Q a.

(** Every run of [m] does [e]. *)
Definition emits {A} (e : Event) (m : M A) : Prop :=
  forall s, In e (trace (m s)).

(** The run of [m] from [s] returns [a], leaves [s'] and does [t]. *)
Definition runsTo {A} (m : M A) (s : OCRState) (a : A) (s' : OCRState)
    (t : list Event) : Prop :=
  m s = {| outcome := Returns a; final := s'; trace := t |}.

(** The session is uninitialized for [processSelectedShapes]. *)
Definition uninitialized (ocrState : OCRState) : Prop :=
  isInitialized ocrState = false \/ initializationData ocrState = None.


End Session.

(** ** [tesseractOCR.ts]: [validateOCRResult] *)

Module OcrQuality.

Import Ocr Session.

(** The messages pushed to [issues] ... *)
Inductive Issue :=
| NoTextRecognized
| NoCharacterBoxes
| LowAverageConfidence (avgConfidence : number)
| LowConfidenceChars.

(** ... and to [suggestions]. *)
Inductive Suggestion :=
| ImproveImageQuality
| ImageTooBlurry
| ImprovePreprocessing
| ManualReview.

Record Validation := mkValidation {
  isValid : bool;
  issues : list Issue;
  suggestions : list Suggestion
}.

(** One check of the function: when the condition holds an issue and a
    suggestion are pushed. *)
Definition check (condition : bool) (issue : Issue) (suggestion : Suggestion)
    (st : list Issue * list Suggestion) : list Issue * list Suggestion :=
  if condition then (fst st ++ [issue], snd st ++ [suggestion]) else st.

Definition validateOCRResult (ocrResult : OCRResult) : Validation :=
  let st := ([], []) in
  let st :=
    check (String.eqb (fullText ocrResult) "")
      NoTextRecognized ImproveImageQuality st in
  let st :=
    check (Nat.eqb (List.length (charBoxes ocrResult)) 0)
      NoCharacterBoxes ImageTooBlurry st in
  let avgConfidence :=
    fold_left (fun sum c => sum + char_confidence c) (charBoxes ocrResult) 0
    / JsMath.of_nat (List.length (charBoxes ocrResult)) in
  let st :=
    check (avgConfidence <? 0.5)
      (LowAverageConfidence avgConfidence) ImprovePreprocessing st in
  let hasLowConfidenceChars :=
    existsb (fun c => char_confidence c <? 0.3) (charBoxes ocrResult) in
  let st := check hasLowConfidenceChars LowConfidenceChars ManualReview st in
  {| isValid := Nat.eqb (List.length (fst st)) 0;
     issues := fst st;
     suggestions := snd st |}.

End OcrQuality.

(** * Properties *)

(** ** Facts on binary64 numbers

  Two numbers are similar when they are the same value or are both a zero
  (of either sign): this is [===] on numbers that are not [NaN], and it is
  kept by [+], [-], [*] and by [/] on the left. *)

Module FloatFacts.

Lemma sf_sim_refl a : sf_sim a a.
Proof. now left. Qed.

Lemma sf_sim_sym a b : sf_sim a b -> sf_sim b a.
Proof.
  intros [-> | (s & s' & -> & ->)]; [now left | right; eauto].
Qed.

Lemma sf_sim_trans a b c : sf_sim a b -> sf_sim b c -> sf_sim a c.
Proof.
  intros [-> | (s & s' & -> & ->)] [<- | (t & t' & E & ->)]; try (now left);
    right; eauto.
Qed.

Lemma SFadd_sim a a' b b' :
  sf_sim a a' -> sf_sim b b' ->
  sf_sim (SFadd prec emax a b) (SFadd prec emax a' b').
Proof.
  intros Ha Hb.
  destruct Ha as [-> | (s & s' & -> & ->)];
    destruct Hb as [-> | (t & t' & -> & ->)].
  - now left.
  - destruct a'; cbn; try (now left); destruct s, t, t'; cbn;
      solve [now left | right; eauto].
  - destruct b'; cbn; try (now left); destruct s, s', s0; cbn;
      solve [now left | right; eauto].
  - destruct s, s', t, t'; cbn; solve [now left | right; eauto].
Qed.

Lemma SFsub_sim a a' b b' :
  sf_sim a a' -> sf_sim b b' ->
  sf_sim (SFsub prec emax a b) (SFsub prec emax a' b').
Proof.
  intros Ha Hb.
  destruct Ha as [-> | (s & s' & -> & ->)];
    destruct Hb as [-> | (t & t' & -> & ->)].
  - now left.
  - destruct a'; cbn; try (now left); destruct s, t, t'; cbn;
      solve [now left | right; eauto].
  - destruct b'; cbn; try (now left); destruct s, s', s0; cbn;
      solve [now left | right; eauto].
  - destruct s, s', t, t'; cbn; solve [now left | right; eauto].
Qed.

Lemma SFmul_sim_l a a' b :
  sf_sim a a' -> sf_sim (SFmul prec emax a b) (SFmul prec emax a' b).
Proof.
  intros [-> | (s & s' & -> & ->)].
  - now left.
  - destruct b; cbn; try (now left); right; eauto.
Qed.

Lemma SFdiv_sim_l a a' b :
  sf_sim a a' -> sf_sim (SFdiv prec emax a b) (SFdiv prec emax a' b).
Proof.
  intros [-> | (s & s' & -> & ->)].
  - now left.
  - destruct b; cbn; try (now left); right; eauto.
Qed.

Lemma sim_refl u : sim u u.
Proof. apply sf_sim_refl. Qed.

Lemma sim_sym u v : sim u v -> sim v u.
Proof. apply sf_sim_sym. Qed.

Lemma sim_trans u v t : sim u v -> sim v t -> sim u t.
Proof. apply sf_sim_trans. Qed.

Lemma sim_add u u' v v' : sim u u' -> sim v v' -> sim (u + v) (u' + v').
Proof. unfold sim; rewrite !add_spec; apply SFadd_sim. Qed.

Lemma sim_sub u u' v v' : sim u u' -> sim v v' -> sim (u - v) (u' - v').
Proof. unfold sim; rewrite !sub_spec; apply SFsub_sim. Qed.

Lemma sim_mul_l u u' v : sim u u' -> sim (u * v) (u' * v).
Proof. unfold sim; rewrite !mul_spec; apply SFmul_sim_l. Qed.

Lemma sim_div_l u u' v : sim u u' -> sim (u / v) (u' / v).
Proof. unfold sim; rewrite !div_spec; apply SFdiv_sim_l. Qed.

Lemma SFcompare_refl a : a <> S754_nan -> SFcompare a a = Some Eq.
Proof.
  destruct a as [s | s | | s m e]; cbn; intros H; try congruence.
  - now destruct s.
  - rewrite Z.compare_refl.
    replace (Pos.compare_cont Eq m m) with Eq
      by (symmetry; apply Pos.compare_cont_refl).
    now destruct s.
Qed.

Lemma SFeqb_true a b : SFeqb a b = true -> sf_sim a b.
Proof.
  unfold SFeqb.
  destruct a as [s | s | | s m e], b as [s' | s' | | s' m' e']; cbn;
    try discriminate; try (destruct s, s'; discriminate).
  - intros _; right; eauto.
  - destruct s, s'; try discriminate; intros _; now left.
  - destruct s, s'; try discriminate;
      destruct (Z.compare_spec e e') as [-> | |]; try discriminate;
      fold (Pos.compare m m');
      destruct (Pos.compare_spec m m') as [-> | |]; try discriminate;
      intros _; now left.
Qed.

Lemma sf_sim_SFeqb a b : sf_sim a b -> a <> S754_nan -> SFeqb a b = true.
Proof.
  intros [<- | (s & s' & -> & ->)] H.
  - unfold SFeqb. now rewrite SFcompare_refl.
  - reflexivity.
Qed.

Lemma is_nan_iff u : is_nan u = true <-> Prim2SF u = S754_nan.
Proof.
  unfold is_nan. rewrite FloatAxioms.eqb_spec. split.
  - intros H. destruct (Prim2SF u) eqn:E; auto;
      unfold SFeqb in H; rewrite SFcompare_refl in H by discriminate;
      discriminate.
  - intros ->. reflexivity.
Qed.

(** [u === v] makes the two similar, and similar numbers that are not
    [NaN] are [===]. *)
Lemma eqb_sim u v : (u =? v) = true -> sim u v.
Proof. rewrite FloatAxioms.eqb_spec. apply SFeqb_true. Qed.

Lemma sim_eqb u v : sim u v -> is_nan u = false -> (u =? v) = true.
Proof.
  intros H Hn. rewrite FloatAxioms.eqb_spec. apply sf_sim_SFeqb; auto.
  intros E. apply is_nan_iff in E. congruence.
Qed.

Lemma sim_is_nan u v : sim u v -> is_nan u = is_nan v.
Proof.
  intros H. destruct (is_nan u) eqn:Eu, (is_nan v) eqn:Ev; auto.
  - apply is_nan_iff in Eu. destruct H as [H | (s & s' & H1 & H2)];
      [ rewrite Eu in H; symmetry in H; apply is_nan_iff in H; congruence
      | congruence ].
  - apply is_nan_iff in Ev. destruct H as [H | (s & s' & H1 & H2)];
      [ rewrite Ev in H; apply is_nan_iff in H; congruence
      | congruence ].
Qed.

Lemma is_infinity_sf u :
  is_infinity u = true <-> exists s, Prim2SF u = S754_infinity s.
Proof.
  unfold is_infinity. rewrite FloatAxioms.eqb_spec, abs_spec.
  change (Prim2SF infinity) with (S754_infinity false).
  destruct (Prim2SF u) as [s | s | | s m e]; cbn; split;
    try discriminate; try (intros (? & ?); discriminate); eauto.
Qed.

Lemma sim_is_finite u v : sim u v -> is_finite u = is_finite v.
Proof.
  intros H. unfold is_finite. rewrite (sim_is_nan u v H). f_equal. f_equal.
  destruct (is_infinity u) eqn:Eu, (is_infinity v) eqn:Ev; auto.
  - apply is_infinity_sf in Eu as (s & Eu).
    destruct H as [H | (? & ? & H1 & H2)]; [| congruence].
    rewrite Eu in H. symmetry in H.
    assert (is_infinity v = true) by (apply is_infinity_sf; eauto).
    congruence.
  - apply is_infinity_sf in Ev as (s & Ev).
    destruct H as [H | (? & ? & H1 & H2)]; [| congruence].
    rewrite Ev in H.
    assert (is_infinity u = true) by (apply is_infinity_sf; eauto).
    congruence.
Qed.

Lemma SFcompare_antisym a b c :
  SFcompare a b = Some c -> SFcompare b a = Some (CompOpp c).
Proof.
  destruct a as [s | s | | s m e], b as [s' | s' | | s' m' e']; cbn;
    try discriminate;
    try (intros [= <-]; destruct s; try destruct s'; reflexivity);
    try (intros [= <-]; destruct s'; reflexivity).
  intros [= <-]. f_equal.
  rewrite (Z.compare_antisym e e').
  fold (Pos.compare m m'). fold (Pos.compare m' m).
  rewrite (Pos.compare_antisym m m').
  destruct s, s'; cbn; try reflexivity;
    destruct (e ?= e')%Z; cbn; try reflexivity;
    destruct (Pos.compare m m'); reflexivity.
Qed.

(** [u <= v] excludes [u > v]. *)
Lemma leb_not_gtb u v : (u <=? v) = true -> gtb u v = false.
Proof.
  unfold gtb. rewrite leb_spec, ltb_spec. unfold SFleb, SFltb.
  destruct (SFcompare (Prim2SF u) (Prim2SF v)) as [c |] eqn:E;
    [| discriminate].
  rewrite (SFcompare_antisym _ _ _ E).
  destruct c; cbn; congruence.
Qed.

(** A finite number is a zero or has a mantissa. *)
Lemma is_finite_sf u :
  is_finite u = true ->
  (exists s, Prim2SF u = S754_zero s)
  \/ (exists s m e, Prim2SF u = S754_finite s m e).
Proof.
  unfold is_finite. intros H.
  apply negb_true_iff, orb_false_iff in H as [Hn Hi].
  destruct (Prim2SF u) as [s | s | | s m e] eqn:E; eauto.
  - assert (is_infinity u = true) by (apply is_infinity_sf; eauto).
    congruence.
  - apply is_nan_iff in E. congruence.
Qed.

Lemma is_finite_not_nan u : is_finite u = true -> is_nan u = false.
Proof.
  unfold is_finite. intros H.
  now apply negb_true_iff, orb_false_iff in H as [Hn _].
Qed.

(** [0 * s] is a zero when [s] is finite, and adding a zero to [u] gives
    [u] back (up to the sign of a zero). *)
Lemma zero_mul_finite s : is_finite s = true -> sim (0 * s) 0.
Proof.
  intros H. unfold sim. rewrite mul_spec.
  change (Prim2SF 0) with (S754_zero false).
  destruct (is_finite_sf s H) as [(t & ->) | (t & m & e & ->)]; cbn;
    right; eauto.
Qed.

Lemma add_zero_r u z : sim z 0 -> sim (u + z) u.
Proof.
  unfold sim. rewrite add_spec. change (Prim2SF 0) with (S754_zero false).
  intros [-> | (s & s' & -> & _)];
    destruct (Prim2SF u) as [t | t | | t m e]; cbn; try (now left);
    try (destruct t; try destruct s; cbn; solve [now left | right; eauto]).
Qed.

Lemma add_zero_l u : sim (0 + u) u.
Proof.
  unfold sim. rewrite add_spec. change (Prim2SF 0) with (S754_zero false).
  destruct (Prim2SF u) as [t | t | | t m e]; cbn; try (now left).
  destruct t; solve [now left | right; eauto].
Qed.

End FloatFacts.

(** ** Order and commutativity of numbers *)

Module OrderFacts.

Import FloatFacts.

Lemma Prim2SF_inj u v : Prim2SF u = Prim2SF v -> u = v.
Proof.
  intros H. rewrite <- (SF2Prim_Prim2SF u), <- (SF2Prim_Prim2SF v).
  now rewrite H.
Qed.

Lemma SFadd_comm a b : SFadd prec emax a b = SFadd prec emax b a.
Proof.
  destruct a as [s | s | | s m e], b as [s' | s' | | s' m' e']; cbn;
    try reflexivity; try (destruct s, s'; reflexivity).
  rewrite (Z.min_comm e' e). f_equal. apply Z.add_comm.
Qed.

Lemma add_comm u v : u + v = v + u.
Proof. apply Prim2SF_inj. rewrite !add_spec. apply SFadd_comm. Qed.

(** The order of two numbers that are not [NaN]. *)
Lemma compare_some u v :
  is_nan u = false -> is_nan v = false ->
  exists c, SFcompare (Prim2SF u) (Prim2SF v) = Some c.
Proof.
  intros Hu Hv.
  destruct (Prim2SF u) as [s | s | | s m e] eqn:Eu;
    [ | | apply is_nan_iff in Eu; congruence | ];
    (destruct (Prim2SF v) as [s' | s' | | s' m' e'] eqn:Ev;
     [ | | apply is_nan_iff in Ev; congruence | ]); cbn; eauto.
Qed.

Lemma ltb_antisym u v : (u <? v) = true -> (v <? u) = false.
Proof.
  rewrite !ltb_spec. unfold SFltb.
  destruct (SFcompare (Prim2SF u) (Prim2SF v)) as [c |] eqn:E;
    [| discriminate].
  rewrite (SFcompare_antisym _ _ _ E). now destruct c.
Qed.

Lemma ltb_leb u v : (u <? v) = true -> (u <=? v) = true.
Proof.
  rewrite ltb_spec, leb_spec. unfold SFltb, SFleb.
  now destruct (SFcompare (Prim2SF u) (Prim2SF v)) as [[| |] |].
Qed.

Lemma ltb_not_nan u v :
  (u <? v) = true -> is_nan u = false /\ is_nan v = false.
Proof.
  rewrite ltb_spec. unfold SFltb. intros H.
  split.
  - destruct (is_nan u) eqn:E; auto. apply is_nan_iff in E.
    rewrite E in H. discriminate.
  - destruct (is_nan v) eqn:E; auto. apply is_nan_iff in E.
    rewrite E in H. now destruct (Prim2SF u).
Qed.

(** Two numbers neither of which is below the other are [===]. *)
Lemma tie_sim u v :
  is_nan u = false -> is_nan v = false ->
  (u <? v) = false -> (v <? u) = false -> sim u v.
Proof.
  intros Hu Hv. rewrite !ltb_spec. unfold SFltb, sim.
  destruct (compare_some u v Hu Hv) as (c & E).
  rewrite (SFcompare_antisym _ _ _ E), E.
  destruct c; try discriminate. intros _ _.
  apply SFeqb_true. unfold SFeqb. now rewrite E.
Qed.

Lemma sim_leb u v : sim u v -> is_nan u = false -> (u <=? v) = true.
Proof.
  intros S N. pose proof (sim_eqb u v S N) as E.
  rewrite FloatAxioms.eqb_spec in E. rewrite leb_spec.
  unfold SFeqb in E. unfold SFleb.
  now destruct (SFcompare (Prim2SF u) (Prim2SF v)) as [[| |] |].
Qed.

(** The sign of a zero. *)
Lemma get_sign_zero u s : Prim2SF u = S754_zero s -> get_sign u = s.
Proof.
  intros E. unfold get_sign, is_zero.
  rewrite FloatAxioms.eqb_spec, E. cbn.
  rewrite ltb_spec, div_spec, E. now destruct s.
Qed.

Lemma max_comm u v : JsMath.max u v = JsMath.max v u.
Proof.
  unfold JsMath.max. rewrite (orb_comm (is_nan v)).
  destruct (is_nan u) eqn:Nu, (is_nan v) eqn:Nv; cbn [orb]; auto.
  destruct (u <? v) eqn:L1, (v <? u) eqn:L2; auto.
  - apply ltb_antisym in L1. congruence.
  - destruct (tie_sim u v Nu Nv L1 L2) as [E | (s & s' & Eu & Ev)].
    + apply Prim2SF_inj in E. subst v. now destruct (get_sign u).
    + rewrite (get_sign_zero u s Eu), (get_sign_zero v s' Ev).
      destruct s, s'; auto; apply Prim2SF_inj; congruence.
Qed.

Lemma min_comm u v : JsMath.min u v = JsMath.min v u.
Proof.
  unfold JsMath.min. rewrite (orb_comm (is_nan v)).
  destruct (is_nan u) eqn:Nu, (is_nan v) eqn:Nv; cbn [orb]; auto.
  destruct (u <? v) eqn:L1, (v <? u) eqn:L2; auto.
  - apply ltb_antisym in L1. congruence.
  - destruct (tie_sim u v Nu Nv L1 L2) as [E | (s & s' & Eu & Ev)].
    + apply Prim2SF_inj in E. subst v. now destruct (get_sign u).
    + rewrite (get_sign_zero u s Eu), (get_sign_zero v s' Ev).
      destruct s, s'; auto; apply Prim2SF_inj; congruence.
Qed.

Lemma min_nan u v : is_nan u = true \/ is_nan v = true -> JsMath.min u v = NaN.
Proof.
  unfold JsMath.min. intros [-> | ->]; [| rewrite orb_true_r]; reflexivity.
Qed.

Lemma max_nan u v : is_nan u = true \/ is_nan v = true -> JsMath.max u v = NaN.
Proof.
  unfold JsMath.max. intros [-> | ->]; [| rewrite orb_true_r]; reflexivity.
Qed.

Lemma is_nan_eq u : is_nan u = true -> u = NaN.
Proof. intros H. apply is_nan_iff in H. now apply Prim2SF_inj. Qed.

Lemma nan_sub_r u : u - NaN = NaN.
Proof.
  apply Prim2SF_inj. rewrite sub_spec. change (Prim2SF NaN) with S754_nan.
  now destruct (Prim2SF u).
Qed.

Lemma nan_sub_l u : NaN - u = NaN.
Proof.
  apply Prim2SF_inj. rewrite sub_spec. now change (Prim2SF NaN) with S754_nan.
Qed.

Lemma nan_add_l u : NaN + u = NaN.
Proof.
  apply Prim2SF_inj. rewrite add_spec. now change (Prim2SF NaN) with S754_nan.
Qed.

Lemma nan_mul_l u : NaN * u = NaN.
Proof.
  apply Prim2SF_inj. rewrite mul_spec. now change (Prim2SF NaN) with S754_nan.
Qed.

Lemma nan_mul_r u : u * NaN = NaN.
Proof.
  apply Prim2SF_inj. rewrite mul_spec. change (Prim2SF NaN) with S754_nan.
  now destruct (Prim2SF u).
Qed.

(** No number is above or below [NaN]. *)
Lemma nan_leb_l u : (NaN <=? u) = false.
Proof. rewrite leb_spec. reflexivity. Qed.

Lemma nan_leb_r u : (u <=? NaN) = false.
Proof.
  rewrite leb_spec. change (Prim2SF NaN) with S754_nan.
  now destruct (Prim2SF u).
Qed.

(** Every number but [NaN] is between the two infinities. *)
Lemma leb_infinity u : (u <=? infinity) = negb (is_nan u).
Proof.
  destruct (is_nan u) eqn:N.
  - apply is_nan_eq in N. subst. reflexivity.
  - rewrite leb_spec. change (Prim2SF infinity) with (S754_infinity false).
    destruct (Prim2SF u) as [s | s | | s m e] eqn:E; cbn; try now destruct s.
    apply is_nan_iff in E. congruence.
Qed.

Lemma neg_infinity_leb u : (neg_infinity <=? u) = negb (is_nan u).
Proof.
  destruct (is_nan u) eqn:N.
  - apply is_nan_eq in N. subst. reflexivity.
  - rewrite leb_spec.
    change (Prim2SF neg_infinity) with (S754_infinity true).
    destruct (Prim2SF u) as [s | s | | s m e] eqn:E; cbn; try now destruct s.
    apply is_nan_iff in E. congruence.
Qed.

End OrderFacts.

(** ** The pixel-to-page mapping *)

Module MappingFacts.

Import Mapping FloatFacts.

(** On a box of four finite numbers the guards of [pixelBoxToPageBox]
    pass, and it computes the two corners. *)
Lemma pixelBoxToPageBox_finite (box : OcrPixelBox) (img : DomImageData) :
  is_finite (px_x box) = true -> is_finite (px_y box) = true ->
  is_finite (px_w box) = true -> is_finite (px_h box) = true ->
  pixelBoxToPageBox (ofPixelBox box) img =
  let scaleX := rect_width (rect img) / naturalWidth img in
  let scaleY := rect_height (rect img) / naturalHeight img in
  let pageX1 := rect_x (rect img) + px_x box * scaleX in
  let pageY1 := rect_y (rect img) + px_y box * scaleY in
  let pageX2 := rect_x (rect img) + (px_x box + px_w box) * scaleX in
  let pageY2 := rect_y (rect img) + (px_y box + px_h box) * scaleY in
  {| pb_id := Some (px_id box);
     pb_x := pageX1; pb_y := pageY1;
     pb_w := pageX2 - pageX1; pb_h := pageY2 - pageY1 |}.
Proof.
  intros Hx Hy Hw Hh.
  unfold pixelBoxToPageBox, ofPixelBox, pick, bbox_field.
  cbn [any_id any_x any_y any_w any_h any_bbox Number_isFinite].
  rewrite Hx, Hy, Hw, Hh.
  cbn [Number_isFinite]. rewrite Hx, Hy. reflexivity.
Qed.

(** C1. For every pixel box of finite numbers and every image geometry,
    [pixelBoxToPageBox] returns the box with
    [x = pageRect.x + box.x * (pageRect.w / naturalWidth)],
    [y = pageRect.y + box.y * (pageRect.h / naturalHeight)], and [w], [h]
    the difference between the far corner, mapped the same way, and that
    corner; and in the geometry
    [{pageRect: {100, 200, 300, 150}, 900 x 450}] the pixel box
    [{90, 45, 30, 45}] maps to the page box [{130, 215, 10, 15}]. *)
Theorem pixelBoxToPageBox_formula :
  (forall (box : OcrPixelBox) (img : DomImageData),
      is_finite (px_x box) = true -> is_finite (px_y box) = true ->
      is_finite (px_w box) = true -> is_finite (px_h box) = true ->
      let mapX := fun v =>
        rect_x (rect img) + v * (rect_width (rect img) / naturalWidth img) in
      let mapY := fun v =>
        rect_y (rect img) + v * (rect_height (rect img) / naturalHeight img) in
      pixelBoxToPageBox (ofPixelBox box) img =
      {| pb_id := Some (px_id box);
         pb_x := mapX (px_x box);
         pb_y := mapY (px_y box);
         pb_w := mapX (px_x box + px_w box) - mapX (px_x box);
         pb_h := mapY (px_y box + px_h box) - mapY (px_y box) |})
  /\ pixelBoxToPageBox (ofPixelBox example_box) example_geometry =
     {| pb_id := Some "c001"%string;
        pb_x := 130; pb_y := 215; pb_w := 10; pb_h := 15 |}.
Proof.
  split.
  - intros box img Hx Hy Hw Hh. cbv zeta.
    now rewrite pixelBoxToPageBox_finite.
  - vm_compute. reflexivity.
Qed.

Lemma pixelBoxToPageBox_formula_witness :
  pixelBoxToPageBox (ofPixelBox example_box) example_geometry =
  {| pb_id := Some "c001"%string;
     pb_x := 100 + 90 * (300 / 900);
     pb_y := 200 + 45 * (150 / 450);
     pb_w := (100 + (90 + 30) * (300 / 900)) - (100 + 90 * (300 / 900));
     pb_h := (200 + (45 + 45) * (150 / 450)) - (200 + 45 * (150 / 450)) |}.
Proof.
  apply (proj1 pixelBoxToPageBox_formula example_box example_geometry);
    vm_compute; reflexivity.
Defined.

(** The guard of [pixelBoxToPageBox] on a box of numbers. *)
Lemma pixelBoxToPageBox_guard (box : AnyBox) (img : DomImageData) :
  (Number_isFinite (any_x box) = false
   /\ Number_isFinite (bbox_field bb_x box) = false)
  \/ (Number_isFinite (any_y box) = false
      /\ Number_isFinite (bbox_field bb_y box) = false) ->
  pixelBoxToPageBox box img =
  {| pb_id := match any_id box with
              | Some i => Some i
              | None => Some "unknown"%string
              end;
     pb_x := NaN; pb_y := NaN; pb_w := NaN; pb_h := NaN |}.
Proof.
  intros H. unfold pixelBoxToPageBox, pick, id_or_unknown.
  destruct H as [[H1 H2] | [H1 H2]].
  - rewrite H1, H2. reflexivity.
  - rewrite H1, H2. rewrite orb_true_r. reflexivity.
Qed.

Lemma isFiniteValue_valueOf (v : option number) :
  isFiniteValue (valueOf v) = Number_isFinite v.
Proof. now destruct v. Qed.

Lemma pickValue_valueOf (own fallback : option number) :
  pickValue (valueOf own) (valueOf fallback) = valueOf (pick own fallback).
Proof.
  unfold pickValue, pick. rewrite isFiniteValue_valueOf.
  now destruct (Number_isFinite own).
Qed.

Lemma bboxValue_ofAnyBox (box : AnyBox) :
  bboxValue vbb_x (ofAnyBox box) = valueOf (bbox_field bb_x box)
  /\ bboxValue vbb_y (ofAnyBox box) = valueOf (bbox_field bb_y box)
  /\ bboxValue vbb_w (ofAnyBox box) = valueOf (bbox_field bb_w box)
  /\ bboxValue vbb_h (ofAnyBox box) = valueOf (bbox_field bb_h box).
Proof.
  unfold bboxValue, bbox_field, ofAnyBox. cbn [val_bbox].
  destruct (any_bbox box); repeat split; reflexivity.
Qed.

Lemma addValue_valueOf (a : number) (v : option number) :
  addValue a (valueOf v) = Some (a + ToNumber v).
Proof. now destruct v. Qed.

Lemma numberOf_valueOf (v : option number) :
  Number_isFinite v = true -> numberOf (valueOf v) = ToNumber v.
Proof. destruct v; [reflexivity | discriminate]. Qed.

(** On a box whose properties are numbers or missing the call does not
    throw, and returns what the model over numbers returns. *)
Lemma pixelBoxToPageBox_of_numbers (box : AnyBox) (img : DomImageData) :
  pixelBoxToPageBoxOfValues (ofAnyBox box) img
  = Some (pixelBoxToPageBox box img).
Proof.
  destruct (bboxValue_ofAnyBox box) as (Ex & Ey & Ew & Eh).
  unfold pixelBoxToPageBoxOfValues.
  rewrite Ex, Ey, Ew, Eh.
  cbn [ofAnyBox val_id val_x val_y val_w val_h].
  rewrite !pickValue_valueOf, !isFiniteValue_valueOf.
  unfold pixelBoxToPageBox, id_or_unknown.
  destruct (Number_isFinite (pick (any_x box) (bbox_field bb_x box))) eqn:Fx;
    [| reflexivity].
  destruct (Number_isFinite (pick (any_y box) (bbox_field bb_y box))) eqn:Fy;
    [| reflexivity].
  cbn [negb orb]. cbv zeta.
  rewrite !addValue_valueOf, !numberOf_valueOf by assumption.
  reflexivity.
Qed.

(** Past the guard the call throws exactly when the width or the height
    it picked is refused by [+]. *)
Lemma pixelBoxToPageBox_throws_iff (box : ValueBox) (img : DomImageData) :
  pixelBoxToPageBoxOfValues box img = None <->
  isFiniteValue (pickValue (val_x box) (bboxValue vbb_x box)) = true
  /\ isFiniteValue (pickValue (val_y box) (bboxValue vbb_y box)) = true
  /\ (refusedByPlus (pickValue (val_w box) (bboxValue vbb_w box)) = true
      \/ refusedByPlus (pickValue (val_h box) (bboxValue vbb_h box)) = true).
Proof.
  unfold pixelBoxToPageBoxOfValues.
  destruct (isFiniteValue (pickValue (val_x box) (bboxValue vbb_x box)));
    [| cbn; split; [discriminate | intros (H & _); discriminate]].
  destruct (isFiniteValue (pickValue (val_y box) (bboxValue vbb_y box)));
    [| cbn; split; [discriminate | intros (_ & H & _); discriminate]].
  cbn [negb orb]. cbv zeta.
  destruct (pickValue (val_w box) (bboxValue vbb_w box));
    destruct (pickValue (val_h box) (bboxValue vbb_h box));
    cbn [addValue refusedByPlus];
    (split;
     [ first [ discriminate | intros _; repeat split; auto ]
     | first [ reflexivity
             | intros (_ & _ & [H | H]); discriminate ] ]).
Qed.

(** C10, as the code has it.  On every box whose [x], [y], [w], [h] and
    [bbox.x], [bbox.y], [bbox.w], [bbox.h] are numbers or missing,
    [pixelBoxToPageBox] returns a box and does not throw.  On every box
    whose properties are [undefined], [null], booleans, numbers, BigInts
    or Symbols: when neither [box.x] nor [box.bbox?.x] is a finite number,
    or neither [box.y] nor [box.bbox?.y] is, it returns the box whose id
    is the input's id, or ['unknown'] without one, and whose [x], [y],
    [w], [h] are all [NaN]; and it throws exactly when both guards pass
    and the [w] or the [h] it picked is a BigInt or a Symbol. *)
Theorem pixelBoxToPageBox_total_on_numbers (img : DomImageData) :
  (forall box : AnyBox,
      pixelBoxToPageBoxOfValues (ofAnyBox box) img
      = Some (pixelBoxToPageBox box img))
  /\ (forall box : AnyBox,
        (Number_isFinite (any_x box) = false
         /\ Number_isFinite (bbox_field bb_x box) = false)
        \/ (Number_isFinite (any_y box) = false
            /\ Number_isFinite (bbox_field bb_y box) = false) ->
        pixelBoxToPageBox box img =
        {| pb_id := match any_id box with
                    | Some i => Some i
                    | None => Some "unknown"%string
                    end;
           pb_x := NaN; pb_y := NaN; pb_w := NaN; pb_h := NaN |})
  /\ (forall box : ValueBox,
        (isFiniteValue (val_x box) = false
         /\ isFiniteValue (bboxValue vbb_x box) = false)
        \/ (isFiniteValue (val_y box) = false
            /\ isFiniteValue (bboxValue vbb_y box) = false) ->
        pixelBoxToPageBoxOfValues box img =
        Some {| pb_id := match val_id box with
                         | Some i => Some i
                         | None => Some "unknown"%string
                         end;
                pb_x := NaN; pb_y := NaN; pb_w := NaN; pb_h := NaN |})
  /\ (forall box : ValueBox,
        pixelBoxToPageBoxOfValues box img = None <->
        isFiniteValue (pickValue (val_x box) (bboxValue vbb_x box)) = true
        /\ isFiniteValue (pickValue (val_y box) (bboxValue vbb_y box)) = true
        /\ (refusedByPlus (pickValue (val_w box) (bboxValue vbb_w box)) = true
            \/ refusedByPlus (pickValue (val_h box) (bboxValue vbb_h box))
               = true)).
Proof.
  split; [intros box; apply pixelBoxToPageBox_of_numbers |].
  split; [intros box; apply pixelBoxToPageBox_guard |].
  split; [| intros box; apply pixelBoxToPageBox_throws_iff].
  intros box H. unfold pixelBoxToPageBoxOfValues, pickValue.
  destruct H as [[H1 H2] | [H1 H2]].
  - rewrite H1, H2. reflexivity.
  - rewrite H1, H2. rewrite orb_true_r. reflexivity.
Qed.

(** The box without id whose [x] is [NaN] and whose [bbox.x] is infinite,
    the box that carries nothing but an id, and the box of BigInts all map
    to the box of [NaN]. *)
Lemma pixelBoxToPageBox_total_on_numbers_witness :
  pixelBoxToPageBox nonFiniteBox example_geometry =
  {| pb_id := Some "unknown"%string;
     pb_x := NaN; pb_y := NaN; pb_w := NaN; pb_h := NaN |}
  /\ pixelBoxToPageBox idOnlyBox example_geometry =
     {| pb_id := Some "c009"%string;
        pb_x := NaN; pb_y := NaN; pb_w := NaN; pb_h := NaN |}
  /\ pixelBoxToPageBoxOfValues bigIntBox example_geometry =
     Some {| pb_id := Some "unknown"%string;
             pb_x := NaN; pb_y := NaN; pb_w := NaN; pb_h := NaN |}.
Proof.
  pose proof (pixelBoxToPageBox_total_on_numbers example_geometry)
    as (_ & Hn & Hv & _).
  split; [| split].
  - apply (Hn nonFiniteBox). left. split; reflexivity.
  - apply (Hn idOnlyBox). right. split; reflexivity.
  - apply (Hv bigIntBox). left. split; reflexivity.
Defined.

(** [pixelBoxToPageBox] throws on an input object: the box
    [{id: 'c001', x: 90, y: 45, bbox: {w: 30n, h: 45}}] passes both
    guards, and [bx + bw] is [90 + 30n], a [TypeError]. *)
Lemma pixelBoxToPageBox_throws_on_bigint :
  isFiniteValue (pickValue (val_x bigIntWidthBox)
                   (bboxValue vbb_x bigIntWidthBox)) = true
  /\ isFiniteValue (pickValue (val_y bigIntWidthBox)
                      (bboxValue vbb_y bigIntWidthBox)) = true
  /\ pickValue (val_w bigIntWidthBox) (bboxValue vbb_w bigIntWidthBox)
     = VBigInt 30
  /\ pixelBoxToPageBoxOfValues bigIntWidthBox example_geometry = None.
Proof. repeat split. Qed.

(** On a geometry whose page rectangle is not made of binary fractions
    the width mapped from the full-image box is not the width of the
    page rectangle: [0.1 + 1 * (0.2 / 1) - 0.1] is
    [0.20000000000000004], and [100.1 + 318 * (317.3 / 318) - 100.1] is
    [317.29999999999995]. *)
Lemma full_image_box_drifts :
  (0 <? naturalWidth tenths_geometry) = true
  /\ (0 <? naturalHeight tenths_geometry) = true
  /\ pb_w (pixelBoxToPageBox
             (ofPixelBox (fullImageBox "full" tenths_geometry))
             tenths_geometry) = 0.20000000000000004
  /\ strict_eq
       (pb_w (pixelBoxToPageBox
                (ofPixelBox (fullImageBox "full" tenths_geometry))
                tenths_geometry))
       (rect_width (rect tenths_geometry)) = false
  /\ pixelBoxToPageBox (ofPixelBox (fullImageBox "full" tenths_geometry))
       tenths_geometry
     <> pageRectBox "full" tenths_geometry
  /\ pb_w (pixelBoxToPageBox
             (ofPixelBox (fullImageBox "full" fractional_geometry))
             fractional_geometry) = 317.29999999999995
  /\ strict_eq
       (pb_w (pixelBoxToPageBox
                (ofPixelBox (fullImageBox "full" fractional_geometry))
                fractional_geometry))
       (rect_width (rect fractional_geometry)) = false.
Proof.
  repeat split; try (vm_compute; reflexivity).
  intros H.
  apply (f_equal (fun b => strict_eq (pb_w b) 0.2)) in H.
  vm_compute in H. discriminate.
Qed.

(** The corner [x1] of the full-image box is the origin of the page
    rectangle, up to the sign of a zero. *)
Lemma origin_maps_to_origin (o s : number) :
  is_finite s = true -> sim (o + 0 * s) o.
Proof.
  intros Hs. apply add_zero_r, zero_mul_finite, Hs.
Qed.

(** Similar numbers compare alike with [===]. *)
Lemma sim_eqb_congr (u v t : number) : sim u v -> (u =? t) = (v =? t).
Proof.
  unfold sim. rewrite !FloatAxioms.eqb_spec.
  intros [-> | (s & s' & -> & ->)]; [reflexivity |].
  unfold SFeqb. now destruct (Prim2SF t).
Qed.

(** The extent mapped from the full-image box is the value of the round
    trip, up to the sign of a zero. *)
Lemma extent_is_round_trip (o n s : number) :
  is_finite s = true ->
  sim ((o + (0 + n) * s) - (o + 0 * s)) ((o + n * s) - o).
Proof.
  intros Hs. apply sim_sub.
  - apply sim_add; [apply sim_refl |]. apply sim_mul_l, add_zero_l.
  - now apply origin_maps_to_origin.
Qed.

(** C2, as the code has it.  For a geometry with finite origin, finite
    natural sizes and finite scales, the full-image pixel box
    [{0, 0, naturalWidth, naturalHeight}] maps to a box whose [x] and [y]
    are [===] to those of the page rectangle, and whose [w] (and [h]) is
    the binary64 value of the round trip
    [(x + naturalWidth * (w / naturalWidth)) - x], up to the sign of a
    zero: it is [===] to the [w] of the rectangle exactly when that round
    trip gives [w] back. *)
Theorem full_image_box_to_page_rect (i : string) (img : DomImageData) :
  is_finite (rect_x (rect img)) = true ->
  is_finite (rect_y (rect img)) = true ->
  is_finite (naturalWidth img) = true ->
  is_finite (naturalHeight img) = true ->
  is_finite (rect_width (rect img) / naturalWidth img) = true ->
  is_finite (rect_height (rect img) / naturalHeight img) = true ->
  let r := pixelBoxToPageBox (ofPixelBox (fullImageBox i img)) img in
  let roundTripW :=
    (rect_x (rect img)
     + naturalWidth img * (rect_width (rect img) / naturalWidth img))
    - rect_x (rect img) in
  let roundTripH :=
    (rect_y (rect img)
     + naturalHeight img * (rect_height (rect img) / naturalHeight img))
    - rect_y (rect img) in
  pb_id r = Some i
  /\ strict_eq (pb_x r) (rect_x (rect img)) = true
  /\ strict_eq (pb_y r) (rect_y (rect img)) = true
  /\ sim (pb_w r) roundTripW
  /\ sim (pb_h r) roundTripH
  /\ strict_eq (pb_w r) (rect_width (rect img))
     = strict_eq roundTripW (rect_width (rect img))
  /\ strict_eq (pb_h r) (rect_height (rect img))
     = strict_eq roundTripH (rect_height (rect img)).
Proof.
  intros Hx Hy Hw Hh Hsx Hsy r roundTripW roundTripH.
  subst r roundTripW roundTripH.
  rewrite pixelBoxToPageBox_finite by (cbn; auto).
  cbn [fullImageBox px_id px_x px_y px_w px_h pb_id pb_x pb_y pb_w pb_h].
  cbv zeta.
  split; [reflexivity |].
  split.
  { unfold strict_eq. apply sim_eqb.
    - now apply origin_maps_to_origin.
    - rewrite (sim_is_nan _ _ (origin_maps_to_origin _ _ Hsx)).
      now apply is_finite_not_nan. }
  split.
  { unfold strict_eq. apply sim_eqb.
    - now apply origin_maps_to_origin.
    - rewrite (sim_is_nan _ _ (origin_maps_to_origin _ _ Hsy)).
      now apply is_finite_not_nan. }
  split; [now apply extent_is_round_trip |].
  split; [now apply extent_is_round_trip |].
  unfold strict_eq.
  split; apply sim_eqb_congr; now apply extent_is_round_trip.
Qed.

(** In the geometry of the worked example the round trip is exact and the
    full-image box maps to the page rectangle; in the geometry
    [{0.1, 0, 0.2, 1}] of a 1 by 1 image it is not, and the mapped width
    is the value of the round trip, not the width of the rectangle. *)
Lemma full_image_box_to_page_rect_witness :
  (let r := pixelBoxToPageBox
              (ofPixelBox (fullImageBox "full" example_geometry))
              example_geometry in
   strict_eq (pb_x r) 100 = true /\ strict_eq (pb_y r) 200 = true
   /\ strict_eq (pb_w r) 300 = true /\ strict_eq (pb_h r) 150 = true)
  /\ (let r := pixelBoxToPageBox
                 (ofPixelBox (fullImageBox "full" tenths_geometry))
                 tenths_geometry in
      sim (pb_w r) 0.20000000000000004
      /\ strict_eq (pb_w r) 0.2 = false).
Proof.
  pose proof (full_image_box_to_page_rect "full" example_geometry
                eq_refl eq_refl eq_refl eq_refl eq_refl eq_refl) as H.
  pose proof (full_image_box_to_page_rect "full" tenths_geometry
                eq_refl eq_refl eq_refl eq_refl eq_refl eq_refl) as T.
  cbv zeta in *.
  destruct H as (_ & Hx & Hy & _ & _ & Hw & Hh).
  destruct T as (_ & _ & _ & Tw & _ & Te & _).
  split.
  - split; [exact Hx |]. split; [exact Hy |].
    split; [refine (eq_trans Hw _) | refine (eq_trans Hh _)];
      vm_compute; reflexivity.
  - split; [exact Tw |]. refine (eq_trans Te _). vm_compute. reflexivity.
Defined.

End MappingFacts.

(** ** The checks of a mapping *)

Module MappingChecksFacts.

Import Ocr Mapping MappingChecks FloatFacts OrderFacts.

(** X1. With no page box the union is the empty one, and the selection
    counts as covered unless one of its bounds is [NaN]. *)
Theorem nothing_to_cover_is_covered (selection : SelectionBounds) :
  union (calcUnionAndCoverage [] selection) = emptyUnion
  /\ covered (calcUnionAndCoverage [] selection)
     = negb (isNaN (sb_x selection) || isNaN (sb_y selection)
             || isNaN (sb_x selection + sb_w selection)
             || isNaN (sb_y selection + sb_h selection)).
Proof.
  split; [reflexivity |].
  unfold calcUnionAndCoverage, geb, isNaN. cbn [fold_left emptyUnion minX minY maxX maxY].
  rewrite !leb_infinity, !neg_infinity_leb.
  now rewrite !negb_orb.
Qed.

(** Once a bound of the union is [NaN] it stays [NaN]. *)
Lemma union_nan_stays (pageBoxes : list PageBox) (u : Union) :
  is_nan (minX u) = true ->
  is_nan (minX (fold_left extendUnion pageBoxes u)) = true.
Proof.
  revert u. induction pageBoxes as [| b bs IH]; intros u H; cbn; auto.
  apply IH. cbn. now rewrite min_nan by auto.
Qed.

Lemma union_nan (pageBoxes : list PageBox) (u : Union) (b : PageBox) :
  In b pageBoxes -> is_nan (pb_x b) = true ->
  is_nan (minX (fold_left extendUnion pageBoxes u)) = true.
Proof.
  revert u. induction pageBoxes as [| a bs IH]; intros u Hin Hb;
    [destruct Hin | destruct Hin as [-> | Hin]]; cbn.
  - apply union_nan_stays. cbn. now rewrite min_nan by auto.
  - now apply IH.
Qed.

(** X2. A pixel box that cannot be mapped makes the coverage check fail. *)
Theorem unmappable_box_is_not_covered (boxes : list AnyBox)
    (img : DomImageData) (selection : SelectionBounds) (box : AnyBox) :
  In box boxes ->
  (Number_isFinite (any_x box) = false
   /\ Number_isFinite (bbox_field bb_x box) = false)
  \/ (Number_isFinite (any_y box) = false
      /\ Number_isFinite (bbox_field bb_y box) = false) ->
  covered (calcUnionAndCoverage (mapOcrBoxesToPage boxes img) selection)
  = false.
Proof.
  intros Hin Hbox.
  assert (N : is_nan (pb_x (pixelBoxToPageBox box img)) = true).
  { unfold pixelBoxToPageBox, pick.
    destruct Hbox as [[H1 H2] | [H1 H2]]; rewrite H1, H2;
      [| rewrite orb_true_r]; reflexivity. }
  unfold calcUnionAndCoverage. cbn [covered].
  pose proof (union_nan (mapOcrBoxesToPage boxes img) emptyUnion
                (pixelBoxToPageBox box img)) as U.
  rewrite (is_nan_eq _ (U (in_map _ _ _ Hin) N)).
  unfold geb. now rewrite nan_leb_r.
Qed.

Lemma unmappable_box_is_not_covered_witness :
  covered (calcUnionAndCoverage
             (mapOcrBoxesToPage [ofPixelBox example_box; idOnlyBox]
                example_geometry)
             {| sb_x := 100; sb_y := 200; sb_w := 300; sb_h := 150;
                sb_minX := None; sb_minY := None;
                sb_maxX := None; sb_maxY := None |}) = false.
Proof.
  apply (unmappable_box_is_not_covered
           [ofPixelBox example_box; idOnlyBox] example_geometry _ idOnlyBox).
  - right. now left.
  - left. split; reflexivity.
Defined.

Lemma combine_firstn_r {A B} (p : list A) (g : list B) (n : nat) :
  (List.length p <= n)%nat -> combine p (firstn n g) = combine p g.
Proof.
  revert g n. induction p as [| a p IH]; intros g n H; [reflexivity |].
  destruct n as [| n]; [cbn in H; lia |].
  destruct g as [| b g]; [reflexivity |].
  cbn. f_equal. apply IH. cbn in H. lia.
Qed.

(** X3. [calcRmse] only looks at the first [n] boxes and points, [n] the
    length of the shorter list, and is [NaN] when there is nothing to
    compare. *)
Theorem calcRmse_shorter_list (pageBoxes : list PageBox)
    (groundBoxes : list Point) :
  let n := Nat.min (List.length pageBoxes) (List.length groundBoxes) in
  calcRmse pageBoxes groundBoxes
  = calcRmse (firstn n pageBoxes) (firstn n groundBoxes)
  /\ (pageBoxes = [] \/ groundBoxes = [] ->
      isNaN (calcRmse pageBoxes groundBoxes) = true).
Proof.
  cbv zeta. split.
  - unfold calcRmse.
    rewrite !length_firstn.
    set (n := Nat.min (List.length pageBoxes) (List.length groundBoxes)).
    replace (Nat.min (Nat.min n (List.length pageBoxes))
               (Nat.min n (List.length groundBoxes))) with n by lia.
    rewrite firstn_firstn, Nat.min_id.
    rewrite combine_firstn_r; [reflexivity |].
    rewrite length_firstn. lia.
  - intros [-> | ->]; unfold calcRmse; cbn [List.length Nat.min].
    + reflexivity.
    + rewrite Nat.min_0_r. reflexivity.
Qed.

(** X4. The intersection over union does not depend on the order of the
    two boxes. *)
Theorem iou_symmetric (boxA boxB : PageBox) : iou boxA boxB = iou boxB boxA.
Proof.
  unfold iou.
  rewrite (max_comm (pb_x boxA)), (max_comm (pb_y boxA)).
  rewrite (min_comm (pb_x boxA + pb_w boxA)), (min_comm (pb_y boxA + pb_h boxA)).
  now rewrite (add_comm (pb_w boxA * pb_h boxA)).
Qed.

(** X5. The intersection over union with a box that could not be mapped
    is [0], not [NaN]. *)
Theorem iou_of_unmappable_box (box : AnyBox) (img : DomImageData)
    (other : PageBox) :
  (Number_isFinite (any_x box) = false
   /\ Number_isFinite (bbox_field bb_x box) = false)
  \/ (Number_isFinite (any_y box) = false
      /\ Number_isFinite (bbox_field bb_y box) = false) ->
  iou (pixelBoxToPageBox box img) other = 0
  /\ iou other (pixelBoxToPageBox box img) = 0.
Proof.
  intros Hbox.
  assert (E : exists i, pixelBoxToPageBox box img
                        = {| pb_id := i; pb_x := NaN; pb_y := NaN;
                             pb_w := NaN; pb_h := NaN |}).
  { unfold pixelBoxToPageBox, pick.
    destruct Hbox as [[H1 H2] | [H1 H2]]; rewrite H1, H2;
      [| rewrite orb_true_r]; eexists; reflexivity. }
  destruct E as (i & ->).
  split; unfold iou; cbn [pb_x pb_y pb_w pb_h].
  - rewrite (max_nan NaN (pb_x other)) by (now left).
    rewrite nan_sub_r, (max_nan 0 NaN) by (now right).
    now rewrite nan_mul_l.
  - rewrite (max_nan (pb_x other) NaN) by (now right).
    rewrite nan_sub_r, (max_nan 0 NaN) by (now right).
    now rewrite nan_mul_l.
Qed.

Lemma iou_of_unmappable_box_witness :
  iou (pixelBoxToPageBox idOnlyBox example_geometry)
      (pixelBoxToPageBox (ofPixelBox example_box) example_geometry) = 0.
Proof.
  apply (proj1 (iou_of_unmappable_box idOnlyBox example_geometry
                  (pixelBoxToPageBox (ofPixelBox example_box)
                     example_geometry)
                  (or_introl (conj eq_refl eq_refl)))).
Defined.

End MappingChecksFacts.

(** ** The scale anomaly *)

Module ScaleFacts.

Import CoordinateMapping Tesseract FloatFacts.

(** A number above 1 is truthy. *)
Lemma gt_one_truthy (d : number) : gtb d 1 = true -> truthy d = true.
Proof.
  unfold gtb, truthy, is_zero. intros H.
  rewrite ltb_spec in H. unfold SFltb in H.
  change (Prim2SF 1) with (S754_finite false 4503599627370496 (-52)) in H.
  assert (N : is_nan d = false).
  { destruct (is_nan d) eqn:E; auto. apply is_nan_iff in E.
    rewrite E in H. discriminate. }
  rewrite N, FloatAxioms.eqb_spec. unfold SFeqb.
  change (Prim2SF 0) with (S754_zero false).
  destruct (Prim2SF d) as [s | s | | s m e]; cbn in *; try discriminate;
    destruct s; reflexivity.
Qed.

Lemma reported_authoritative (d : number) :
  gtb d 1 = true -> reported (Some d) = true.
Proof.
  intros H. unfold reported. now rewrite gt_one_truthy, H.
Qed.

(** The three outcomes of the detection in
    [mapLocalOcrCoordinatesWithAutoCorrection]. *)
Lemma autoCorrection_cases ocrCoord imageSize detected :
  (exists d, detected = Some d /\ gtb d 1 = true
             /\ autoCorrection ocrCoord imageSize detected
                = (d, applyScaleCorrectionToOCRCoordinates ocrCoord d))
  \/ (reported detected = false /\ isOversized ocrCoord imageSize = true
      /\ autoCorrection ocrCoord imageSize detected
         = (2, applyScaleCorrectionToOCRCoordinates ocrCoord 2))
  \/ (reported detected = false /\ isOversized ocrCoord imageSize = false
      /\ autoCorrection ocrCoord imageSize detected = (1, ocrCoord)).
Proof.
  unfold autoCorrection.
  destruct (reported detected) eqn:R.
  - left. destruct detected as [d |]; [| discriminate].
    exists d. cbn in *. apply andb_true_iff in R as [_ R]. auto.
  - right. destruct (isOversized ocrCoord imageSize); auto.
Qed.

(** C3. When the first character is higher than half the image,
    [processImage] records the internal scale factor 2, and 1 otherwise;
    and in [mapLocalOcrCoordinatesWithAutoCorrection] a reported factor
    above 1 is the one applied, the heuristic of an oversized box applies 2
    only without one, and whenever the applied factor [f] is above 1 the
    box handed to the local mapping has [x] and [y] divided by [f], and
    [w] and [h] divided by [f] when they are present. *)
Theorem scale_anomaly_handling :
  (forall (data : RecognizeData) (canvasHeight : number),
      (forall s, firstSymbol data = Some s ->
                 gtb ((y1 (bbox s) - y0 (bbox s)) / canvasHeight) 0.5 = true ->
                 internalScaleFactor data canvasHeight = 2)
      /\ (forall s, firstSymbol data = Some s ->
                    gtb ((y1 (bbox s) - y0 (bbox s)) / canvasHeight) 0.5
                    = false ->
                    internalScaleFactor data canvasHeight = 1)
      /\ (firstSymbol data = None ->
          internalScaleFactor data canvasHeight = 1))
  /\ (forall (ocrCoord : OcrCoord) (selectionBounds : BoundingBox)
             (imageSize : ImageSize) (detected : option number),
         let f := appliedScaleFactor ocrCoord imageSize detected in
         (forall d, detected = Some d -> gtb d 1 = true -> f = d)
         /\ (reported detected = false ->
             isOversized ocrCoord imageSize = true -> f = 2)
         /\ (gtb f 1 = true ->
             mapLocalOcrCoordinatesWithAutoCorrection
               ocrCoord selectionBounds imageSize detected
             = mapLocalOcrCoordinates
                 {| oc_x := oc_x ocrCoord / f;
                    oc_y := oc_y ocrCoord / f;
                    oc_w := match oc_w ocrCoord with
                            | Val n => Val (n / f)
                            | _ => Absent
                            end;
                    oc_h := match oc_h ocrCoord with
                            | Val n => Val (n / f)
                            | _ => Absent
                            end |}
                 selectionBounds)).
Proof.
  split.
  { intros data canvasHeight. unfold internalScaleFactor, charHeightRatio.
    split; [| split].
    - intros s -> H. now rewrite H.
    - intros s -> H. now rewrite H.
    - now intros ->. }
  intros ocrCoord selectionBounds imageSize detected f. subst f.
  unfold mapLocalOcrCoordinatesWithAutoCorrection, correctedOcrCoord,
    appliedScaleFactor.
  destruct (autoCorrection_cases ocrCoord imageSize detected)
    as [(d & Hd & Hgt & E) | [(R & O & E) | (R & O & E)]];
    rewrite E; cbn [fst snd]; (split; [| split]).
  - intros d' Hd' _. congruence.
  - intros R. subst detected. rewrite reported_authoritative in R; auto.
    discriminate.
  - intros _. reflexivity.
  - intros d Hd Hgt. subst detected.
    rewrite reported_authoritative in R; auto. discriminate.
  - intros _ _. reflexivity.
  - intros _. reflexivity.
  - intros d Hd Hgt. subst detected.
    rewrite reported_authoritative in R; auto. discriminate.
  - congruence.
  - intros H. vm_compute in H. discriminate.
Qed.

Lemma scale_anomaly_handling_witness :
  internalScaleFactor (resultWithHeight 300) 450 = 2
  /\ internalScaleFactor (resultWithHeight 40) 450 = 1
  /\ appliedScaleFactor oversized_coord example_image (Some 3) = 3
  /\ appliedScaleFactor oversized_coord example_image None = 2
  /\ mapLocalOcrCoordinatesWithAutoCorrection
       doubled_coord example_selection example_image (Some 2)
     = mapLocalOcrCoordinates
         {| oc_x := 100; oc_y := 50; oc_w := Val 20; oc_h := Val 30 |}
         example_selection.
Proof.
  destruct scale_anomaly_handling as [D C].
  split.
  { apply (proj1 (D (resultWithHeight 300) 450) _ eq_refl). reflexivity. }
  split.
  { apply (proj1 (proj2 (D (resultWithHeight 40) 450)) _ eq_refl).
    reflexivity. }
  split.
  { apply (proj1 (C oversized_coord example_selection example_image
                    (Some 3)) 3); reflexivity. }
  split.
  { apply (proj1 (proj2 (C oversized_coord example_selection example_image
                           None))); reflexivity. }
  rewrite (proj2 (proj2 (C doubled_coord example_selection example_image
                           (Some 2)))) by reflexivity.
  vm_compute. reflexivity.
Defined.

(** C4. For an OCR box within the nominal bounds ([x <= width * 1.5],
    [y <= height * 1.5], [w <= width * 0.8], [h <= height * 0.8]) and
    without a reported internal scale factor above 1,
    [mapLocalOcrCoordinatesWithAutoCorrection] applies the factor 1: the
    corrected box is the box itself, and the result is its plain local
    mapping. *)
Theorem nominal_box_is_left_unchanged
    (ocrCoord : OcrCoord) (selectionBounds : BoundingBox)
    (imageSize : ImageSize) (detected : option number) :
  (oc_x ocrCoord <=? width imageSize * 1.5) = true ->
  (oc_y ocrCoord <=? height imageSize * 1.5) = true ->
  (forall n, oc_w ocrCoord = Val n -> (n <=? width imageSize * 0.8) = true) ->
  (forall n, oc_h ocrCoord = Val n -> (n <=? height imageSize * 0.8) = true) ->
  (forall d, detected = Some d -> gtb d 1 = false) ->
  appliedScaleFactor ocrCoord imageSize detected = 1
  /\ correctedOcrCoord ocrCoord imageSize detected = ocrCoord
  /\ mapLocalOcrCoordinatesWithAutoCorrection
       ocrCoord selectionBounds imageSize detected
     = mapLocalOcrCoordinates ocrCoord selectionBounds.
Proof.
  intros Hx Hy Hw Hh Hd.
  assert (R : reported detected = false).
  { destruct detected as [d |]; [| reflexivity].
    cbn [reported]. rewrite (Hd d eq_refl). apply andb_false_r. }
  assert (O : isOversized ocrCoord imageSize = false).
  { unfold isOversized.
    rewrite (leb_not_gtb _ _ Hx), (leb_not_gtb _ _ Hy). cbn [orb].
    assert (W : truthy_and_gt (oc_w ocrCoord) (width imageSize * 0.8) = false).
    { destruct (oc_w ocrCoord) as [| | n] eqn:E; try reflexivity.
      cbn [truthy_and_gt].
      rewrite (leb_not_gtb _ _ (Hw n eq_refl)). apply andb_false_r. }
    assert (H : truthy_and_gt (oc_h ocrCoord) (height imageSize * 0.8) = false).
    { destruct (oc_h ocrCoord) as [| | n] eqn:E; try reflexivity.
      cbn [truthy_and_gt].
      rewrite (leb_not_gtb _ _ (Hh n eq_refl)). apply andb_false_r. }
    now rewrite W, H. }
  unfold mapLocalOcrCoordinatesWithAutoCorrection, correctedOcrCoord,
    appliedScaleFactor, autoCorrection.
  rewrite R, O. auto.
Qed.

Lemma nominal_box_is_left_unchanged_witness :
  appliedScaleFactor doubled_coord example_image (Some 1) = 1
  /\ correctedOcrCoord doubled_coord example_image (Some 1) = doubled_coord
  /\ mapLocalOcrCoordinatesWithAutoCorrection
       doubled_coord example_selection example_image (Some 1)
     = mapLocalOcrCoordinates doubled_coord example_selection.
Proof.
  apply (nominal_box_is_left_unchanged doubled_coord example_selection
           example_image (Some 1)).
  - reflexivity.
  - reflexivity.
  - intros n [= <-]. reflexivity.
  - intros n [= <-]. reflexivity.
  - intros d [= <-]. reflexivity.
Defined.

End ScaleFacts.

(** ** Reconciliation of the annotations with the OCR boxes *)

Module ReconcileFacts.

Import Ocr Mapping Reconcile FloatFacts.

(** *** The map of character boxes *)

Lemma Map_get_set {V} (m : JsMap V) (k k' : string) (v : V) :
  Map_get (Map_set m k' v) k =
  if String.eqb k' k then Some v else Map_get m k.
Proof.
  induction m as [| [k0 v0] m IH]; cbn.
  - reflexivity.
  - destruct (String.eqb k0 k') eqn:E0; cbn.
    + apply String.eqb_eq in E0. subst k0.
      now destruct (String.eqb k' k).
    + rewrite IH. destruct (String.eqb k0 k) eqn:E1; auto.
      destruct (String.eqb k' k) eqn:E2; auto.
      apply String.eqb_eq in E1, E2. subst. now rewrite String.eqb_refl in E0.
Qed.

Lemma find_snoc {A} (p : A -> bool) (l : list A) (a : A) :
  find p (l ++ [a]) =
  match find p l with
  | Some b => Some b
  | None => if p a then Some a else None
  end.
Proof.
  induction l as [| b l IH]; cbn; [reflexivity |].
  now destruct (p b).
Qed.

Lemma Map_get_fold (chars : list CharacterBox) (m : JsMap CharacterBox)
    (k : string) :
  Map_get
    (fold_left (fun m kv => Map_set m (fst kv) (snd kv))
       (map (fun c => (char_id c, c)) chars) m) k =
  match canonical chars k with
  | Some c => Some c
  | None => Map_get m k
  end.
Proof.
  unfold canonical. revert m.
  induction chars as [| c chars IH]; intros m; cbn [map fold_left rev].
  - reflexivity.
  - rewrite IH, find_snoc. cbn [fst snd].
    destruct (find _ (rev chars)); [reflexivity |].
    rewrite Map_get_set. now destruct (String.eqb (char_id c) k).
Qed.

(** The lookup of [charMap] gives the canonical box of the id. *)
Lemma charMap_get (chars : list CharacterBox) (k : string) :
  Map_get (charMapOf chars) k = canonical chars k.
Proof.
  unfold charMapOf, Map_of. rewrite Map_get_fold.
  now destruct (canonical chars k).
Qed.

Lemma canonical_none (chars : list CharacterBox) (k : string) :
  (forall c, In c chars -> char_id c <> k) -> canonical chars k = None.
Proof.
  intros H. unfold canonical.
  destruct (find _ (rev chars)) as [c |] eqn:E; [| reflexivity].
  apply find_some in E as [Hin Hk].
  apply in_rev in Hin. apply String.eqb_eq in Hk.
  now apply H in Hin.
Qed.

Lemma canonical_some (chars : list CharacterBox) (k : string) c :
  canonical chars k = Some c -> In c chars /\ char_id c = k.
Proof.
  unfold canonical. intros E. apply find_some in E as [Hin Hk].
  split; [now apply in_rev | now apply String.eqb_eq].
Qed.

(** *** [validateAndFixGPTCoordinates] *)

Lemma fixed_nth gptErrors chars i e :
  nth_error gptErrors i = Some e ->
  nth_error (fst (validateAndFixGPTCoordinates gptErrors chars)) i
  = Some (fst (fixError (charMapOf chars) e)).
Proof.
  intros H. unfold validateAndFixGPTCoordinates. cbn [fst].
  rewrite map_map. now rewrite nth_error_map, H.
Qed.

Lemma fixError_same charMap e : sameAnnotation (fst (fixError charMap e)) e.
Proof.
  unfold fixError, sameAnnotation.
  destruct (Map_get charMap (id e)) as [c |]; cbn; auto.
  destruct (negb (coordsMatch e c)); cbn; auto.
Qed.

(** C6. [validateAndFixGPTCoordinates] returns as many annotations as it
    received, the one at each position being the input one at that position
    with at most its [bbox] and [center] replaced; an annotation whose id
    belongs to no character box is returned as it is, and its id is
    reported with a warning. *)
Theorem unknown_id_passthrough
    (gptErrors : list HandwritingError) (ocrCharBoxes : list CharacterBox) :
  let fixedErrors := fst (validateAndFixGPTCoordinates gptErrors ocrCharBoxes) in
  let warnings := snd (validateAndFixGPTCoordinates gptErrors ocrCharBoxes) in
  List.length fixedErrors = List.length gptErrors
  /\ (forall i e, nth_error gptErrors i = Some e ->
        exists e', nth_error fixedErrors i = Some e'
                   /\ sameAnnotation e' e
                   /\ ((forall c, In c ocrCharBoxes -> char_id c <> id e) ->
                       e' = e /\ In (UnknownCharId (id e)) warnings)).
Proof.
  cbv zeta. split.
  - unfold validateAndFixGPTCoordinates. cbn [fst].
    now rewrite !length_map.
  - intros i e Hi.
    exists (fst (fixError (charMapOf ocrCharBoxes) e)).
    split; [now apply fixed_nth |].
    split; [apply fixError_same |].
    intros Hno.
    assert (E : fixError (charMapOf ocrCharBoxes) e
                = (e, [UnknownCharId (id e)])).
    { unfold fixError.
      now rewrite charMap_get, (canonical_none _ _ Hno). }
    split; [now rewrite E |].
    unfold validateAndFixGPTCoordinates. cbn [snd].
    apply in_concat. exists [UnknownCharId (id e)].
    split; [| now left].
    apply in_map_iff. exists (e, [UnknownCharId (id e)]).
    split; [reflexivity |].
    apply in_map_iff. exists e. split; [exact E |].
    eapply nth_error_In; eassumption.
Qed.

Lemma unknown_id_passthrough_witness :
  fst (validateAndFixGPTCoordinates [driftedError; strayError] [knownChar])
  = [ with_bbox_center driftedError (char_bbox knownChar)
        (char_center knownChar);
      strayError ]
  /\ In (UnknownCharId "c404")
        (snd (validateAndFixGPTCoordinates [driftedError; strayError]
                [knownChar])).
Proof.
  pose proof (unknown_id_passthrough [driftedError; strayError] [knownChar])
    as H.
  cbv zeta in H. destruct H as [_ H].
  destruct (H 1%nat strayError eq_refl) as (e' & _ & _ & P).
  split; [vm_compute; reflexivity |].
  apply P. intros c [<- | []]. discriminate.
Defined.

(** *** The mapping of the validated annotations to the page *)

(** Boxes whose four numbers are similar are mapped to page boxes whose
    four numbers are similar. *)
Lemma pixelBoxToPageBox_sim (a b : AnyBox) (img : DomImageData)
    (ax ay aw ah bx by_ bw bh : number) :
  pick (any_x a) (bbox_field bb_x a) = Some ax ->
  pick (any_y a) (bbox_field bb_y a) = Some ay ->
  pick (any_w a) (bbox_field bb_w a) = Some aw ->
  pick (any_h a) (bbox_field bb_h a) = Some ah ->
  pick (any_x b) (bbox_field bb_x b) = Some bx ->
  pick (any_y b) (bbox_field bb_y b) = Some by_ ->
  pick (any_w b) (bbox_field bb_w b) = Some bw ->
  pick (any_h b) (bbox_field bb_h b) = Some bh ->
  sim ax bx -> sim ay by_ -> sim aw bw -> sim ah bh ->
  sim (pb_x (pixelBoxToPageBox a img)) (pb_x (pixelBoxToPageBox b img))
  /\ sim (pb_y (pixelBoxToPageBox a img)) (pb_y (pixelBoxToPageBox b img))
  /\ sim (pb_w (pixelBoxToPageBox a img)) (pb_w (pixelBoxToPageBox b img))
  /\ sim (pb_h (pixelBoxToPageBox a img)) (pb_h (pixelBoxToPageBox b img)).
Proof.
  intros A1 A2 A3 A4 B1 B2 B3 B4 Sx Sy Sw Sh.
  unfold pixelBoxToPageBox.
  rewrite A1, A2, A3, A4, B1, B2, B3, B4.
  cbn [Number_isFinite ToNumber].
  rewrite (sim_is_finite _ _ Sx), (sim_is_finite _ _ Sy).
  destruct (negb (is_finite bx) || negb (is_finite by_));
    cbn [pb_x pb_y pb_w pb_h].
  - repeat split; apply sim_refl.
  - assert (X1 : forall o s, sim (o + ax * s) (o + bx * s))
      by (intros; apply sim_add; [apply sim_refl | now apply sim_mul_l]).
    assert (Y1 : forall o s, sim (o + ay * s) (o + by_ * s))
      by (intros; apply sim_add; [apply sim_refl | now apply sim_mul_l]).
    assert (X2 : forall o s, sim (o + (ax + aw) * s) (o + (bx + bw) * s))
      by (intros; apply sim_add; [apply sim_refl |];
          apply sim_mul_l; now apply sim_add).
    assert (Y2 : forall o s, sim (o + (ay + ah) * s) (o + (by_ + bh) * s))
      by (intros; apply sim_add; [apply sim_refl |];
          apply sim_mul_l; now apply sim_add).
    repeat split; auto using sim_sub.
Qed.

Lemma pick_same (v : number) : pick (Some v) (Some v) = Some v.
Proof. unfold pick. now destruct (Number_isFinite (Some v)). Qed.

(** After validation the box of an annotation with a canonical box is
    that box, number by number, up to the sign of a zero. *)
Lemma fixError_bbox chars e c :
  canonical chars (id e) = Some c ->
  let e1 := fst (fixError (charMapOf chars) e) in
  sim (x (bbox e1)) (x (char_bbox c)) /\ sim (y (bbox e1)) (y (char_bbox c))
  /\ sim (w (bbox e1)) (w (char_bbox c)) /\ sim (h (bbox e1)) (h (char_bbox c)).
Proof.
  intros Hc. cbv zeta. unfold fixError. rewrite charMap_get, Hc.
  destruct (coordsMatch e c) eqn:M; cbn [negb fst].
  - unfold coordsMatch, strict_eq in M.
    apply andb_true_iff in M as [M Mh].
    apply andb_true_iff in M as [M Mw].
    apply andb_true_iff in M as [Mx My].
    repeat split; now apply eqb_sim.
  - cbn. repeat split; apply sim_refl.
Qed.

Lemma converted_nth fixed img i e1 :
  nth_error fixed i = Some e1 ->
  nth_error (convertErrors fixed img) i =
  Some (if hasNaN (pixelBoxToPageBox (errorAsBox e1) img) then e1
        else withMappedBox e1 (pixelBoxToPageBox (errorAsBox e1) img)).
Proof.
  unfold convertErrors, mapOcrBoxesToPage. rewrite map_map.
  revert i. induction fixed as [| a fixed IH]; intros [| i] H; cbn in *;
    try discriminate.
  - now injection H as ->.
  - now apply IH.
Qed.

Lemma hasNaN_sim (p q : PageBox) :
  sim (pb_x p) (pb_x q) -> sim (pb_y p) (pb_y q) ->
  sim (pb_w p) (pb_w q) -> sim (pb_h p) (pb_h q) ->
  hasNaN p = hasNaN q.
Proof.
  intros Sx Sy Sw Sh. unfold hasNaN, isNaN.
  now rewrite (sim_is_nan _ _ Sx), (sim_is_nan _ _ Sy),
    (sim_is_nan _ _ Sw), (sim_is_nan _ _ Sh).
Qed.

Lemma hasNaN_false (p : PageBox) :
  hasNaN p = false ->
  is_nan (pb_x p) = false /\ is_nan (pb_y p) = false
  /\ is_nan (pb_w p) = false /\ is_nan (pb_h p) = false.
Proof.
  unfold hasNaN, isNaN. intros H.
  apply orb_false_iff in H as [H Hh].
  apply orb_false_iff in H as [H Hw].
  apply orb_false_iff in H as [Hx Hy]. auto.
Qed.

(** C5. For every annotation whose id is that of a canonical OCR character
    box, whatever [bbox] and [center] it came with, the annotation that
    reconciliation (validation, then the mapping to the page) puts at its
    position has a [bbox] [===] to [pixelBoxToPageBox] of the canonical box
    under the image geometry, and a [center] that is the midpoint of that
    [bbox]; the mapped canonical box is supposed to hold no [NaN]. *)
Theorem reconciliation_fidelity
    (gptErrors : list HandwritingError) (ocrCharBoxes : list CharacterBox)
    (imageData : DomImageData) (i : nat) (e : HandwritingError)
    (c : CharacterBox) :
  nth_error gptErrors i = Some e ->
  canonical ocrCharBoxes (id e) = Some c ->
  hasNaN (pixelBoxToPageBox (charAsBox c) imageData) = false ->
  let page := pixelBoxToPageBox (charAsBox c) imageData in
  exists r,
    nth_error (reconcile gptErrors ocrCharBoxes imageData) i = Some r
    /\ sameAnnotation r e
    /\ strict_eq (x (bbox r)) (pb_x page) = true
    /\ strict_eq (y (bbox r)) (pb_y page) = true
    /\ strict_eq (w (bbox r)) (pb_w page) = true
    /\ strict_eq (h (bbox r)) (pb_h page) = true
    /\ center r = {| px := x (bbox r) + w (bbox r) / 2;
                     py := y (bbox r) + h (bbox r) / 2 |}.
Proof.
  intros Hi Hc Hnan page. subst page.
  set (e1 := fst (fixError (charMapOf ocrCharBoxes) e)).
  pose proof (fixError_bbox ocrCharBoxes e c Hc) as (Sx & Sy & Sw & Sh).
  fold e1 in Sx, Sy, Sw, Sh.
  pose proof (pixelBoxToPageBox_sim (errorAsBox e1) (charAsBox c) imageData
                _ _ _ _ _ _ _ _
                (pick_same _) (pick_same _) (pick_same _) (pick_same _)
                eq_refl eq_refl eq_refl eq_refl Sx Sy Sw Sh)
    as (Px & Py & Pw & Ph).
  pose proof (hasNaN_sim _ _ Px Py Pw Ph) as N. rewrite Hnan in N.
  destruct (hasNaN_false _ N) as (Nx & Ny & Nw & Nh).
  exists (withMappedBox e1 (pixelBoxToPageBox (errorAsBox e1) imageData)).
  split.
  { unfold reconcile.
    rewrite (converted_nth _ imageData i e1)
      by (now apply fixed_nth).
    now rewrite N. }
  split.
  { pose proof (fixError_same (charMapOf ocrCharBoxes) e) as S.
    fold e1 in S. exact S. }
  cbn [withMappedBox with_bbox_center bbox center x y w h].
  unfold strict_eq.
  repeat split; try (now apply sim_eqb).
Qed.

Lemma reconciliation_fidelity_witness :
  exists r,
    nth_error (reconcile [driftedError; strayError] [knownChar]
                 example_geometry) 0 = Some r
    /\ strict_eq (x (bbox r)) 130 = true
    /\ strict_eq (y (bbox r)) 215 = true
    /\ strict_eq (w (bbox r)) 10 = true
    /\ strict_eq (h (bbox r)) 15 = true
    /\ center r = {| px := x (bbox r) + w (bbox r) / 2;
                     py := y (bbox r) + h (bbox r) / 2 |}.
Proof.
  destruct (reconciliation_fidelity [driftedError; strayError] [knownChar]
              example_geometry 0 driftedError knownChar
              eq_refl eq_refl eq_refl)
    as (r & Hr & _ & Hx & Hy & Hw & Hh & Hc).
  exists r. repeat split; assumption.
Defined.

End ReconcileFacts.

(** ** A second pass of the validation *)

Module RevalidationFacts.

Import Ocr Mapping Reconcile FloatFacts ReconcileFacts.

Lemma strict_eq_refl (v : number) : isNaN v = false -> strict_eq v v = true.
Proof. intros H. unfold strict_eq. apply sim_eqb; [apply sim_refl | exact H]. Qed.

Lemma coordsMatch_fixed error ocrChar c :
  noNaN (char_bbox ocrChar) = true ->
  coordsMatch (with_bbox_center error (char_bbox ocrChar) c) ocrChar = true.
Proof.
  unfold noNaN, coordsMatch. intros H. apply negb_true_iff in H.
  apply orb_false_iff in H as [H Hh]. apply orb_false_iff in H as [H Hw].
  apply orb_false_iff in H as [Hx Hy].
  cbn [bbox with_bbox_center].
  now rewrite !strict_eq_refl.
Qed.

(** A second pass over an annotation changes nothing. *)
Lemma fixError_idempotent charMap error :
  fst (fixError charMap (fst (fixError charMap error)))
  = fst (fixError charMap error).
Proof.
  unfold fixError.
  destruct (Map_get charMap (id error)) as [ocrChar |] eqn:G.
  - destruct (negb (coordsMatch error ocrChar)) eqn:C; cbn [fst].
    + cbn [id with_bbox_center]. rewrite G.
      destruct (negb (coordsMatch
                        (with_bbox_center error (char_bbox ocrChar)
                           (char_center ocrChar)) ocrChar)); reflexivity.
    + rewrite G, C. reflexivity.
  - cbn [fst]. rewrite G. reflexivity.
Qed.

(** The warnings of the second pass: the unknown ids again. *)
Lemma fixError_warns_again chars error :
  Forall (fun c => noNaN (char_bbox c) = true) chars ->
  snd (fixError (charMapOf chars) (fst (fixError (charMapOf chars) error)))
  = filter isUnknownCharId (snd (fixError (charMapOf chars) error)).
Proof.
  intros H. unfold fixError.
  destruct (Map_get (charMapOf chars) (id error)) as [ocrChar |] eqn:G.
  - assert (N : noNaN (char_bbox ocrChar) = true).
    { rewrite charMap_get in G. apply canonical_some in G as [Hin _].
      rewrite Forall_forall in H. now apply H. }
    destruct (negb (coordsMatch error ocrChar)) eqn:C; cbn [fst snd].
    + cbn [id with_bbox_center]. rewrite G.
      rewrite (coordsMatch_fixed error ocrChar _ N).
      reflexivity.
    + now rewrite G, C.
  - cbn [fst snd]. now rewrite G.
Qed.

(** X6. A second pass of [validateAndFixGPTCoordinates] over its own result
    returns that result: the function is idempotent.  When no character
    box holds a [NaN], the second pass fixes no coordinates: its warnings
    are the warnings of the first pass for unknown ids. *)
Theorem validation_is_idempotent (gptErrors : list HandwritingError)
    (ocrCharBoxes : list CharacterBox) :
  let once := validateAndFixGPTCoordinates gptErrors ocrCharBoxes in
  let twice := validateAndFixGPTCoordinates (fst once) ocrCharBoxes in
  fst twice = fst once
  /\ (Forall (fun c => noNaN (char_bbox c) = true) ocrCharBoxes ->
      snd twice = filter isUnknownCharId (snd once)).
Proof.
  cbv zeta. unfold validateAndFixGPTCoordinates. cbn [fst snd].
  rewrite !map_map. split.
  - apply map_ext. intros e. apply fixError_idempotent.
  - intros H. induction gptErrors as [| e rest IH]; [reflexivity |].
    cbn [map List.concat]. rewrite filter_app, <- IH.
    now rewrite fixError_warns_again.
Qed.

End RevalidationFacts.

(** ** The candidates of a suggestion card *)

Module CandidateFacts.

Import Ocr SmartPositioning FloatFacts OrderFacts.

(** *** Calls that do not throw *)

Lemma mapM_some {A B} (f : A -> throws B) (l : list A) :
  (forall a, In a l -> exists b, f a = Some b) ->
  exists bs, mapM f l = Some bs.
Proof.
  induction l as [| a l IH]; intros H; cbn.
  - eauto.
  - destruct (H a (or_introl eq_refl)) as (b & ->).
    destruct IH as (bs & ->); [intros; apply H; now right |].
    cbn. eauto.
Qed.

Lemma mapM_In {A B} (f : A -> throws B) (l : list A) (bs : list B) (b : B) :
  mapM f l = Some bs -> In b bs -> exists a, In a l /\ f a = Some b.
Proof.
  revert bs. induction l as [| a l IH]; intros bs; cbn.
  - intros [= <-] [].
  - destruct (f a) as [b' |] eqn:E; [| discriminate]. cbn.
    destruct (mapM f l) as [bs' |]; [| discriminate]. cbn.
    intros [= <-] [<- | Hin]; [eauto |].
    destruct (IH bs' eq_refl Hin) as (a' & Ha & Hf). eauto.
Qed.

Lemma mapM_length {A B} (f : A -> throws B) (l : list A) (bs : list B) :
  mapM f l = Some bs -> List.length bs = List.length l.
Proof.
  revert bs. induction l as [| a l IH]; intros bs; cbn.
  - now intros [= <-].
  - destruct (f a) as [b' |]; [| discriminate]. cbn.
    destruct (mapM f l) as [bs' |]; [| discriminate]. cbn.
    intros [= <-]. cbn. f_equal. now apply IH.
Qed.

Lemma visited_lt lo hi n i : In i (visited lo hi n) -> (i < n)%nat.
Proof.
  unfold visited. intros H. apply filter_In in H as [H _].
  apply in_seq in H. lia.
Qed.

Lemma calculateDensityPenalty_returns position cardSize viewportBounds grid :
  consistent grid ->
  exists v, calculateDensityPenalty position cardSize viewportBounds grid
            = Some v.
Proof.
  intros C. unfold calculateDensityPenalty. cbv zeta.
  match goal with
  | |- context [mapM ?f ?l] => destruct (mapM_some f l) as (ds & ->)
  end.
  - intros [row col] Hin. apply in_prod_iff in Hin as [Hrow _].
    apply visited_lt in Hrow. unfold densityAt. cbn [fst snd].
    destruct (nth_error (density grid) row) eqn:E; [eauto |].
    apply nth_error_None in E. unfold consistent in C. lia.
  - cbn. eauto.
Qed.

(** [Math.max(0, score)] is not below zero. *)
Lemma max_zero_not_negative (v : number) : (JsMath.max 0 v <? 0) = false.
Proof.
  unfold JsMath.max.
  destruct (is_nan 0 || is_nan v) eqn:N; [reflexivity |].
  destruct (0 <? v) eqn:L; [now apply ltb_antisym |].
  destruct (v <? 0) eqn:L'; [reflexivity |].
  change (get_sign 0) with false. cbn iota. reflexivity.
Qed.

Lemma calculatePositionScore_returns position cardSize errorPosition
    viewportBounds grid :
  consistent grid ->
  exists v, calculatePositionScore position cardSize errorPosition
              viewportBounds grid = Some v.
Proof.
  intros C. unfold calculatePositionScore.
  destruct (calculateDensityPenalty_returns position cardSize viewportBounds
              grid C) as (v & ->).
  cbn. eauto.
Qed.

Lemma calculatePositionScore_not_negative position cardSize errorPosition
    viewportBounds grid v :
  calculatePositionScore position cardSize errorPosition viewportBounds grid
  = Some v ->
  (v <? 0) = false.
Proof.
  unfold calculatePositionScore.
  destruct (calculateDensityPenalty position cardSize viewportBounds grid);
    [| discriminate].
  cbn. intros [= <-]. apply max_zero_not_negative.
Qed.

(** X7. The score of a position is never below zero (it is [NaN] when the
    density is), and the scoring returns on every grid whose [density]
    holds [height] rows. *)
Theorem position_score_is_not_negative (position : Point) (cardSize : Size)
    (errorPosition : Point) (viewportBounds : Box) (grid : SpatialGrid) :
  (forall score,
      calculatePositionScore position cardSize errorPosition viewportBounds
        grid = Some score ->
      (score <? 0) = false)
  /\ ((height grid <= List.length (density grid))%nat ->
      exists score,
        calculatePositionScore position cardSize errorPosition
          viewportBounds grid = Some score).
Proof.
  split.
  - intros score. apply calculatePositionScore_not_negative.
  - apply calculatePositionScore_returns.
Qed.

(** *** The candidates *)

Lemma insertSorted_In {A} (compare : A -> A -> number) (a b : A) (l : list A) :
  In b (insertSorted compare a l) <-> a = b \/ In b l.
Proof.
  induction l as [| c l IH]; cbn [insertSorted].
  - cbn. tauto.
  - destruct (gtb (compare a c) 0); cbn [In]; [| tauto].
    destruct IH as [IH1 IH2]. split.
    + intros [H | H]; [tauto |]. apply IH1 in H. tauto.
    + intros [H | [H | H]]; [| tauto |]; right; apply IH2; tauto.
Qed.

Lemma sort_In {A} (compare : A -> A -> number) (b : A) (l : list A) :
  In b (sort compare l) <-> In b l.
Proof.
  unfold sort. induction l as [| a l IH]; cbn; [reflexivity |].
  destruct IH as [IH1 IH2]. split.
  - intros H. apply insertSorted_In in H as [H | H]; [tauto |].
    right. now apply IH1.
  - intros [H | H]; apply insertSorted_In; [tauto |]. right. now apply IH2.
Qed.

Lemma insertSorted_length {A} (compare : A -> A -> number) (a : A)
    (l : list A) :
  List.length (insertSorted compare a l) = S (List.length l).
Proof.
  induction l as [| c l IH]; cbn [insertSorted]; [reflexivity |].
  destruct (gtb (compare a c) 0); cbn [List.length]; congruence.
Qed.

Lemma sort_length {A} (compare : A -> A -> number) (l : list A) :
  List.length (sort compare l) = List.length l.
Proof.
  unfold sort. induction l as [| a l IH]; cbn [fold_right]; [reflexivity |].
  rewrite insertSorted_length, IH. reflexivity.
Qed.

Lemma candidateAt_In errorPosition cardSize viewportBounds grid dir distance
    cs c :
  candidateAt errorPosition cardSize viewportBounds grid dir distance
  = Some cs ->
  In c cs ->
  cand_x c = px errorPosition + dx dir * distance
  /\ cand_y c = py errorPosition + dy dir * distance
  /\ cardInside (cand_x c) (cand_y c) cardSize viewportBounds = true
  /\ direction c = name dir /\ distance_to_error c = distance
  /\ (score c <? 0) = false.
Proof.
  unfold candidateAt. cbv zeta. fold (cardInside
    (px errorPosition + dx dir * distance)
    (py errorPosition + dy dir * distance) cardSize viewportBounds).
  destruct (cardInside _ _ cardSize viewportBounds) eqn:I.
  - destruct (calculatePositionScore _ cardSize errorPosition viewportBounds
                grid) as [s |] eqn:S; [| discriminate].
    cbn. intros [= <-] [<- | []]. cbn.
    repeat split; auto.
    eapply calculatePositionScore_not_negative, S.
  - intros [= <-] [].
Qed.

Lemma candidateAt_length errorPosition cardSize viewportBounds grid dir
    distance cs :
  candidateAt errorPosition cardSize viewportBounds grid dir distance
  = Some cs ->
  (List.length cs <= 1)%nat.
Proof.
  unfold candidateAt. cbv zeta.
  destruct (_ && _ && _ && _).
  - destruct (calculatePositionScore _ _ _ _ _); [| discriminate].
    cbn. intros [= <-]. cbn. lia.
  - intros [= <-]. cbn. lia.
Qed.

Lemma concat_length_le {A} (ls : list (list A)) (k : nat) :
  (forall l, In l ls -> (List.length l <= k)%nat) ->
  (List.length (List.concat ls) <= List.length ls * k)%nat.
Proof.
  induction ls as [| l ls IH]; intros H; cbn; [lia |].
  rewrite length_app.
  pose proof (H l (or_introl eq_refl)).
  pose proof (IH (fun l' Hl => H l' (or_intror Hl))). lia.
Qed.

Lemma generated_In errorPosition cardSize viewportBounds grid cs c :
  generatePositionCandidates errorPosition cardSize viewportBounds grid
  = Some cs ->
  In c cs ->
  exists dir distance,
    In dir directions /\ In distance DISTANCE_OPTIONS
    /\ cand_x c = px errorPosition + dx dir * distance
    /\ cand_y c = py errorPosition + dy dir * distance
    /\ cardInside (cand_x c) (cand_y c) cardSize viewportBounds = true
    /\ direction c = name dir /\ distance_to_error c = distance
    /\ (score c <? 0) = false.
Proof.
  unfold generatePositionCandidates.
  destruct (mapM _ (list_prod directions DISTANCE_OPTIONS)) as [css |] eqn:M;
    [| discriminate].
  cbn. intros [= <-] Hin. apply sort_In in Hin.
  apply in_concat in Hin as (l & Hl & Hc).
  destruct (mapM_In _ _ _ _ M Hl) as ([dir distance] & Hdd & Hf).
  apply in_prod_iff in Hdd as [Hdir Hdist]. cbn [fst snd] in Hf.
  exists dir, distance. split; [exact Hdir |]. split; [exact Hdist |].
  eapply candidateAt_In; eassumption.
Qed.

Lemma generated_length errorPosition cardSize viewportBounds grid cs :
  generatePositionCandidates errorPosition cardSize viewportBounds grid
  = Some cs ->
  (List.length cs <= 32)%nat.
Proof.
  unfold generatePositionCandidates.
  destruct (mapM _ (list_prod directions DISTANCE_OPTIONS)) as [css |] eqn:M;
    [| discriminate].
  cbn. intros [= <-]. rewrite sort_length.
  pose proof (mapM_length _ _ _ M) as L.
  pose proof (concat_length_le css 1) as C.
  assert (forall l, In l css -> (List.length l <= 1)%nat).
  { intros l Hl. destruct (mapM_In _ _ _ _ M Hl) as ([dir distance] & _ & Hf).
    eapply candidateAt_length, Hf. }
  specialize (C H). rewrite L in C. cbn in C. lia.
Qed.

Lemma generated_returns errorPosition cardSize viewportBounds grid :
  consistent grid ->
  exists cs,
    generatePositionCandidates errorPosition cardSize viewportBounds grid
    = Some cs.
Proof.
  intros C. unfold generatePositionCandidates.
  match goal with
  | |- context [mapM ?f ?l] => destruct (mapM_some f l) as (css & ->)
  end.
  - intros [dir distance] _. unfold candidateAt. cbv zeta. cbn [fst snd].
    destruct (_ && _ && _ && _); [| eauto].
    match goal with
    | |- context [calculatePositionScore ?p ?c ?e ?v ?g] =>
        destruct (calculatePositionScore_returns p c e v g C) as (s & ->)
    end.
    cbn. eauto.
  - cbn. eauto.
Qed.

(** X8. [generatePositionCandidates] returns at most 32 candidates; each
    sits at one of the four distances from the error in one of the eight
    directions, with its card inside the viewport and a score that is not
    below zero. *)
Theorem candidates_lie_in_the_viewport (errorPosition : Point)
    (cardSize : Size) (viewportBounds : Box) (grid : SpatialGrid)
    (candidates : list PositionCandidate) :
  generatePositionCandidates errorPosition cardSize viewportBounds grid
  = Some candidates ->
  (List.length candidates <= 32)%nat
  /\ forall c, In c candidates ->
       geb (cand_x c) (x viewportBounds) = true
       /\ (cand_x c + sz_width cardSize
           <=? x viewportBounds + w viewportBounds) = true
       /\ geb (cand_y c) (y viewportBounds) = true
       /\ (cand_y c + sz_height cardSize
           <=? y viewportBounds + h viewportBounds) = true
       /\ In (distance_to_error c) [80; 120; 160; 200]
       /\ In (direction c)
             ["N"; "NE"; "E"; "SE"; "S"; "SW"; "W"; "NW"]%string
       /\ (score c <? 0) = false.
Proof.
  intros G. split; [eapply generated_length, G |].
  intros c Hc.
  destruct (generated_In _ _ _ _ _ c G Hc)
    as (dir & distance & Hdir & Hdist & _ & _ & I & Hd & He & Hs).
  unfold cardInside in I.
  apply andb_true_iff in I as [I I4]. apply andb_true_iff in I as [I I3].
  apply andb_true_iff in I as [I1 I2].
  repeat split; auto.
  - rewrite He. exact Hdist.
  - rewrite Hd. unfold directions in Hdir. cbn in Hdir.
    repeat (destruct Hdir as [<- | Hdir]; [cbn; tauto |]). destruct Hdir.
Qed.

Lemma candidates_lie_in_the_viewport_witness :
  exists candidates,
    generatePositionCandidates {| px := 500; py := 1000 |} defaultCardSize
      wideViewport (emptyGrid 32 62.5) = Some candidates
    /\ (List.length candidates <= 32)%nat.
Proof.
  assert (H : exists candidates,
             generatePositionCandidates {| px := 500; py := 1000 |}
               defaultCardSize wideViewport (emptyGrid 32 62.5)
             = Some candidates)
    by (eexists; vm_compute; reflexivity).
  destruct H as (candidates & H). exists candidates.
  split; [exact H |].
  apply (candidates_lie_in_the_viewport _ _ _ _ _ H).
Defined.

End CandidateFacts.

(** ** The placement of the suggestion cards *)

Module LayoutFacts.

Import Ocr SmartPositioning FloatFacts CandidateFacts.

(** With the two errors 210 apart both cards go up and to the right of
    their error, 30 apart: neither placement is a fallback, the second card
    is clear of the buffered footprint of the first, and the two buffered
    footprints meet.  And for the error centred at [(2^60, 2^60)] the call
    with the viewport that holds no candidate, which takes the fallback,
    and the call with the viewport that holds the candidates to the east
    and the south, which does not, return the same placement: [2^60 + 100]
    and [2^60 + 80] are both [2^60]. *)
Lemma buffers_meet_and_fallback_hides :
  (exists p q,
      optimizeMultipleErrorLayout neighbouringErrors wideViewport
        (emptyGrid 32 62.5) defaultCardSize = Some [p; q]
      /\ usedFallback neighbouringErrors wideViewport (emptyGrid 32 62.5)
           defaultCardSize = Some [false; false]
      /\ cardFootprint p = {| x := 580; y := 920; w := 180; h := 120 |}
      /\ cardFootprint q = {| x := 790; y := 920; w := 180; h := 120 |}
      /\ rectsIntersect (cardFootprint q) (bufferedFootprint p) = false
      /\ rectsIntersect (bufferedFootprint p) (bufferedFootprint q) = true
      /\ rectsIntersect (bufferedFootprint q) (bufferedFootprint p) = true)
  /\ (exists p,
        optimizeMultipleErrorLayout [farError] pointViewport
          (emptyGrid 32 0) defaultCardSize = Some [p]
        /\ usedFallback [farError] pointViewport (emptyGrid 32 0)
             defaultCardSize = Some [true]
        /\ optimizeMultipleErrorLayout [farError] farViewport
             (emptyGrid 32 8) defaultCardSize = Some [p]
        /\ usedFallback [farError] farViewport (emptyGrid 32 8)
             defaultCardSize = Some [false]).
Proof.
  split.
  - eexists. eexists.
    split; [vm_compute; reflexivity |].
    repeat split; vm_compute; reflexivity.
  - eexists.
    split; [vm_compute; reflexivity |].
    repeat split; vm_compute; reflexivity.
Qed.

Lemma placeError_placements vp grid card st error index st' :
  placeError vp grid card st error index = Some st' ->
  exists p, placements st' = placements st ++ [p]
            /\ leadLineStart p = errorCenterOf error
            /\ sp_width p = sz_width card /\ sp_height p = sz_height card.
Proof.
  unfold placeError.
  destruct (freeCandidates error vp grid card (usedPositions st))
    as [[| best cs] |]; cbn; intros [= <-]; cbn; eauto.
Qed.

(** The invariant of the loop, for the errors still to place: a card
    placed from a candidate is clear of every rectangle already recorded
    and of the buffered footprint of every card placed from a candidate
    before it; a card placed by the fallback sits 100 to the right of the
    centre of its error, half its height above it. *)
Lemma forEachError_clear vp grid card errors :
  forall index st st' flags,
    forEachError vp grid card errors index st = Some st' ->
    fallbackFlags vp grid card errors index st = Some flags ->
    exists ps,
      placements st' = placements st ++ ps
      /\ List.length ps = List.length errors
      /\ List.length flags = List.length errors
      /\ (forall j pj,
             nth_error ps j = Some pj -> nth_error flags j = Some false ->
             (forall u, In u (usedPositions st) ->
                        rectsIntersect (cardFootprint pj) u = false)
             /\ (forall i pi,
                    (i < j)%nat -> nth_error ps i = Some pi ->
                    nth_error flags i = Some false ->
                    rectsIntersect (cardFootprint pj) (bufferedFootprint pi)
                    = false))
      /\ (forall j pj,
             nth_error ps j = Some pj -> nth_error flags j = Some true ->
             sp_x pj = px (leadLineStart pj) + 100
             /\ sp_y pj = py (leadLineStart pj) - sp_height pj / 2).
Proof.
  induction errors as [| error rest IH]; intros index st st' flags.
  - cbn. intros [= <-] [= <-]. exists []. rewrite app_nil_r.
    split; [reflexivity |]. split; [reflexivity |]. split; [reflexivity |].
    split; intros [| j] pj Hj; discriminate Hj.
  - cbn [forEachError fallbackFlags]. unfold bind at 1 3 4.
    unfold placeError at 1 2. unfold bind at 1 3.
    destruct (freeCandidates error vp grid card (usedPositions st))
      as [candidates |] eqn:F; [| discriminate].
    unfold freeCandidates, SmartPositioning.bind in F.
    destruct (generatePositionCandidates (errorCenterOf error) card vp grid)
      as [generated |]; [| discriminate].
    injection F as F.
    destruct candidates as [| best cs].
    + (* the fallback *)
      set (st1 := {| placements := _; usedPositions := usedPositions st |}).
      intros Hrun Hflags.
      destruct (fallbackFlags vp grid card rest (S index) st1)
        as [flags' |] eqn:F'; [| discriminate].
      cbn in Hflags. injection Hflags as <-.
      destruct (IH _ _ _ _ Hrun F')
        as (ps' & Hps & Hlen & Hflen & Hclear & Hfall).
      eexists (_ :: ps'). split.
      { rewrite Hps. subst st1. cbn [placements].
        rewrite <- app_assoc. reflexivity. }
      split; [cbn; congruence |]. split; [cbn; congruence |]. split.
      * intros [| j] pj Hj Hf; [discriminate |].
        cbn in Hj, Hf. destruct (Hclear j pj Hj Hf) as [Hu Hearlier].
        split; [exact Hu |].
        intros [| i] pi Hlt Hi Hfi; [discriminate |].
        cbn in Hi, Hfi. apply (Hearlier i pi); auto. lia.
      * intros [| j] pj Hj Hf.
        -- injection Hj as <-. cbn. auto.
        -- cbn in Hj, Hf. now apply (Hfall j pj).
    + (* the best free candidate *)
      set (st1 := {| placements := _; usedPositions := _ |}).
      intros Hrun Hflags.
      destruct (fallbackFlags vp grid card rest (S index) st1)
        as [flags' |] eqn:F'; [| discriminate].
      cbn in Hflags. injection Hflags as <-.
      destruct (IH _ _ _ _ Hrun F')
        as (ps' & Hps & Hlen & Hflen & Hclear & Hfall).
      assert (Hbest : isFree card (usedPositions st) best = true).
      { assert (In best (filter (isFree card (usedPositions st)) generated))
          by (rewrite F; now left).
        now apply filter_In in H as [_ H]. }
      eexists (_ :: ps'). split.
      { rewrite Hps. subst st1. cbn [placements].
        rewrite <- app_assoc. reflexivity. }
      split; [cbn; congruence |]. split; [cbn; congruence |]. split.
      * intros [| j] pj Hj Hf.
        -- injection Hj as <-. split.
           ++ intros u Hu. unfold isFree in Hbest.
              apply negb_true_iff in Hbest.
              destruct (rectsIntersect _ u) eqn:R; [| reflexivity].
              rewrite <- Hbest. symmetry. apply existsb_exists.
              exists u. split; [exact Hu | exact R].
           ++ intros i pi Hlt. lia.
        -- cbn in Hj, Hf. destruct (Hclear j pj Hj Hf) as [Hu Hearlier].
           split.
           ++ intros u Hin. apply Hu. subst st1. cbn [usedPositions].
              apply in_or_app. now left.
           ++ intros [| i] pi Hlt Hi Hfi.
              ** injection Hi as <-. apply Hu. subst st1.
                 cbn [usedPositions]. apply in_or_app. right. now left.
              ** cbn in Hi, Hfi. apply (Hearlier i pi); auto. lia.
      * intros [| j] pj Hj Hf; [discriminate |].
        cbn in Hj, Hf. now apply (Hfall j pj).
Qed.

(** A card placed from a candidate sits at one of the four distances
    from the start of its lead line, in one of the eight directions. *)
Lemma forEachError_offsets vp grid card errors :
  forall index st st' flags,
    forEachError vp grid card errors index st = Some st' ->
    fallbackFlags vp grid card errors index st = Some flags ->
    exists ps,
      placements st' = placements st ++ ps
      /\ (forall j pj,
             nth_error ps j = Some pj -> nth_error flags j = Some false ->
             exists dir distance,
               In dir directions /\ In distance DISTANCE_OPTIONS
               /\ sp_x pj = px (leadLineStart pj) + dx dir * distance
               /\ sp_y pj = py (leadLineStart pj) + dy dir * distance).
Proof.
  induction errors as [| error rest IH]; intros index st st' flags.
  - cbn. intros [= <-] [= <-]. exists []. rewrite app_nil_r.
    split; [reflexivity |]. intros [| j] pj Hj; discriminate Hj.
  - cbn [forEachError fallbackFlags]. unfold bind at 1 3 4.
    unfold placeError at 1 2. unfold bind at 1 3.
    destruct (freeCandidates error vp grid card (usedPositions st))
      as [candidates |] eqn:F; [| discriminate].
    unfold freeCandidates, SmartPositioning.bind in F.
    destruct (generatePositionCandidates (errorCenterOf error) card vp grid)
      as [generated |] eqn:G; [| discriminate].
    injection F as F.
    destruct candidates as [| best cs].
    + set (st1 := {| placements := _; usedPositions := usedPositions st |}).
      intros Hrun Hflags.
      destruct (fallbackFlags vp grid card rest (S index) st1)
        as [flags' |] eqn:F'; [| discriminate].
      cbn in Hflags. injection Hflags as <-.
      destruct (IH _ _ _ _ Hrun F') as (ps' & Hps & Hoff).
      eexists (_ :: ps'). split.
      { rewrite Hps. subst st1. cbn [placements].
        rewrite <- app_assoc. reflexivity. }
      intros [| j] pj Hj Hf; [discriminate |].
      cbn in Hj, Hf. now apply (Hoff j pj).
    + set (st1 := {| placements := _; usedPositions := _ |}).
      intros Hrun Hflags.
      destruct (fallbackFlags vp grid card rest (S index) st1)
        as [flags' |] eqn:F'; [| discriminate].
      cbn in Hflags. injection Hflags as <-.
      destruct (IH _ _ _ _ Hrun F') as (ps' & Hps & Hoff).
      assert (Hbest : In best generated).
      { assert (H : In best (filter (isFree card (usedPositions st))
                               generated))
          by (rewrite F; now left).
        now apply filter_In in H as [H _]. }
      destruct (generated_In _ _ _ _ _ best G Hbest)
        as (dir & distance & Hdir & Hdist & Hx & Hy & _).
      eexists (_ :: ps'). split.
      { rewrite Hps. subst st1. cbn [placements].
        rewrite <- app_assoc. reflexivity. }
      intros [| j] pj Hj Hf.
      * injection Hj as <-. exists dir, distance.
        cbn [placementAt sp_x sp_y leadLineStart]. auto.
      * cbn in Hj, Hf. now apply (Hoff j pj).
Qed.

(** C9, as the code has it.  Of two placements returned by one call of
    [optimizeMultipleErrorLayout], neither placed by the fallback, the
    later card does not meet the buffered footprint (the card with 20 on
    every side) of the earlier one.  A placement made by the fallback is
    the one 100 to the right of the start of its lead line and half a card
    above it; a placement made from a candidate lies at one of the
    distances 80, 120, 160, 200 from the start of its lead line in one of
    the eight directions.  So the result shows which placements the
    fallback made, as those with [x === leadLineStart.x + 100] and
    [y === leadLineStart.y - height / 2], for every placement whose
    fallback position is made of numbers and is reached by none of the
    candidate offsets. *)
Theorem later_card_clear_of_earlier_buffer
    (errors : list HandwritingError) (viewportBounds : Box)
    (grid : SpatialGrid) (cardSize : Size)
    (ps : list SuggestionPlacement) (flags : list bool) :
  optimizeMultipleErrorLayout errors viewportBounds grid cardSize = Some ps ->
  usedFallback errors viewportBounds grid cardSize = Some flags ->
  List.length ps = List.length errors
  /\ List.length flags = List.length errors
  /\ (forall i j pi pj,
         (i < j)%nat ->
         nth_error ps i = Some pi -> nth_error ps j = Some pj ->
         nth_error flags i = Some false -> nth_error flags j = Some false ->
         rectsIntersect (cardFootprint pj) (bufferedFootprint pi) = false)
  /\ (forall j pj,
         nth_error ps j = Some pj -> nth_error flags j = Some true ->
         sp_x pj = px (leadLineStart pj) + 100
         /\ sp_y pj = py (leadLineStart pj) - sp_height pj / 2)
  /\ (forall j pj,
         nth_error ps j = Some pj -> nth_error flags j = Some false ->
         exists dir distance,
           In dir directions /\ In distance [80; 120; 160; 200]
           /\ sp_x pj = px (leadLineStart pj) + dx dir * distance
           /\ sp_y pj = py (leadLineStart pj) + dy dir * distance)
  /\ (forall j pj flag,
         nth_error ps j = Some pj -> nth_error flags j = Some flag ->
         distinguishable pj = true ->
         looksLikeFallback pj = flag).
Proof.
  unfold optimizeMultipleErrorLayout, usedFallback.
  destruct (forEachError viewportBounds grid cardSize errors 0 _)
    as [st' |] eqn:Hrun; [| discriminate].
  cbn. intros [= <-] Hflags.
  destruct (forEachError_clear _ _ _ _ _ _ _ _ Hrun Hflags)
    as (ps & Hps & Hlen & Hflen & Hclear & Hfall).
  destruct (forEachError_offsets _ _ _ _ _ _ _ _ Hrun Hflags)
    as (ps' & Hps' & Hoff).
  cbn in Hps, Hps'. rewrite Hps in Hps'. subst ps'. rewrite Hps.
  split; [exact Hlen |]. split; [exact Hflen |].
  split.
  { intros i j pi pj Hlt Hi Hj Hfi Hfj.
    destruct (Hclear j pj Hj Hfj) as [_ H]. now apply (H i pi). }
  split; [exact Hfall |].
  split; [exact Hoff |].
  intros j pj flag Hj Hf D. unfold distinguishable in D. cbv zeta in D.
  apply andb_true_iff in D as [D Dall].
  apply andb_true_iff in D as [Dx Dy].
  apply negb_true_iff in Dx, Dy.
  unfold looksLikeFallback. destruct flag.
  - destruct (Hfall j pj Hj Hf) as [-> ->]. unfold strict_eq.
    rewrite !sim_eqb by (auto using sim_refl). reflexivity.
  - destruct (Hoff j pj Hj Hf) as (dir & distance & Hdir & Hdist & -> & ->).
    rewrite forallb_forall in Dall.
    specialize (Dall (dir, distance)). cbn [fst snd] in Dall.
    apply negb_true_iff, Dall, in_prod_iff. split; assumption.
Qed.

(** For the two neighbouring errors both cards are placed from candidates,
    the second clear of the buffered footprint of the first, and both
    show it; in the viewport that holds no candidate the card is placed
    by the fallback and shows it. *)
Lemma later_card_clear_of_earlier_buffer_witness :
  (exists p q,
      optimizeMultipleErrorLayout neighbouringErrors wideViewport
        (emptyGrid 32 62.5) defaultCardSize = Some [p; q]
      /\ usedFallback neighbouringErrors wideViewport (emptyGrid 32 62.5)
           defaultCardSize = Some [false; false]
      /\ rectsIntersect (cardFootprint q) (bufferedFootprint p) = false
      /\ looksLikeFallback p = false /\ looksLikeFallback q = false)
  /\ (exists p,
        optimizeMultipleErrorLayout [errorAt "c001" 90 55] tightViewport
          (emptyGrid 32 6.25) defaultCardSize = Some [p]
        /\ usedFallback [errorAt "c001" 90 55] tightViewport
             (emptyGrid 32 6.25) defaultCardSize = Some [true]
        /\ looksLikeFallback p = true).
Proof.
  split.
  - assert (H : exists p q,
               (optimizeMultipleErrorLayout neighbouringErrors wideViewport
                  (emptyGrid 32 62.5) defaultCardSize = Some [p; q])
               /\ distinguishable p = true /\ distinguishable q = true)
      by (do 2 eexists; vm_compute; repeat split; reflexivity).
    destruct H as (p & q & H & Dp & Dq).
    assert (F : usedFallback neighbouringErrors wideViewport
                  (emptyGrid 32 62.5) defaultCardSize = Some [false; false])
      by (vm_compute; reflexivity).
    exists p, q. split; [exact H |]. split; [exact F |].
    destruct (later_card_clear_of_earlier_buffer neighbouringErrors
                wideViewport (emptyGrid 32 62.5) defaultCardSize
                [p; q] [false; false] H F)
      as (_ & _ & Hclear & _ & _ & Hshow).
    split; [now apply (Hclear 0%nat 1%nat p q); auto |].
    split.
    + now apply (Hshow 0%nat p false).
    + now apply (Hshow 1%nat q false).
  - assert (H : exists p,
               (optimizeMultipleErrorLayout [errorAt "c001" 90 55]
                  tightViewport (emptyGrid 32 6.25) defaultCardSize
                = Some [p])
               /\ distinguishable p = true)
      by (eexists; vm_compute; repeat split; reflexivity).
    destruct H as (p & H & Dp).
    assert (F : usedFallback [errorAt "c001" 90 55] tightViewport
                  (emptyGrid 32 6.25) defaultCardSize = Some [true])
      by (vm_compute; reflexivity).
    exists p. split; [exact H |]. split; [exact F |].
    destruct (later_card_clear_of_earlier_buffer [errorAt "c001" 90 55]
                tightViewport (emptyGrid 32 6.25) defaultCardSize
                [p] [true] H F)
      as (_ & _ & _ & _ & _ & Hshow).
    now apply (Hshow 0%nat p true).
Defined.

(** In a viewport that holds none of the candidates the card is placed
    by the fallback, outside the viewport. *)
Example fallback_placement :
  optimizeMultipleErrorLayout [errorAt "c001" 90 55] tightViewport
    (emptyGrid 32 6.25) defaultCardSize
  = Some [ placementAt 200 5 defaultCardSize {| px := 100; py := 65 |} 0 ]
  /\ usedFallback [errorAt "c001" 90 55] tightViewport (emptyGrid 32 6.25)
       defaultCardSize = Some [true].
Proof. split; vm_compute; reflexivity. Qed.

End LayoutFacts.

(** ** The layout as a whole, and the grid *)

Module PlacementFacts.

Import Ocr SmartPositioning GridCreation FloatFacts OrderFacts CandidateFacts.

Lemma freeCandidates_returns error vp grid card used :
  consistent grid ->
  exists cs, freeCandidates error vp grid card used = Some cs.
Proof.
  intros C. unfold freeCandidates.
  destruct (generated_returns (errorCenterOf error) card vp grid C)
    as (cs & ->).
  cbn. eauto.
Qed.

Lemma freeCandidates_inside error vp grid card used cs c :
  freeCandidates error vp grid card used = Some cs -> In c cs ->
  cardInside (cand_x c) (cand_y c) card vp = true.
Proof.
  unfold freeCandidates.
  destruct (generatePositionCandidates (errorCenterOf error) card vp grid)
    as [generated |] eqn:G; [| discriminate].
  cbn. intros [= <-] Hc. apply filter_In in Hc as [Hc _].
  destruct (generated_In _ _ _ _ _ c G Hc)
    as (_ & _ & _ & _ & _ & _ & I & _). exact I.
Qed.

Lemma placeError_returns vp grid card st error index :
  consistent grid ->
  exists st', placeError vp grid card st error index = Some st'.
Proof.
  intros C. unfold placeError. cbv zeta.
  destruct (freeCandidates_returns error vp grid card (usedPositions st) C)
    as (cs & ->).
  cbn. destruct cs; eauto.
Qed.

Lemma forEachError_returns vp grid card errors :
  consistent grid ->
  forall index st,
    exists st' flags,
      forEachError vp grid card errors index st = Some st'
      /\ fallbackFlags vp grid card errors index st = Some flags.
Proof.
  intros C. induction errors as [| error rest IH]; intros index st.
  - cbn. eauto.
  - cbn [forEachError fallbackFlags].
    destruct (freeCandidates_returns error vp grid card (usedPositions st) C)
      as (cs & Ecs).
    destruct (placeError_returns vp grid card st error index C)
      as (st1 & E1).
    rewrite Ecs, E1. cbn.
    destruct (IH (S index) st1) as (st' & flags & E & F).
    rewrite E, F. cbn. eauto.
Qed.

(** The invariant of the loop of [optimizeMultipleErrorLayout]: the
    placement pushed for the error at position [j] is the card of the given
    size at some point, with the lead line from the centre of the error to
    the centre of the card and the delay of the position; a card placed
    from a candidate lies inside the viewport. *)
Lemma forEachError_placements vp grid card errors :
  forall index st st' flags,
    forEachError vp grid card errors index st = Some st' ->
    fallbackFlags vp grid card errors index st = Some flags ->
    exists ps,
      placements st' = placements st ++ ps
      /\ List.length ps = List.length errors
      /\ forall j e,
           nth_error errors j = Some e ->
           exists p,
             nth_error ps j = Some p
             /\ p = placementAt (sp_x p) (sp_y p) card (errorCenterOf e)
                      (index + j)
             /\ (nth_error flags j = Some false ->
                 cardInside (sp_x p) (sp_y p) card vp = true).
Proof.
  induction errors as [| error rest IH]; intros index st st' flags.
  - cbn. intros [= <-] _. exists []. rewrite app_nil_r.
    split; [reflexivity |]. split; [reflexivity |].
    intros [| j] e H; discriminate H.
  - cbn [forEachError fallbackFlags].
    destruct (freeCandidates error vp grid card (usedPositions st))
      as [cs |] eqn:F; [| discriminate].
    destruct (placeError vp grid card st error index) as [st1 |] eqn:P;
      [| discriminate].
    cbn. intros Hrun Hflags.
    destruct (fallbackFlags vp grid card rest (S index) st1)
      as [flags' |] eqn:F'; [| discriminate].
    cbn in Hflags. injection Hflags as <-.
    destruct (IH _ _ _ _ Hrun F') as (ps' & Hps & Hlen & Hnth).
    unfold placeError in P. cbv zeta in P. rewrite F in P. cbn in P.
    assert (H1 : exists p,
               placements st1 = placements st ++ [p]
               /\ p = placementAt (sp_x p) (sp_y p) card
                        (errorCenterOf error) index
               /\ (match cs with [] => true | _ :: _ => false end = false ->
                   cardInside (sp_x p) (sp_y p) card vp = true)).
    { destruct cs as [| best cs'].
      - injection P as <-. eexists. split; [reflexivity |].
        split; [reflexivity | discriminate].
      - injection P as <-. eexists. split; [reflexivity |].
        split; [reflexivity |]. intros _. cbn [placementAt sp_x sp_y].
        eapply freeCandidates_inside; [exact F | now left]. }
    destruct H1 as (p & Hp & Ep & Ip).
    exists (p :: ps'). split.
    { rewrite Hps, Hp, <- app_assoc. reflexivity. }
    split; [cbn; congruence |].
    intros [| j] e He.
    + injection He as <-. exists p. split; [reflexivity |].
      rewrite Nat.add_0_r. split; [exact Ep |].
      cbn. intros [= H]. now apply Ip.
    + cbn in He. destruct (Hnth j e He) as (q & Hq & Eq & Iq).
      exists q. split; [exact Hq |].
      replace (index + S j)%nat with (S index + j)%nat by lia.
      split; [exact Eq | exact Iq].
Qed.

Lemma layout_returns errors vp grid card :
  consistent grid ->
  exists ps, optimizeMultipleErrorLayout errors vp grid card = Some ps.
Proof.
  intros C. unfold optimizeMultipleErrorLayout.
  destruct (forEachError_returns vp grid card errors C 0%nat
              {| placements := []; usedPositions := [] |})
    as (st' & flags & E & _).
  rewrite E. cbn. eauto.
Qed.

(** X9. On a grid whose [density] holds [height] rows,
    [optimizeMultipleErrorLayout] returns, with one placement for each
    error, in the order of the errors: the card has the given size, the
    lead line goes from the centre of the box of the error to the centre
    of the card, and the delay is 800 times the position. *)
Theorem layout_places_every_error (errors : list HandwritingError)
    (viewportBounds : Box) (grid : SpatialGrid) (cardSize : Size) :
  (height grid <= List.length (density grid))%nat ->
  exists placements,
    optimizeMultipleErrorLayout errors viewportBounds grid cardSize
    = Some placements
    /\ List.length placements = List.length errors
    /\ forall i error,
         nth_error errors i = Some error ->
         exists p,
           nth_error placements i = Some p
           /\ sp_width p = sz_width cardSize
           /\ sp_height p = sz_height cardSize
           /\ leadLineStart p
              = {| px := x (bbox error) + w (bbox error) / 2;
                   py := y (bbox error) + h (bbox error) / 2 |}
           /\ leadLineEnd p
              = {| px := sp_x p + sz_width cardSize / 2;
                   py := sp_y p + sz_height cardSize / 2 |}
           /\ animationDelay p = JsMath.of_nat i * 800.
Proof.
  intros C. unfold optimizeMultipleErrorLayout.
  destruct (forEachError_returns viewportBounds grid cardSize errors C 0%nat
              {| placements := []; usedPositions := [] |})
    as (st' & flags & E & F).
  rewrite E. cbn.
  destruct (forEachError_placements _ _ _ _ _ _ _ _ E F)
    as (ps & Hps & Hlen & Hnth).
  cbn in Hps. exists (SmartPositioning.placements st').
  split; [reflexivity |]. rewrite Hps. split; [exact Hlen |].
  intros i error Hi. destruct (Hnth i error Hi) as (p & Hp & Ep & _).
  exists p. split; [exact Hp |]. rewrite Ep.
  cbn [placementAt sp_x sp_y sp_width sp_height leadLineStart leadLineEnd
       animationDelay Nat.add].
  unfold errorCenterOf. auto.
Qed.

Lemma layout_places_every_error_witness :
  exists placements,
    optimizeMultipleErrorLayout neighbouringErrors wideViewport
      (emptyGrid 32 62.5) defaultCardSize = Some placements
    /\ List.length placements = 2%nat.
Proof.
  destruct (layout_places_every_error neighbouringErrors wideViewport
              (emptyGrid 32 62.5) defaultCardSize)
    as (placements & H & L & _).
  - vm_compute. lia.
  - exists placements. split; [exact H | exact L].
Defined.

(** X10. A card that [optimizeMultipleErrorLayout] places from a candidate
    lies inside the viewport; only a card placed by the fallback may
    leave it. *)
Theorem placed_card_lies_in_the_viewport (errors : list HandwritingError)
    (viewportBounds : Box) (grid : SpatialGrid) (cardSize : Size)
    (placements : list SuggestionPlacement) (flags : list bool) :
  optimizeMultipleErrorLayout errors viewportBounds grid cardSize
  = Some placements ->
  usedFallback errors viewportBounds grid cardSize = Some flags ->
  forall j p,
    nth_error placements j = Some p -> nth_error flags j = Some false ->
    geb (sp_x p) (x viewportBounds) = true
    /\ (sp_x p + sp_width p <=? x viewportBounds + w viewportBounds) = true
    /\ geb (sp_y p) (y viewportBounds) = true
    /\ (sp_y p + sp_height p <=? y viewportBounds + h viewportBounds) = true.
Proof.
  unfold optimizeMultipleErrorLayout, usedFallback.
  destruct (forEachError viewportBounds grid cardSize errors 0 _)
    as [st' |] eqn:E; [| discriminate].
  cbn. intros [= <-] F j p Hp Hf.
  destruct (forEachError_placements _ _ _ _ _ _ _ _ E F)
    as (ps & Hps & Hlen & Hnth).
  cbn in Hps. rewrite Hps in Hp.
  assert (Hj : (j < List.length errors)%nat).
  { rewrite <- Hlen. apply nth_error_Some. congruence. }
  destruct (nth_error errors j) as [e |] eqn:He;
    [| apply nth_error_None in He; lia].
  destruct (Hnth j e He) as (q & Hq & Eq & Iq).
  assert (q = p) by congruence. subst q.
  specialize (Iq Hf). unfold cardInside in Iq.
  apply andb_true_iff in Iq as [I I4]. apply andb_true_iff in I as [I I3].
  apply andb_true_iff in I as [I1 I2].
  rewrite Eq. cbn [placementAt sp_x sp_y sp_width sp_height]. auto.
Qed.

Lemma placed_card_lies_in_the_viewport_witness :
  exists p q,
    optimizeMultipleErrorLayout neighbouringErrors wideViewport
      (emptyGrid 32 62.5) defaultCardSize = Some [p; q]
    /\ geb (sp_x q) 0 = true /\ (sp_x q + sp_width q <=? 0 + 2000) = true.
Proof.
  assert (H : exists p q,
             optimizeMultipleErrorLayout neighbouringErrors wideViewport
               (emptyGrid 32 62.5) defaultCardSize = Some [p; q])
    by (do 2 eexists; vm_compute; reflexivity).
  destruct H as (p & q & H).
  assert (F : usedFallback neighbouringErrors wideViewport
                (emptyGrid 32 62.5) defaultCardSize = Some [false; false])
    by (vm_compute; reflexivity).
  exists p, q. split; [exact H |].
  destruct (placed_card_lies_in_the_viewport neighbouringErrors wideViewport
              (emptyGrid 32 62.5) defaultCardSize [p; q] [false; false]
              H F 1%nat q eq_refl eq_refl) as (A & B & _).
  split; [exact A | exact B].
Defined.

(** *** [createSpatialGrid] *)

Lemma updateAt_length {A} (f : A -> A) (l : list A) (i : nat) :
  List.length (updateAt f l i) = List.length l.
Proof.
  revert i. induction l as [| a l IH]; intros [| i]; cbn; auto.
Qed.

Lemma updateAt_Forall {A} (P : A -> Prop) (f : A -> A) (l : list A) (i : nat) :
  (forall a, P a -> P (f a)) -> Forall P l -> Forall P (updateAt f l i).
Proof.
  intros Hf. revert i. induction l as [| a l IH]; intros [| i] H; cbn; auto;
    inversion_clear H; constructor; auto.
Qed.

Lemma markCell_square n weight g rc :
  square n (fst g) /\ square n (snd g) ->
  square n (fst (markCell weight g rc)) /\ square n (snd (markCell weight g rc)).
Proof.
  intros [[L1 F1] [L2 F2]]. destruct rc as [row col]. cbn [markCell fst snd].
  split; split; rewrite ?updateAt_length; auto;
    apply updateAt_Forall; auto; intros r Hr;
    now rewrite updateAt_length.
Qed.

Lemma addShape_square n vp cw ch g shape :
  square n (fst g) /\ square n (snd g) ->
  square n (fst (addShape vp cw ch g shape))
  /\ square n (snd (addShape vp cw ch g shape)).
Proof.
  unfold addShape. cbv zeta.
  generalize (list_prod
                (visited
                   (JsMath.max 0
                      (JsMath.floor ((y (shape_bounds shape) - y vp) / ch)))
                   (JsMath.min (JsMath.of_nat GRID_SIZE - 1)
                      (JsMath.floor
                         ((y (shape_bounds shape) + h (shape_bounds shape)
                           - y vp) / ch))) GRID_SIZE)
                (visited
                   (JsMath.max 0
                      (JsMath.floor ((x (shape_bounds shape) - x vp) / cw)))
                   (JsMath.min (JsMath.of_nat GRID_SIZE - 1)
                      (JsMath.floor
                         ((x (shape_bounds shape) + w (shape_bounds shape)
                           - x vp) / cw))) GRID_SIZE)) as cells.
  intros cells. revert g.
  induction cells as [| rc cells IH]; intros g H; cbn [fold_left]; auto.
  apply IH. now apply markCell_square.
Qed.

Lemma fold_left_preserves {A B} (P : A -> Prop) (f : A -> B -> A)
    (l : list B) :
  (forall a b, P a -> P (f a b)) -> forall a, P a -> P (fold_left f l a).
Proof.
  intros Hf. induction l as [| b l IH]; intros a Ha; cbn [fold_left].
  - exact Ha.
  - apply IH, Hf, Ha.
Qed.

Lemma fold_addShape_square n vp cw ch shapes g :
  square n (fst g) /\ square n (snd g) ->
  square n (fst (fold_left (addShape vp cw ch) shapes g))
  /\ square n (snd (fold_left (addShape vp cw ch) shapes g)).
Proof.
  apply (fold_left_preserves
           (fun g => square n (fst g) /\ square n (snd g))).
  intros a b. apply addShape_square.
Qed.

Lemma repeat_square {A} (n : nat) (a : A) : square n (repeat (repeat a n) n).
Proof.
  split; [apply repeat_length |].
  apply Forall_forall. intros r Hr. apply repeat_spec in Hr. subst r.
  apply repeat_length.
Qed.

Lemma createSpatialGrid_square shapes vp :
  square GRID_SIZE (cg_density (createSpatialGrid shapes vp))
  /\ square GRID_SIZE (cg_occupied (createSpatialGrid shapes vp)).
Proof.
  unfold createSpatialGrid. cbv zeta. cbn [cg_density cg_occupied].
  apply fold_addShape_square. cbn [fst snd].
  split; apply repeat_square.
Qed.

(** X11. Whatever the shapes of the page, the grid [createSpatialGrid]
    returns has 32 rows of 32 cells, in [density] and in [occupied], so
    [optimizeMultipleErrorLayout] returns on it; on a page without shapes
    every density is 0 and no cell is occupied. *)
Theorem created_grid_is_square (shapes : list Shape) (viewportBounds : Box) :
  let grid := createSpatialGrid shapes viewportBounds in
  cg_width grid = 32%nat /\ cg_height grid = 32%nat
  /\ List.length (cg_density grid) = 32%nat
  /\ Forall (fun row => List.length row = 32%nat) (cg_density grid)
  /\ List.length (cg_occupied grid) = 32%nat
  /\ Forall (fun row => List.length row = 32%nat) (cg_occupied grid)
  /\ (forall errors cardSize,
         exists placements,
           optimizeMultipleErrorLayout errors viewportBounds
             (asSpatialGrid grid) cardSize = Some placements)
  /\ (shapes = [] ->
      cg_density grid = repeat (repeat 0 32) 32
      /\ cg_occupied grid = repeat (repeat Zero 32) 32).
Proof.
  cbv zeta.
  destruct (createSpatialGrid_square shapes viewportBounds)
    as [[L1 F1] [L2 F2]].
  do 2 (split; [reflexivity |]).
  split; [exact L1 |]. split; [exact F1 |].
  split; [exact L2 |]. split; [exact F2 |]. split.
  - intros errors cardSize.
    destruct (layout_returns errors viewportBounds
                (asSpatialGrid (createSpatialGrid shapes viewportBounds))
                cardSize) as (ps & H).
    + unfold consistent. cbn [asSpatialGrid height density]. rewrite L1.
      unfold createSpatialGrid. cbn [cg_height]. unfold GRID_SIZE. lia.
    + eauto.
  - intros ->. split; reflexivity.
Qed.

End PlacementFacts.

(** ** The preprocessing of the raster *)

Module PreprocessingFacts.

Import Rounding ImagePreprocessing FloatFacts OrderFacts.

(** A value stored in a [Uint8ClampedArray] is between 0 and 255. *)
Lemma ToUint8Clamp_range (v : number) : (0 <= ToUint8Clamp v <= 255)%Z.
Proof.
  unfold ToUint8Clamp.
  destruct (Prim2SF v) as [s | s | | s m e]; try lia.
  - destruct s; lia.
  - destruct s; [lia |].
    destruct (0 <=? e)%Z eqn:E.
    + apply Z.leb_le in E.
      pose proof (Z.pow_nonneg 2 e ltac:(lia)). nia.
    + apply Z.leb_gt in E.
      assert (D : (0 < 2 ^ (- e))%Z) by (apply Z.pow_pos_nonneg; lia).
      pose proof (Z.div_pos (Z.pos m) (2 ^ (- e)) ltac:(lia) D).
      cbv zeta.
      destruct (2 * (Z.pos m mod 2 ^ (- e)) <? 2 ^ (- e))%Z; [lia |].
      destruct (2 ^ (- e) <? 2 * (Z.pos m mod 2 ^ (- e)))%Z; [lia |].
      destruct (Z.even _); lia.
Qed.

(** Induction over an array, four channels at a time. *)
Lemma list_ind4 {A} (P : list A -> Prop) :
  P [] -> (forall a, P [a]) -> (forall a b, P [a; b]) ->
  (forall a b c, P [a; b; c]) ->
  (forall a b c d l, P l -> P (a :: b :: c :: d :: l)) ->
  forall l, P l.
Proof.
  intros H0 H1 H2 H3 H4.
  fix IH 1.
  intros [| a [| b [| c [| d l]]]];
    [exact H0 | apply H1 | apply H2 | apply H3 | apply H4, IH].
Qed.

(** *** [toGrayscale] *)

Lemma grayOf_range r g b : (0 <= grayOf r g b <= 255)%Z.
Proof. apply ToUint8Clamp_range. Qed.

(** A gray pixel keeps its value: checked on the 256 values. *)
Lemma grayOf_gray v : (0 <= v <= 255)%Z -> grayOf v v v = v.
Proof.
  intros H.
  assert (C : forallb (fun v => Z.eqb (grayOf v v v) v)
                (map Z.of_nat (seq 0 256)) = true)
    by (vm_compute; reflexivity).
  rewrite forallb_forall in C. apply Z.eqb_eq, C.
  apply in_map_iff. exists (Z.to_nat v). split; [lia |].
  apply in_seq. lia.
Qed.

Lemma grayscale_length data : List.length (grayscale data) = List.length data.
Proof.
  induction data using list_ind4; cbn [grayscale List.length]; congruence.
Qed.

Lemma grayscale_idempotent data : grayscale (grayscale data) = grayscale data.
Proof.
  induction data as [| a | a b | a b c | a b c d l IH] using list_ind4;
    try reflexivity.
  - cbn [grayscale]. now rewrite grayOf_gray by apply grayOf_range.
  - cbn [grayscale]. rewrite IH.
    now rewrite grayOf_gray by apply grayOf_range.
Qed.

Lemma grayscale_pixel data p :
  (p * 4 + 3 < List.length data)%nat ->
  nth (p * 4) (grayscale data) 0%Z
  = grayOf (nth (p * 4) data 0%Z) (nth (p * 4 + 1) data 0%Z)
      (nth (p * 4 + 2) data 0%Z)
  /\ nth (p * 4 + 1) (grayscale data) 0%Z = nth (p * 4) (grayscale data) 0%Z
  /\ nth (p * 4 + 2) (grayscale data) 0%Z = nth (p * 4) (grayscale data) 0%Z
  /\ nth (p * 4 + 3) (grayscale data) 0%Z = nth (p * 4 + 3) data 0%Z.
Proof.
  revert p.
  induction data as [| a | a b | a b c | a b c d l IH] using list_ind4;
    intros p H; cbn [List.length] in H; try lia.
  destruct p as [| p].
  - cbn. auto.
  - replace (S p * 4)%nat with (S (S (S (S (p * 4))))) by lia.
    cbn [grayscale Nat.add nth].
    apply IH. lia.
Qed.

(** X12. [toGrayscale] gives the three colour channels of every pixel the
    same value, the rounded luminance of the pixel, leaves the alpha
    channel and the size as they are, and changes nothing when applied a
    second time. *)
Theorem toGrayscale_gray_once (imageData : ImageData) :
  toGrayscale (toGrayscale imageData) = toGrayscale imageData
  /\ width (toGrayscale imageData) = width imageData
  /\ height (toGrayscale imageData) = height imageData
  /\ List.length (data (toGrayscale imageData))
     = List.length (data imageData)
  /\ forall p,
       (p * 4 + 3 < List.length (data imageData))%nat ->
       let input := data imageData in
       let output := data (toGrayscale imageData) in
       nth (p * 4) output 0%Z
       = grayOf (nth (p * 4) input 0%Z) (nth (p * 4 + 1) input 0%Z)
           (nth (p * 4 + 2) input 0%Z)
       /\ nth (p * 4 + 1) output 0%Z = nth (p * 4) output 0%Z
       /\ nth (p * 4 + 2) output 0%Z = nth (p * 4) output 0%Z
       /\ nth (p * 4 + 3) output 0%Z = nth (p * 4 + 3) input 0%Z.
Proof.
  split.
  { unfold toGrayscale. cbn [width height data].
    now rewrite grayscale_idempotent. }
  split; [reflexivity |]. split; [reflexivity |].
  split; [apply grayscale_length |].
  intros p H. apply grayscale_pixel, H.
Qed.

(** *** [toBinary] *)

Lemma binaryOf_cases t v : binaryOf t v = 0%Z \/ binaryOf t v = 255%Z.
Proof. unfold binaryOf. destruct (gtb _ _); auto. Qed.

Lemma binarize_length t data :
  List.length (binarize t data) = List.length data.
Proof.
  induction data using list_ind4; cbn [binarize List.length]; congruence.
Qed.

Lemma binarize_pixel t data p :
  (p * 4 + 3 < List.length data)%nat ->
  nth (p * 4) (binarize t data) 0%Z = binaryOf t (nth (p * 4) data 0%Z)
  /\ nth (p * 4 + 1) (binarize t data) 0%Z
     = nth (p * 4) (binarize t data) 0%Z
  /\ nth (p * 4 + 2) (binarize t data) 0%Z
     = nth (p * 4) (binarize t data) 0%Z
  /\ nth (p * 4 + 3) (binarize t data) 0%Z = nth (p * 4 + 3) data 0%Z.
Proof.
  revert p.
  induction data as [| a | a b | a b c | a b c d l IH] using list_ind4;
    intros p H; cbn [List.length] in H; try lia.
  destruct p as [| p].
  - cbn. auto.
  - replace (S p * 4)%nat with (S (S (S (S (p * 4))))) by lia.
    cbn [binarize Nat.add nth].
    apply IH. lia.
Qed.

Lemma binarize_idempotent t data :
  gtb 255 t = true -> gtb 0 t = false ->
  binarize t (binarize t data) = binarize t data.
Proof.
  intros H255 H0.
  assert (B : forall v, binaryOf t (binaryOf t v) = binaryOf t v).
  { intros v. destruct (binaryOf_cases t v) as [E | E]; rewrite E;
      unfold binaryOf, channel.
    - change (JsMath.of_Z 0) with 0. now rewrite H0.
    - change (JsMath.of_Z 255) with 255. now rewrite H255. }
  induction data as [| a | a b | a b c | a b c d l IH] using list_ind4;
    cbn [binarize]; rewrite ?B, ?IH; reflexivity.
Qed.

(** X13. [toBinary] makes every pixel black or white: its three colour
    channels are all 255 when the first one is above the threshold and all
    0 otherwise; the alpha channel and the size are kept.  With a
    threshold from 0 up to, but not including, 255 a second pass changes
    nothing. *)
Theorem toBinary_black_or_white (imageData : ImageData)
    (threshold : option number) :
  let output := data (toBinary imageData threshold) in
  width (toBinary imageData threshold) = width imageData
  /\ height (toBinary imageData threshold) = height imageData
  /\ List.length output = List.length (data imageData)
  /\ (forall p,
         (p * 4 + 3 < List.length (data imageData))%nat ->
         (nth (p * 4) output 0%Z = 0%Z \/ nth (p * 4) output 0%Z = 255%Z)
         /\ nth (p * 4 + 1) output 0%Z = nth (p * 4) output 0%Z
         /\ nth (p * 4 + 2) output 0%Z = nth (p * 4) output 0%Z
         /\ nth (p * 4 + 3) output 0%Z
            = nth (p * 4 + 3) (data imageData) 0%Z)
  /\ (forall t,
         threshold = Some t -> gtb 255 t = true -> gtb 0 t = false ->
         toBinary (toBinary imageData threshold) threshold
         = toBinary imageData threshold).
Proof.
  cbv zeta. unfold toBinary. cbn [width height data].
  split; [reflexivity |]. split; [reflexivity |].
  split; [apply binarize_length |]. split.
  - intros p H.
    destruct (binarize_pixel
                (match threshold with
                 | Some t => t
                 | None => calculateOtsuThreshold imageData
                 end) (data imageData) p H) as (E0 & E1 & E2 & E3).
    rewrite E1, E2, E3, E0. repeat split; auto. apply binaryOf_cases.
  - intros t -> H255 H0. cbn [width height data].
    now rewrite binarize_idempotent.
Qed.

(** *** [enhanceContrast] *)

Lemma contrast_length f data : List.length (contrast f data) = List.length data.
Proof.
  induction data as [| a | a b | a b c | a b c d l IH] using list_ind4;
    cbn [contrast map List.length]; congruence.
Qed.

Lemma contrast_pixel f data p :
  (p * 4 + 3 < List.length data)%nat ->
  nth (p * 4) (contrast f data) 0%Z = contrastOf f (nth (p * 4) data 0%Z)
  /\ nth (p * 4 + 1) (contrast f data) 0%Z
     = contrastOf f (nth (p * 4 + 1) data 0%Z)
  /\ nth (p * 4 + 2) (contrast f data) 0%Z
     = contrastOf f (nth (p * 4 + 2) data 0%Z)
  /\ nth (p * 4 + 3) (contrast f data) 0%Z = nth (p * 4 + 3) data 0%Z.
Proof.
  revert p.
  induction data as [| a | a b | a b c | a b c d l IH] using list_ind4;
    intros p H; cbn [List.length] in H; try lia.
  destruct p as [| p].
  - cbn. auto.
  - replace (S p * 4)%nat with (S (S (S (S (p * 4))))) by lia.
    cbn [contrast Nat.add nth].
    apply IH. lia.
Qed.

(** The middle value stays where it is, whatever the finite factor. *)
Lemma contrastOf_middle f : is_finite f = true -> contrastOf f 128 = 128%Z.
Proof.
  intros F. unfold contrastOf, channel.
  change (JsMath.of_Z 128 - 128) with 0.
  assert (E : f * 0 + 128 = 128).
  { apply Prim2SF_inj. rewrite add_spec, mul_spec.
    change (Prim2SF 0) with (S754_zero false).
    destruct (is_finite_sf f F) as [(s & ->) | (s & m & e & ->)];
      reflexivity. }
  rewrite E. vm_compute. reflexivity.
Qed.

(** X14. [enhanceContrast] rewrites each colour channel by itself, to a
    value from 0 to 255, and keeps the alpha channel and the size; a
    channel at 128 stays at 128 for every finite factor. *)
Theorem enhanceContrast_channels (imageData : ImageData)
    (factor : option number) :
  let f := match factor with Some f => f | None => 1.5 end in
  let input := data imageData in
  let output := data (enhanceContrast imageData factor) in
  width (enhanceContrast imageData factor) = width imageData
  /\ height (enhanceContrast imageData factor) = height imageData
  /\ List.length output = List.length input
  /\ (forall p,
         (p * 4 + 3 < List.length input)%nat ->
         nth (p * 4) output 0%Z = contrastOf f (nth (p * 4) input 0%Z)
         /\ nth (p * 4 + 1) output 0%Z
            = contrastOf f (nth (p * 4 + 1) input 0%Z)
         /\ nth (p * 4 + 2) output 0%Z
            = contrastOf f (nth (p * 4 + 2) input 0%Z)
         /\ nth (p * 4 + 3) output 0%Z = nth (p * 4 + 3) input 0%Z)
  /\ (forall v, (0 <= contrastOf f v <= 255)%Z)
  /\ (is_finite f = true -> contrastOf f 128 = 128%Z).
Proof.
  cbv zeta. unfold enhanceContrast. cbn [width height data].
  split; [reflexivity |]. split; [reflexivity |].
  split; [apply contrast_length |].
  split; [intros p H; apply contrast_pixel, H |].
  split; [intros v; apply ToUint8Clamp_range | apply contrastOf_middle].
Qed.

End PreprocessingFacts.

(** ** Erosion and dilation *)

Module MorphologyFacts.

Import Rounding ImagePreprocessing PreprocessingFacts.

(** *** Arrays filled pixel by pixel *)

Lemma flat_map_chunks_length {A} (f : nat -> list A) (k n : nat) :
  (forall i, (i < n)%nat -> List.length (f i) = k) ->
  List.length (flat_map f (seq 0 n)) = (n * k)%nat.
Proof.
  induction n as [| n IH]; intros H; [reflexivity |].
  rewrite seq_S, flat_map_app, length_app, IH by (intros; apply H; lia).
  cbn. rewrite app_nil_r, H by lia. lia.
Qed.

Lemma flat_map_chunks_nth {A} (f : nat -> list A) (k n i j : nat) (d : A) :
  (forall i, (i < n)%nat -> List.length (f i) = k) ->
  (i < n)%nat -> (j < k)%nat ->
  nth (i * k + j) (flat_map f (seq 0 n)) d = nth j (f i) d.
Proof.
  induction n as [| n IH]; intros H Hi Hj; [lia |].
  rewrite seq_S, flat_map_app. cbn [flat_map Nat.add]. rewrite app_nil_r.
  assert (L : List.length (flat_map f (seq 0 n)) = (n * k)%nat)
    by (apply flat_map_chunks_length; intros; apply H; lia).
  destruct (Nat.eq_dec i n) as [-> | Hne].
  - rewrite app_nth2 by lia. f_equal. lia.
  - rewrite app_nth1 by nia.
    apply IH; [intros; apply H; lia | lia | lia].
Qed.

Section Pixels.

Variable imageData : ImageData.
Variable pixel : Z -> Z -> list Z.
Hypothesis four : forall y x, List.length (pixel y x) = 4%nat.

Lemma forEachPixel_length :
  List.length (forEachPixel imageData pixel)
  = (4 * (width imageData * height imageData))%nat.
Proof.
  unfold forEachPixel.
  rewrite (flat_map_chunks_length _ (width imageData * 4)).
  - lia.
  - intros y _. apply flat_map_chunks_length. intros; apply four.
Qed.

Lemma forEachPixel_nth (y x c : nat) :
  (y < height imageData)%nat -> (x < width imageData)%nat -> (c < 4)%nat ->
  nth ((y * width imageData + x) * 4 + c) (forEachPixel imageData pixel) 0%Z
  = nth c (pixel (Z.of_nat y) (Z.of_nat x)) 0%Z.
Proof.
  intros Hy Hx Hc. unfold forEachPixel.
  replace ((y * width imageData + x) * 4 + c)%nat
    with (y * (width imageData * 4) + (x * 4 + c))%nat by lia.
  rewrite (flat_map_chunks_nth _ (width imageData * 4)); try lia.
  - apply (flat_map_chunks_nth
             (fun x => pixel (Z.of_nat y) (Z.of_nat x)) 4); auto.
  - intros; apply flat_map_chunks_length. intros; apply four.
Qed.

End Pixels.

(** *** The neighbourhood of a pixel *)

Lemma offsets_In (radius : nat) (d : Z) :
  In d (offsets radius) <-> (- Z.of_nat radius <= d <= Z.of_nat radius)%Z.
Proof.
  unfold offsets. rewrite in_map_iff. split.
  - intros (k & <- & Hk). apply in_seq in Hk. lia.
  - intros H. exists (Z.to_nat (d + Z.of_nat radius)). split; [lia |].
    apply in_seq. lia.
Qed.

Lemma neighbourhood_In (imageData : ImageData) (radius : nat) (y x v : Z) :
  In v (neighbourhood imageData radius y x) <->
  exists dy dx,
    In dy (offsets radius) /\ In dx (offsets radius)
    /\ inside imageData (y + dy) (x + dx) = true
    /\ v = at_ imageData
             (((y + dy) * Z.of_nat (width imageData) + (x + dx)) * 4).
Proof.
  unfold neighbourhood. rewrite in_flat_map. split.
  - intros (dy & Hdy & H). apply in_flat_map in H as (dx & Hdx & H).
    cbv zeta in H.
    destruct (inside imageData (y + dy) (x + dx)) eqn:I; [| destruct H].
    destruct H as [<- | []]. exists dy, dx. auto.
  - intros (dy & dx & Hdy & Hdx & I & ->).
    exists dy. split; [exact Hdy |]. apply in_flat_map.
    exists dx. split; [exact Hdx |]. cbv zeta. rewrite I. now left.
Qed.

Lemma fold_min_le (l : list Z) (a : Z) :
  (fold_left Z.min l a <= a)%Z
  /\ forall v, In v l -> (fold_left Z.min l a <= v)%Z.
Proof.
  revert a. induction l as [| b l IH]; intros a; cbn.
  - split; [lia | intros v []].
  - destruct (IH (Z.min a b)) as [H1 H2]. split; [lia |].
    intros v [<- | Hv]; [lia | now apply H2].
Qed.

Lemma fold_max_ge (l : list Z) (a : Z) :
  (a <= fold_left Z.max l a)%Z
  /\ forall v, In v l -> (v <= fold_left Z.max l a)%Z.
Proof.
  revert a. induction l as [| b l IH]; intros a; cbn.
  - split; [lia | intros v []].
  - destruct (IH (Z.max a b)) as [H1 H2]. split; [lia |].
    intros v [<- | Hv]; [lia | now apply H2].
Qed.

Lemma fold_min_bound (l : list Z) (a lo : Z) :
  (lo <= a)%Z -> (forall v, In v l -> (lo <= v)%Z) ->
  (lo <= fold_left Z.min l a)%Z.
Proof.
  revert a. induction l as [| b l IH]; intros a Ha H; cbn; [exact Ha |].
  apply IH; [| intros; apply H; now right].
  pose proof (H b (or_introl eq_refl)). lia.
Qed.

Lemma fold_max_bound (l : list Z) (a hi : Z) :
  (a <= hi)%Z -> (forall v, In v l -> (v <= hi)%Z) ->
  (fold_left Z.max l a <= hi)%Z.
Proof.
  revert a. induction l as [| b l IH]; intros a Ha H; cbn; [exact Ha |].
  apply IH; [| intros; apply H; now right].
  pose proof (H b (or_introl eq_refl)). lia.
Qed.

(** The first channel of a pixel, as the loops read it. *)
Lemma at_channelAt (imageData : ImageData) (y x : nat) :
  at_ imageData
    ((Z.of_nat y * Z.of_nat (width imageData) + Z.of_nat x) * 4)
  = channelAt imageData y x 0.
Proof.
  unfold at_, channelAt. f_equal. lia.
Qed.

Lemma at_channelAt3 (imageData : ImageData) (y x : nat) :
  at_ imageData
    ((Z.of_nat y * Z.of_nat (width imageData) + Z.of_nat x) * 4 + 3)
  = channelAt imageData y x 3.
Proof.
  unfold at_, channelAt. f_equal. lia.
Qed.

(** A pixel is in its own neighbourhood, and the neighbourhood relation is
    symmetric. *)
Lemma neighbourhood_self (imageData : ImageData) (radius y x : nat) :
  (y < height imageData)%nat -> (x < width imageData)%nat ->
  In (channelAt imageData y x 0)
     (neighbourhood imageData radius (Z.of_nat y) (Z.of_nat x)).
Proof.
  intros Hy Hx. apply neighbourhood_In. exists 0%Z, 0%Z.
  rewrite !offsets_In, !Z.add_0_r.
  repeat split; try lia.
  - unfold inside.
    repeat (apply andb_true_iff; split);
      first [apply Z.leb_le | apply Z.ltb_lt]; lia.
  - symmetry. apply at_channelAt.
Qed.

Lemma inside_nat (imageData : ImageData) (ny nx : Z) :
  inside imageData ny nx = true ->
  exists y x, ny = Z.of_nat y /\ nx = Z.of_nat x
              /\ (y < height imageData)%nat /\ (x < width imageData)%nat.
Proof.
  unfold inside. intros H.
  apply andb_true_iff in H as [H H4]. apply andb_true_iff in H as [H H3].
  apply andb_true_iff in H as [H1 H2].
  apply Z.leb_le in H1, H3. apply Z.ltb_lt in H2, H4.
  exists (Z.to_nat ny), (Z.to_nat nx). lia.
Qed.

Lemma wellFormed_channel (imageData : ImageData) (y x c : nat) :
  wellFormed imageData ->
  (y < height imageData)%nat -> (x < width imageData)%nat -> (c < 4)%nat ->
  (0 <= channelAt imageData y x c <= 255)%Z.
Proof.
  intros [L R] Hy Hx Hc. unfold channelAt.
  rewrite Forall_forall in R. apply R, nth_In. nia.
Qed.

(** *** [morphologyErode], [morphologyDilate] and [denoise] *)

Lemma erodedPixel_length imageData radius y x :
  List.length (erodedPixel imageData radius y x) = 4%nat.
Proof. reflexivity. Qed.

Lemma dilatedPixel_length imageData radius y x :
  List.length (dilatedPixel imageData radius y x) = 4%nat.
Proof. reflexivity. Qed.

Lemma eroded_channel imageData radius (y x c : nat) :
  (y < height imageData)%nat -> (x < width imageData)%nat -> (c < 4)%nat ->
  channelAt (morphologyErode imageData radius) y x c
  = nth c (erodedPixel imageData radius (Z.of_nat y) (Z.of_nat x)) 0%Z.
Proof.
  intros Hy Hx Hc. unfold channelAt, morphologyErode. cbn [width data].
  apply forEachPixel_nth; auto using erodedPixel_length.
Qed.

Lemma dilated_channel imageData radius (y x c : nat) :
  (y < height imageData)%nat -> (x < width imageData)%nat -> (c < 4)%nat ->
  channelAt (morphologyDilate imageData radius) y x c
  = nth c (dilatedPixel imageData radius (Z.of_nat y) (Z.of_nat x)) 0%Z.
Proof.
  intros Hy Hx Hc. unfold channelAt, morphologyDilate. cbn [width data].
  apply forEachPixel_nth; auto using dilatedPixel_length.
Qed.

Lemma neighbourhood_range imageData radius y x v :
  wellFormed imageData ->
  In v (neighbourhood imageData radius y x) -> (0 <= v <= 255)%Z.
Proof.
  intros W H. apply neighbourhood_In in H as (dy & dx & _ & _ & I & ->).
  destruct (inside_nat _ _ _ I) as (y' & x' & -> & -> & Hy & Hx).
  rewrite at_channelAt. apply wellFormed_channel; auto.
Qed.

Lemma erode_wellFormed imageData radius :
  wellFormed imageData -> wellFormed (morphologyErode imageData radius).
Proof.
  intros W. split.
  - unfold morphologyErode. cbn [width height data].
    apply forEachPixel_length. intros; apply erodedPixel_length.
  - unfold morphologyErode, forEachPixel. cbn [data].
    apply Forall_forall. intros v Hv.
    apply in_flat_map in Hv as (y & Hy & Hv).
    apply in_flat_map in Hv as (x & Hx & Hv).
    apply in_seq in Hy, Hx.
    assert (M : (0 <= fold_left Z.min
                        (neighbourhood imageData radius (Z.of_nat y)
                           (Z.of_nat x)) 255 <= 255)%Z).
    { split; [| apply (proj1 (fold_min_le _ _))].
      apply fold_min_bound; [lia |].
      intros u Hu.
      pose proof (neighbourhood_range imageData radius _ _ u W Hu) as Ru.
      lia. }
    unfold erodedPixel in Hv. cbv zeta in Hv.
    rewrite at_channelAt3 in Hv.
    destruct Hv as [<- | [<- | [<- | [<- | []]]]]; auto.
    apply wellFormed_channel; auto; lia.
Qed.

Lemma dilate_wellFormed imageData radius :
  wellFormed imageData -> wellFormed (morphologyDilate imageData radius).
Proof.
  intros W. split.
  - unfold morphologyDilate. cbn [width height data].
    apply forEachPixel_length. intros; apply dilatedPixel_length.
  - unfold morphologyDilate, forEachPixel. cbn [data].
    apply Forall_forall. intros v Hv.
    apply in_flat_map in Hv as (y & Hy & Hv).
    apply in_flat_map in Hv as (x & Hx & Hv).
    apply in_seq in Hy, Hx.
    assert (M : (0 <= fold_left Z.max
                        (neighbourhood imageData radius (Z.of_nat y)
                           (Z.of_nat x)) 0 <= 255)%Z).
    { split; [apply (proj1 (fold_max_ge _ _)) |].
      apply fold_max_bound; [lia |].
      intros u Hu.
      pose proof (neighbourhood_range imageData radius _ _ u W Hu). lia. }
    unfold dilatedPixel in Hv. cbv zeta in Hv.
    rewrite at_channelAt3 in Hv.
    destruct Hv as [<- | [<- | [<- | [<- | []]]]]; auto.
    apply wellFormed_channel; auto; lia.
Qed.

(** X15. On an image, erosion never raises the first channel of a pixel and
    dilation never lowers it; both write that value to the three colour
    channels and keep the alpha channel and the size. *)
Theorem erode_below_dilate_above (imageData : ImageData) (radius : nat) :
  wellFormed imageData ->
  let eroded := morphologyErode imageData radius in
  let dilated := morphologyDilate imageData radius in
  wellFormed eroded /\ wellFormed dilated
  /\ width eroded = width imageData /\ height eroded = height imageData
  /\ width dilated = width imageData /\ height dilated = height imageData
  /\ forall y x,
       (y < height imageData)%nat -> (x < width imageData)%nat ->
       (channelAt eroded y x 0 <= channelAt imageData y x 0
        <= channelAt dilated y x 0)%Z
       /\ channelAt eroded y x 1 = channelAt eroded y x 0
       /\ channelAt eroded y x 2 = channelAt eroded y x 0
       /\ channelAt eroded y x 3 = channelAt imageData y x 3
       /\ channelAt dilated y x 1 = channelAt dilated y x 0
       /\ channelAt dilated y x 2 = channelAt dilated y x 0
       /\ channelAt dilated y x 3 = channelAt imageData y x 3.
Proof.
  intros W eroded dilated. subst eroded dilated.
  split; [now apply erode_wellFormed |].
  split; [now apply dilate_wellFormed |].
  do 4 (split; [reflexivity |]).
  intros y x Hy Hx.
  rewrite !eroded_channel, !dilated_channel by (auto; lia).
  unfold erodedPixel, dilatedPixel. cbv zeta. cbn [nth].
  rewrite at_channelAt3.
  repeat split.
  - apply (proj2 (fold_min_le _ _)). now apply neighbourhood_self.
  - apply (proj2 (fold_max_ge _ _)). now apply neighbourhood_self.
Qed.

Lemma erode_below_dilate_above_witness :
  let eroded := morphologyErode samplePicture 1 in
  let dilated := morphologyDilate samplePicture 1 in
  (channelAt eroded 0 0 0 <= channelAt samplePicture 0 0 0
   <= channelAt dilated 0 0 0)%Z
  /\ channelAt eroded 0 0 0 = 10%Z /\ channelAt dilated 0 0 0 = 250%Z.
Proof.
  cbv zeta.
  assert (W : wellFormed samplePicture).
  { split; [reflexivity |]. repeat constructor; cbn; lia. }
  pose proof (erode_below_dilate_above samplePicture 1 W) as H.
  cbv zeta in H. destruct H as (_ & _ & _ & _ & _ & _ & H).
  destruct (H 0%nat 0%nat ltac:(cbn; lia) ltac:(cbn; lia)) as (B & _).
  split; [exact B |]. split; reflexivity.
Defined.

(** The opening of an image: an erosion followed by a dilation. *)
Lemma opening_below (imageData : ImageData) (radius : nat) :
  wellFormed imageData ->
  let opened :=
    morphologyDilate (morphologyErode imageData radius) radius in
  wellFormed opened
  /\ width opened = width imageData
  /\ height opened = height imageData
  /\ forall y x,
       (y < height imageData)%nat -> (x < width imageData)%nat ->
       (channelAt opened y x 0 <= channelAt imageData y x 0)%Z
       /\ channelAt opened y x 1 = channelAt opened y x 0
       /\ channelAt opened y x 2 = channelAt opened y x 0
       /\ channelAt opened y x 3 = channelAt imageData y x 3.
Proof.
  intros W. cbv zeta.
  set (eroded := morphologyErode imageData radius).
  assert (We : wellFormed eroded) by now apply erode_wellFormed.
  split; [now apply dilate_wellFormed |].
  split; [reflexivity |]. split; [reflexivity |].
  intros y x Hy Hx.
  rewrite !dilated_channel by (auto; lia).
  unfold dilatedPixel. cbv zeta. cbn [nth].
  rewrite at_channelAt3.
  split; [| split; [reflexivity | split; [reflexivity |]]].
  - apply fold_max_bound.
    + pose proof (wellFormed_channel imageData y x 0 W Hy Hx ltac:(lia)).
      lia.
    + intros v Hv. apply neighbourhood_In in Hv
        as (dy & dx & Hdy & Hdx & I & ->).
      destruct (inside_nat _ _ _ I) as (y' & x' & Ey & Ex & Hy' & Hx').
      rewrite Ey, Ex, at_channelAt.
      subst eroded. rewrite eroded_channel by (auto; lia).
      unfold erodedPixel. cbv zeta. cbn [nth].
      apply (proj2 (fold_min_le _ _)). apply neighbourhood_In.
      exists (- dy)%Z, (- dx)%Z.
      apply offsets_In in Hdy, Hdx. rewrite !offsets_In.
      replace (Z.of_nat y' + - dy)%Z with (Z.of_nat y) by lia.
      replace (Z.of_nat x' + - dx)%Z with (Z.of_nat x) by lia.
      repeat split; try lia.
      * unfold inside.
        repeat (apply andb_true_iff; split);
          first [apply Z.leb_le | apply Z.ltb_lt]; lia.
      * symmetry. apply at_channelAt.
  - subst eroded. rewrite eroded_channel by (auto; lia).
    unfold erodedPixel. cbv zeta. cbn [nth]. apply at_channelAt3.
Qed.

(** X16. [denoise], an erosion followed by a dilation, never raises the
    first channel of a pixel; its result is gray, and has the alpha
    channel and the size of the image. *)
Theorem denoise_never_brightens (imageData : ImageData) :
  wellFormed imageData ->
  wellFormed (denoise imageData)
  /\ width (denoise imageData) = width imageData
  /\ height (denoise imageData) = height imageData
  /\ forall y x,
       (y < height imageData)%nat -> (x < width imageData)%nat ->
       (channelAt (denoise imageData) y x 0 <= channelAt imageData y x 0)%Z
       /\ channelAt (denoise imageData) y x 1
          = channelAt (denoise imageData) y x 0
       /\ channelAt (denoise imageData) y x 2
          = channelAt (denoise imageData) y x 0
       /\ channelAt (denoise imageData) y x 3 = channelAt imageData y x 3.
Proof.
  intros W. unfold denoise. cbv zeta.
  exact (opening_below imageData 1 W).
Qed.

Lemma denoise_never_brightens_witness :
  (channelAt (denoise samplePicture) 1 1 0
   <= channelAt samplePicture 1 1 0)%Z
  /\ channelAt (denoise samplePicture) 1 1 0 = 10%Z
  /\ channelAt (denoise samplePicture) 1 1 3 = 0%Z.
Proof.
  assert (W : wellFormed samplePicture).
  { split; [reflexivity |]. repeat constructor; cbn; lia. }
  destruct (denoise_never_brightens samplePicture W) as (_ & _ & _ & H).
  destruct (H 1%nat 1%nat ltac:(cbn; lia) ltac:(cbn; lia)) as (B & _).
  split; [exact B |]. split; reflexivity.
Defined.

End MorphologyFacts.

(** ** The preprocessing pipeline *)

Module PipelineFacts.

Import Rounding ImagePreprocessing PreprocessingFacts MorphologyFacts.

Lemma grayscale_range data : Forall inRange data -> Forall inRange (grayscale data).
Proof.
  induction data as [| a | a b | a b c | a b c d l IH] using list_ind4;
    intros H; cbn [grayscale].
  - constructor.
  - repeat constructor; apply ToUint8Clamp_range.
  - repeat constructor; apply ToUint8Clamp_range.
  - repeat constructor; apply grayOf_range.
  - inversion_clear H as [| ? ? _ H1]. inversion_clear H1 as [| ? ? _ H2].
    inversion_clear H2 as [| ? ? _ H3]. inversion_clear H3 as [| ? ? Hd Hl].
    repeat (constructor; [apply grayOf_range |]).
    constructor; auto.
Qed.

Lemma binarize_range t data : Forall inRange data -> Forall inRange (binarize t data).
Proof.
  assert (B : forall v, inRange (binaryOf t v))
    by (intros v; unfold inRange; destruct (binaryOf_cases t v) as [-> | ->]; lia).
  induction data as [| a | a b | a b c | a b c d l IH] using list_ind4;
    intros H; cbn [binarize].
  1-4: repeat (constructor; [apply B |]); constructor.
  inversion_clear H as [| ? ? _ H1]. inversion_clear H1 as [| ? ? _ H2].
  inversion_clear H2 as [| ? ? _ H3]. inversion_clear H3 as [| ? ? Hd Hl].
  do 3 (constructor; [apply B |]). constructor; auto.
Qed.

Lemma contrast_range f data : Forall inRange data -> Forall inRange (contrast f data).
Proof.
  assert (B : forall v, inRange (contrastOf f v))
    by (intros v; apply ToUint8Clamp_range).
  induction data as [| a | a b | a b c | a b c d l IH] using list_ind4;
    intros H; cbn [contrast map].
  1-4: repeat (constructor; [apply B |]); constructor.
  inversion_clear H as [| ? ? _ H1]. inversion_clear H1 as [| ? ? _ H2].
  inversion_clear H2 as [| ? ? _ H3]. inversion_clear H3 as [| ? ? Hd Hl].
  do 3 (constructor; [apply B |]). constructor; auto.
Qed.

Lemma keeps_refl img : wellFormed img -> keeps img img.
Proof. intros W. repeat split; auto; apply W. Qed.

Lemma keeps_trans a b c : keeps a b -> keeps b c -> keeps a c.
Proof.
  intros (Wb & Hw & Hh & Ha) (Wc & Hw' & Hh' & Ha').
  split; [exact Wc |]. split; [congruence |]. split; [congruence |].
  intros y x Hy Hx. rewrite Ha', Ha; auto; congruence.
Qed.

Lemma pixel_index img y x :
  wellFormed img -> (y < height img)%nat -> (x < width img)%nat ->
  ((y * width img + x) * 4 + 3 < List.length (data img))%nat.
Proof. intros [L _] Hy Hx. rewrite L. nia. Qed.

Lemma toGrayscale_keeps img : wellFormed img -> keeps img (toGrayscale img).
Proof.
  intros W. split; [| split; [reflexivity | split; [reflexivity |]]].
  - destruct W as [L R]. split; cbn [toGrayscale data width height].
    + now rewrite grayscale_length.
    + now apply grayscale_range.
  - intros y x Hy Hx. unfold channelAt. cbn [toGrayscale data width].
    apply grayscale_pixel, pixel_index; auto.
Qed.

Lemma enhanceContrast_keeps img f :
  wellFormed img -> keeps img (enhanceContrast img f).
Proof.
  intros W. split; [| split; [reflexivity | split; [reflexivity |]]].
  - destruct W as [L R]. split; cbn [enhanceContrast data width height].
    + now rewrite contrast_length.
    + now apply contrast_range.
  - intros y x Hy Hx. unfold channelAt. cbn [enhanceContrast data width].
    apply contrast_pixel, pixel_index; auto.
Qed.

Lemma toBinary_keeps img t : wellFormed img -> keeps img (toBinary img t).
Proof.
  intros W. split; [| split; [reflexivity | split; [reflexivity |]]].
  - destruct W as [L R]. split; cbn [toBinary data width height].
    + now rewrite binarize_length.
    + now apply binarize_range.
  - intros y x Hy Hx. unfold channelAt. cbn [toBinary data width].
    apply binarize_pixel, pixel_index; auto.
Qed.

Lemma denoise_keeps img : wellFormed img -> keeps img (denoise img).
Proof.
  intros W. destruct (opening_below img 1 W) as (Wd & Hw & Hh & H).
  split; [exact Wd |]. split; [exact Hw |]. split; [exact Hh |].
  intros y x Hy Hx. now apply H.
Qed.

(** X17. Whatever the options, [preprocessImage] returns an image of the
    size of the one it received, with the alpha channel of every pixel as
    it was; with [options.binary] every pixel of the result is black or
    white. *)
Theorem preprocessImage_keeps_the_frame (canvas : ImageData)
    (options : ImageProcessingOptions) :
  wellFormed canvas ->
  let result := preprocessImage canvas options in
  wellFormed result
  /\ width result = width canvas /\ height result = height canvas
  /\ forall y x,
       (y < height canvas)%nat -> (x < width canvas)%nat ->
       channelAt result y x 3 = channelAt canvas y x 3
       /\ (opt_binary options = true ->
           (channelAt result y x 0 = 0%Z \/ channelAt result y x 0 = 255%Z)
           /\ channelAt result y x 1 = channelAt result y x 0
           /\ channelAt result y x 2 = channelAt result y x 0).
Proof.
  intros W. cbv zeta. unfold preprocessImage. cbv zeta.
  set (i1 := if opt_grayscale options then toGrayscale canvas else canvas).
  set (i2 := if opt_enhance options then enhanceContrast i1 (Some 1.3) else i1).
  set (i3 := if opt_denoise options then denoise i2 else i2).
  assert (K1 : keeps canvas i1).
  { subst i1. destruct (opt_grayscale options);
      [now apply toGrayscale_keeps | now apply keeps_refl]. }
  assert (K2 : keeps canvas i2).
  { apply (keeps_trans _ i1); [exact K1 |].
    subst i2. destruct (opt_enhance options);
      [apply enhanceContrast_keeps | apply keeps_refl]; apply K1. }
  assert (K3 : keeps canvas i3).
  { apply (keeps_trans _ i2); [exact K2 |].
    subst i3. destruct (opt_denoise options);
      [apply denoise_keeps | apply keeps_refl]; apply K2. }
  assert (K4 : keeps canvas (if opt_binary options then toBinary i3 None else i3)).
  { apply (keeps_trans _ i3); [exact K3 |].
    destruct (opt_binary options);
      [apply toBinary_keeps | apply keeps_refl]; apply K3. }
  destruct K4 as (W4 & Hw & Hh & Ha).
  split; [exact W4 |]. split; [exact Hw |]. split; [exact Hh |].
  intros y x Hy Hx. split; [now apply Ha |].
  intros ->.
  destruct K3 as (W3 & Hw3 & Hh3 & _).
  assert (I : ((y * width i3 + x) * 4 + 3 < List.length (data i3))%nat)
    by (apply pixel_index; auto; congruence).
  destruct (binarize_pixel (calculateOtsuThreshold i3) (data i3)
              (y * width i3 + x) I) as (E0 & E1 & E2 & _).
  unfold channelAt. cbn [toBinary data width].
  rewrite Nat.add_0_r.
  rewrite E1, E2, E0. repeat split; auto. apply binaryOf_cases.
Qed.

Lemma preprocessImage_keeps_the_frame_witness :
  let options := {| opt_grayscale := true; opt_binary := true;
                    opt_denoise := true; opt_enhance := true |} in
  let result := preprocessImage samplePicture options in
  channelAt result 0 1 3 = 128%Z
  /\ (channelAt result 0 1 0 = 0%Z \/ channelAt result 0 1 0 = 255%Z).
Proof.
  cbv zeta.
  assert (W : wellFormed samplePicture).
  { split; [reflexivity |]. repeat constructor; cbn; lia. }
  pose proof (preprocessImage_keeps_the_frame samplePicture
                {| opt_grayscale := true; opt_binary := true;
                   opt_denoise := true; opt_enhance := true |} W) as H.
  cbv zeta in H. destruct H as (_ & _ & _ & H).
  destruct (H 0%nat 1%nat ltac:(cbn; lia) ltac:(cbn; lia)) as (A & B).
  split; [exact A |]. apply (B eq_refl).
Defined.

End PipelineFacts.

(** ** The two-phase session *)

Module SessionFacts.

Import Ocr Session.

(** *** Rules for the observations of a run *)

Section Rules.

Context {A B : Type}.
Variable P : Event -> Prop.

Lemma traceAll_ret (a : A) : traceAll P (ret a).
Proof. intros s. constructor. Qed.

Lemma traceAll_throw (m : Message) : traceAll P (@throw A m).
Proof. intros s. constructor. Qed.

Lemma traceAll_await (o : Outcome A) : traceAll P (await o).
Proof. intros s. constructor. Qed.

Lemma traceAll_update f : traceAll P (updateOCRState f).
Proof. intros s. constructor. Qed.

Lemma traceAll_emit e : P e -> traceAll P (emit e).
Proof. intros H s. cbn. auto. Qed.

Lemma traceAll_bind (m : M A) (k : A -> M B) :
  traceAll P m -> (forall a, traceAll P (k a)) -> traceAll P (bind m k).
Proof.
  intros Hm Hk s. unfold bind.
  destruct (outcome (m s)); cbn [trace].
  - apply Forall_app. split; [apply Hm | apply Hk].
  - apply Hm.
Qed.

Lemma traceAll_tryCatch (body : M A) handler :
  traceAll P body -> (forall e, traceAll P (handler e)) ->
  traceAll P (tryCatch body handler).
Proof.
  intros Hb Hh s. unfold tryCatch.
  destruct (outcome (body s)); cbn [trace].
  - apply Hb.
  - apply Forall_app. split; [apply Hb | apply Hh].
Qed.

Lemma returns_ret (Q : A -> Prop) (a : A) : Q a -> returnsWith Q (ret a).
Proof. intros H s. exists a. auto. Qed.

Lemma returns_await (Q : A -> Prop) (a : A) :
  Q a -> returnsWith Q (await (Returns a)).
Proof. intros H s. exists a. auto. Qed.

Lemma returns_bind (Q1 : A -> Prop) (Q : B -> Prop) (m : M A) (k : A -> M B) :
  returnsWith Q1 m -> (forall a, Q1 a -> returnsWith Q (k a)) ->
  returnsWith Q (bind m k).
Proof.
  intros Hm Hk s. unfold bind.
  destruct (Hm s) as (a & E & Ha). rewrite E. cbn [outcome].
  apply (Hk a Ha).
Qed.

Lemma returns_tryCatch (Q : A -> Prop) (body : M A) handler :
  returnsWith Q body -> returnsWith Q (tryCatch body handler).
Proof.
  intros Hb s. unfold tryCatch.
  destruct (Hb s) as (a & E & Ha). rewrite E. eauto.
Qed.

Lemma emits_bind_l e (m : M A) (k : A -> M B) : emits e m -> emits e (bind m k).
Proof.
  intros H s. unfold bind.
  destruct (outcome (m s)); cbn [trace]; [apply in_or_app; left |]; apply H.
Qed.

Lemma emits_bind_r e (Q1 : A -> Prop) (m : M A) (k : A -> M B) :
  returnsWith Q1 m -> (forall a, Q1 a -> emits e (k a)) ->
  emits e (bind m k).
Proof.
  intros Hm Hk s. unfold bind.
  destruct (Hm s) as (a & E & Ha). rewrite E. cbn [trace].
  apply in_or_app. right. now apply Hk.
Qed.

Lemma emits_tryCatch e (body : M A) handler :
  emits e body -> emits e (tryCatch body handler).
Proof.
  intros H s. unfold tryCatch.
  destruct (outcome (body s)); cbn [trace]; [| apply in_or_app; left];
    apply H.
Qed.

End Rules.

Lemma returns_update (Q : unit -> Prop) f :
  Q tt -> returnsWith Q (updateOCRState f).
Proof. intros H s. exists tt. auto. Qed.

Lemma returns_emit (Q : unit -> Prop) e : Q tt -> returnsWith Q (emit e).
Proof. intros H s. exists tt. auto. Qed.

Lemma emits_emit e : emits e (emit e).
Proof. intros s. now left. Qed.

(** Every event passes a test that is [true] on it. *)
Ltac trace_all :=
  repeat
    (intros;
     match goal with
     | |- traceAll _ (bind _ _) => apply traceAll_bind
     | |- traceAll _ (tryCatch _ _) => apply traceAll_tryCatch
     | |- traceAll _ (ret _) => apply traceAll_ret
     | |- traceAll _ (throw _) => apply traceAll_throw
     | |- traceAll _ (await _) => apply traceAll_await
     | |- traceAll _ (updateOCRState _) => apply traceAll_update
     | |- traceAll _ (emit _) => apply traceAll_emit
     | |- traceAll _ (if ?c then _ else _) => destruct c
     | |- traceAll _ (match ?x with _ => _ end) => destruct x
     end).

(** A step that always returns. *)
Ltac returns_any :=
  repeat
    (intros;
     match goal with
     | |- returnsWith _ (bind _ _) =>
         apply (returns_bind (fun _ => True))
     | |- returnsWith _ (ret _) => apply returns_ret; exact I
     | |- returnsWith _ (updateOCRState _) => apply returns_update; exact I
     | |- returnsWith _ (emit _) => apply returns_emit; exact I
     | |- returnsWith _ (if ?c then _ else _) => destruct c
     | |- returnsWith _ (match ?x with _ => _ end) => destruct x
     end).

(** *** The first phase *)

(** [initializeOCR] catches whatever is thrown: it always returns. *)
Lemma tryCatch_returns {A} (body : M A) handler :
  (forall e, returnsWith (fun _ => True) (handler e)) ->
  returnsWith (fun _ => True) (tryCatch body handler).
Proof.
  intros Hh s. unfold tryCatch.
  destruct (outcome (body s)) as [a | e] eqn:E.
  - exists a. auto.
  - destruct (Hh e (final (body s))) as (a & Ea & _).
    exists a. cbn [outcome]. auto.
Qed.

Lemma initializeOCR_returns env : returnsWith (fun _ => True) (initializeOCR env).
Proof. unfold initializeOCR. apply tryCatch_returns. returns_any. Qed.

Lemma initializeOCR_never_recognizes env :
  traceAll (fun e => isRecognize e = false) (initializeOCR env).
Proof. unfold initializeOCR. trace_all; reflexivity. Qed.

(** The run of a successful initialization. *)
Lemma runs_ret {A} (a : A) s : runsTo (ret a) s a s [].
Proof. reflexivity. Qed.

Lemma runs_update f s : runsTo (updateOCRState f) s tt (f s) [].
Proof. reflexivity. Qed.

Lemma runs_emit e s : runsTo (emit e) s tt s [e].
Proof. reflexivity. Qed.

Lemma runs_await {A} (o : Outcome A) (a : A) s :
  o = Returns a -> runsTo (await o) s a s [].
Proof. intros ->. reflexivity. Qed.

Lemma runs_bind {A B} (m : M A) (k : A -> M B) s a s1 t1 b s2 t2 :
  runsTo m s a s1 t1 -> runsTo (k a) s1 b s2 t2 ->
  runsTo (bind m k) s b s2 (t1 ++ t2).
Proof.
  unfold runsTo, bind. intros -> H. cbn [outcome final trace].
  now rewrite H.
Qed.

Lemma runs_tryCatch {A} (body : M A) handler s a s' t :
  runsTo body s a s' t -> runsTo (tryCatch body handler) s a s' t.
Proof. unfold runsTo, tryCatch. now intros ->. Qed.

Ltac runs_step rule := eapply runs_bind; [apply rule | cbv beta].

Lemma initializeOCR_success env s ids bounds blob canvas :
  getSelectedShapeIds env = ids -> ids <> [] ->
  getSelectionPageBounds env = Some bounds ->
  toImage env ids = Returns (Some blob) ->
  blobToCanvas env blob = Returns canvas ->
  proxyImageLoads env blob = true ->
  let r := initializeOCR env s in
  outcome r = Returns {| init_success := true; init_message := InitSucceeded |}
  /\ trace r = [ Rasterize ids; LoadProxyImage blob; PlaceProxyImage bounds;
                 Toast "ocr-initialized" ]
  /\ isInitialized (final r) = true
  /\ initializationData (final r)
     = Some {| selectionBounds := Some bounds; shapeIds := ids;
               imageCanvas := Some canvas |}
  /\ isProcessing (final r) = false.
Proof.
  intros Hids Hne Hb Hi Hc Hl.
  assert (R : exists s',
             runsTo (initializeOCR env) s
               {| init_success := true; init_message := InitSucceeded |} s'
               ([] ++ [] ++ [Rasterize ids] ++ [] ++ [] ++ [] ++ []
                ++ [LoadProxyImage blob] ++ [] ++ [PlaceProxyImage bounds]
                ++ [] ++ [Toast "ocr-initialized"] ++ [])
             /\ isInitialized s' = true
             /\ initializationData s'
                = Some {| selectionBounds := Some bounds; shapeIds := ids;
                          imageCanvas := Some canvas |}
             /\ isProcessing s' = false).
  { eexists. split.
    - unfold initializeOCR. rewrite Hids, Hb. apply runs_tryCatch.
      runs_step runs_update. cbv zeta.
      destruct ids as [| i ids']; [congruence |].
      cbn [List.length Nat.eqb].
      runs_step runs_update. runs_step runs_emit.
      eapply runs_bind; [apply runs_await, Hi | cbv beta].
      runs_step runs_update.
      eapply runs_bind; [apply runs_await, Hc | cbv beta].
      runs_step runs_update. runs_step runs_emit. rewrite Hl.
      runs_step (@runs_ret unit). runs_step runs_emit. runs_step runs_update.
      runs_step runs_emit. apply runs_ret.
    - cbn. auto. }
  destruct R as (s' & R & H1 & H2 & H3). cbv zeta. rewrite R.
  cbn [outcome final trace app]. auto.
Qed.

(** *** The second phase *)

Lemma analysisStep_no_rasterize env options ocrState ocrResult canvas bounds :
  traceAll (fun e => isRasterize e = false)
    (analysisStep env options ocrState ocrResult canvas bounds).
Proof. unfold analysisStep. trace_all; reflexivity. Qed.

Lemma recognize_no_rasterize env options ocrState data :
  traceAll (fun e => isRasterize e = false)
    (recognize env options ocrState data).
Proof.
  unfold recognize. trace_all;
    try reflexivity; try apply analysisStep_no_rasterize.
Qed.

Lemma analysisStep_recognizes_nothing env options ocrState ocrResult canvas
    bounds :
  traceAll (fun e => isRecognize e = false)
    (analysisStep env options ocrState ocrResult canvas bounds).
Proof. unfold analysisStep. trace_all; reflexivity. Qed.

(** Whatever [recognize] hands to the OCR engine is the canvas of the
    initialization data. *)
Lemma recognize_only_initial_raster env options ocrState data :
  traceAll (fun e => forall a b, e = Recognize a b ->
                                 imageCanvas data = Some a)
    (recognize env options ocrState data).
Proof.
  unfold recognize.
  destruct (imageCanvas data) as [c |], (selectionBounds data) as [sb |].
  2-4: trace_all; discriminate.
  trace_all; try (intros; discriminate).
  - intros ? ? [= <- _]. reflexivity.
  - intros s. eapply Forall_impl; [| apply analysisStep_recognizes_nothing].
    cbn beta. intros e He ? ? ->. discriminate.
Qed.

Lemma analysisStep_returns env options ocrState ocrResult canvas bounds :
  returnsWith (fun _ => True)
    (analysisStep env options ocrState ocrResult canvas bounds).
Proof. unfold analysisStep. returns_any. Qed.

(** A step that always returns, inside a sequence. *)
Ltac step_any :=
  apply (returns_bind (fun _ => True));
  [ first [apply analysisStep_returns | returns_any]
  | intros ? _; cbv beta zeta ].

Ltac emits_after :=
  apply (emits_bind_r _ (fun _ => True));
  [ first [apply analysisStep_returns | returns_any]
  | intros ? _; cbv beta zeta ].

(** When the preprocessing and the OCR engine answer, [recognize] returns
    the success object with the recognition result, and has called the
    engine on the canvas of the initialization data. *)
Lemma recognize_success env options ocrState data canvas bounds pre ocr :
  imageCanvas data = Some canvas -> selectionBounds data = Some bounds ->
  preprocessImage env canvas = Returns pre ->
  processImageOCR env canvas pre = Returns ocr ->
  returnsWith
    (fun res =>
       res = {| success := true;
                result := Some (withImageSize ocr (canvas_width canvas)
                                  (canvas_height canvas));
                result_error := None |})
    (recognize env options ocrState data)
  /\ emits (Recognize canvas pre) (recognize env options ocrState data).
Proof.
  intros Hc Hb Hpre Hocr. unfold recognize. rewrite Hc, Hb, Hpre.
  split.
  - apply returns_tryCatch.
    do 3 step_any.
    apply (returns_bind (fun a => a = pre));
      [apply returns_await; reflexivity | intros ? ->; cbv beta zeta].
    do 2 step_any. rewrite Hocr.
    apply (returns_bind (fun a => a = ocr));
      [apply returns_await; reflexivity | intros ? ->; cbv beta zeta].
    do 11 step_any.
    apply returns_ret. reflexivity.
  - apply emits_tryCatch.
    do 3 emits_after.
    apply (emits_bind_r _ (fun a => a = pre));
      [apply returns_await; reflexivity | intros ? ->; cbv beta zeta].
    emits_after.
    apply emits_bind_l, emits_emit.
Qed.

(** C7. A call of [processSelectedShapes] while the session is
    uninitialized does what [initializeOCR] does and nothing else: it
    leaves the state [initializeOCR] leaves, calls no OCR, and returns an
    object without recognition result; when the collaborators of the
    initialization answer, it returns success and the session is
    initialized with the captured raster.  A call while the session is
    initialized never rasterizes, hands to the OCR engine only the canvas
    captured by the initialization, and, when preprocessing and the engine
    answer, returns the success object that contains the recognition
    result. *)
Theorem two_phase_protocol (env : World) (options : Options) :
  (forall ocrState s,
      uninitialized ocrState ->
      let r := processSelectedShapes env options ocrState s in
      trace r = trace (initializeOCR env s)
      /\ final r = final (initializeOCR env s)
      /\ Forall (fun e => isRecognize e = false) (trace r)
      /\ exists res, outcome r = Returns res /\ result res = None)
  /\ (forall ocrState s ids bounds blob canvas,
         uninitialized ocrState ->
         getSelectedShapeIds env = ids -> ids <> [] ->
         getSelectionPageBounds env = Some bounds ->
         toImage env ids = Returns (Some blob) ->
         blobToCanvas env blob = Returns canvas ->
         proxyImageLoads env blob = true ->
         let r := processSelectedShapes env options ocrState s in
         outcome r = Returns {| success := true; result := None;
                                result_error := None |}
         /\ isInitialized (final r) = true
         /\ initializationData (final r)
            = Some {| selectionBounds := Some bounds; shapeIds := ids;
                      imageCanvas := Some canvas |})
  /\ (forall ocrState s data canvas bounds,
         isInitialized ocrState = true ->
         initializationData ocrState = Some data ->
         imageCanvas data = Some canvas ->
         selectionBounds data = Some bounds ->
         let r := processSelectedShapes env options ocrState s in
         Forall (fun e => isRasterize e = false) (trace r)
         /\ Forall (fun e => forall a b, e = Recognize a b -> a = canvas)
                   (trace r)
         /\ (forall pre ocr,
                preprocessImage env canvas = Returns pre ->
                processImageOCR env canvas pre = Returns ocr ->
                outcome r
                = Returns {| success := true;
                             result :=
                               Some (withImageSize ocr (canvas_width canvas)
                                       (canvas_height canvas));
                             result_error := None |}
                /\ In (Recognize canvas pre) (trace r))).
Proof.
  assert (U : forall ocrState, uninitialized ocrState ->
              processSelectedShapes env options ocrState
              = (initResult <- initializeOCR env ;;
                 ret {| success := init_success initResult;
                        result := None;
                        result_error :=
                          if init_success initResult then None
                          else Some (init_message initResult) |})).
  { intros ocrState [H | H]; unfold processSelectedShapes; rewrite H;
      [reflexivity | now destruct (isInitialized ocrState)]. }
  split; [| split].
  - intros ocrState s Hu r. subst r. rewrite (U _ Hu). unfold bind.
    destruct (initializeOCR_returns env s) as (ir & E & _). rewrite E.
    cbn [outcome final trace ret]. rewrite app_nil_r.
    split; [reflexivity |]. split; [reflexivity |].
    split; [apply initializeOCR_never_recognizes |].
    eexists. split; reflexivity.
  - intros ocrState s ids bounds blob canvas Hu Hids Hne Hb Hi Hc Hl r.
    subst r. rewrite (U _ Hu). unfold bind.
    destruct (initializeOCR_success env s ids bounds blob canvas
                Hids Hne Hb Hi Hc Hl) as (E & _ & Hinit & Hdata & _).
    rewrite E. cbn [outcome final trace ret init_success].
    auto.
  - intros ocrState s data canvas bounds Hinit Hdata Hc Hb r. subst r.
    unfold processSelectedShapes. rewrite Hinit, Hdata.
    split; [apply recognize_no_rasterize |].
    split.
    + eapply Forall_impl; [| apply recognize_only_initial_raster].
      cbn beta. intros e He a b Hab. specialize (He a b Hab).
      rewrite Hc in He. now injection He.
    + intros pre ocr Hpre Hocr.
      destruct (recognize_success env options ocrState data canvas bounds
                  pre ocr Hc Hb Hpre Hocr) as [R E].
      destruct (R s) as (res & Hres & ->).
      split; [exact Hres | apply E].
Qed.

(** The two calls in a row, in the sample world: the first initializes,
    the second recognizes on the raster of the first. *)
Lemma two_phase_protocol_witness :
  let first := processSelectedShapes sampleWorld buttonOptions
                 initialState initialState in
  let second := processSelectedShapes sampleWorld buttonOptions
                  (final first) (final first) in
  outcome first = Returns {| success := true; result := None;
                             result_error := None |}
  /\ isInitialized (final first) = true
  /\ Forall (fun e => isRecognize e = false) (trace first)
  /\ outcome second
     = Returns {| success := true;
                  result := Some (withImageSize sampleResult 900 450);
                  result_error := None |}
  /\ Forall (fun e => isRasterize e = false) (trace second).
Proof.
  cbv zeta.
  destruct (two_phase_protocol sampleWorld buttonOptions) as (P1 & P2 & P3).
  destruct (P1 initialState initialState (or_introl eq_refl))
    as (_ & _ & N1 & _).
  destruct (P2 initialState initialState ["shape:a"%string] sampleBounds
              {| blob_raster := 1 |} sampleCanvas (or_introl eq_refl)
              eq_refl ltac:(discriminate) eq_refl eq_refl eq_refl eq_refl)
    as (O1 & I1 & D1).
  destruct (P3 _ (final (processSelectedShapes sampleWorld buttonOptions
                           initialState initialState))
              _ sampleCanvas sampleBounds I1 D1 eq_refl eq_refl)
    as (N2 & _ & S2).
  destruct (S2 {| raster := 101; canvas_width := 900; canvas_height := 450 |}
              sampleResult eq_refl eq_refl) as (O2 & _).
  repeat split; assumption.
Defined.

(** *** Calls while a phase is in flight *)

(** Called while a phase is processing, [initializeOCR] rasterizes and
    initializes again, and [processSelectedShapes] recognizes again. *)
Lemma entry_points_run_while_processing :
  isProcessing busyState = true
  /\ trace (initializeOCR sampleWorld busyState)
     = [ Rasterize ["shape:a"%string]; LoadProxyImage {| blob_raster := 1 |};
         PlaceProxyImage sampleBounds; Toast "ocr-initialized" ]
  /\ final (initializeOCR sampleWorld busyState) <> busyState
  /\ trace (processSelectedShapes sampleWorld buttonOptions busyState busyState)
     = trace (initializeOCR sampleWorld busyState)
  /\ isProcessing busyInitializedState = true
  /\ In (Recognize sampleCanvas
           {| raster := 101; canvas_width := 900; canvas_height := 450 |})
        (trace (processSelectedShapes sampleWorld buttonOptions
                  busyInitializedState busyInitializedState))
  /\ final (processSelectedShapes sampleWorld buttonOptions
              busyInitializedState busyInitializedState)
     <> busyInitializedState.
Proof.
  split; [reflexivity |]. split; [reflexivity |].
  split.
  { intros H. apply (f_equal isInitialized) in H. discriminate H. }
  split; [reflexivity |]. split; [reflexivity |].
  split.
  { vm_compute. auto. }
  intros H. apply (f_equal isProcessing) in H. discriminate H.
Qed.

(** With a selection that has page bounds [initializeOCR] rasterizes
    it, whatever state it starts from. *)
Lemma initializeOCR_rasterizes env ids bounds :
  getSelectedShapeIds env = ids -> ids <> [] ->
  getSelectionPageBounds env = Some bounds ->
  emits (Rasterize ids) (initializeOCR env).
Proof.
  intros Hids Hne Hb. unfold initializeOCR. rewrite Hids, Hb.
  destruct ids as [| i ids]; [congruence |].
  cbn [List.length Nat.eqb].
  apply emits_tryCatch.
  do 2 emits_after.
  apply emits_bind_l, emits_emit.
Qed.

(** When the preprocessing answers, [recognize] hands the canvas of the
    initialization data to the OCR engine, whatever state it starts
    from. *)
Lemma recognize_calls_engine env options ocrState data canvas bounds pre :
  imageCanvas data = Some canvas -> selectionBounds data = Some bounds ->
  preprocessImage env canvas = Returns pre ->
  emits (Recognize canvas pre) (recognize env options ocrState data).
Proof.
  intros Hc Hb Hpre. unfold recognize. rewrite Hc, Hb, Hpre.
  apply emits_tryCatch.
  do 3 emits_after.
  apply (emits_bind_r _ (fun a => a = pre));
    [apply returns_await; reflexivity | intros ? ->; cbv beta zeta].
  emits_after.
  apply emits_bind_l, emits_emit.
Qed.

(** C8, as the code has it.  [initializeOCR], [processSelectedShapes] and
    the handler [handleProcessSelected] of the button do not look at
    [isProcessing]: whatever its value, in the state of the hook and in
    the state the callback was created with, they run the same way.  So a
    call made while a phase is processing is no no-op: with a selection
    that has page bounds, [initializeOCR], and [processSelectedShapes] on
    an uninitialized session, rasterize the selection again, and on an
    initialized session whose preprocessing answers
    [processSelectedShapes] calls the OCR engine again. *)
Theorem entry_points_ignore_isProcessing (env : World) (options : Options) :
  (forall s b, initializeOCR env (set_isProcessing b s) = initializeOCR env s)
  /\ (forall ocrState s b b',
         processSelectedShapes env options (set_isProcessing b ocrState)
           (set_isProcessing b' s)
         = processSelectedShapes env options ocrState s)
  /\ (forall ocrState s b b',
         handleProcessSelected env options (set_isProcessing b ocrState)
           (set_isProcessing b' s)
         = handleProcessSelected env options ocrState s)
  /\ (forall ocrState s ids bounds,
         getSelectedShapeIds env = ids -> ids <> [] ->
         getSelectionPageBounds env = Some bounds ->
         In (Rasterize ids) (trace (initializeOCR env s))
         /\ (uninitialized ocrState ->
             In (Rasterize ids)
                (trace (processSelectedShapes env options ocrState s))))
  /\ (forall ocrState s data canvas bounds pre,
         isInitialized ocrState = true ->
         initializationData ocrState = Some data ->
         imageCanvas data = Some canvas ->
         selectionBounds data = Some bounds ->
         preprocessImage env canvas = Returns pre ->
         In (Recognize canvas pre)
            (trace (processSelectedShapes env options ocrState s))).
Proof.
  assert (P : forall ocrState s b b',
             processSelectedShapes env options (set_isProcessing b ocrState)
               (set_isProcessing b' s)
             = processSelectedShapes env options ocrState s).
  { intros ocrState s b b'. unfold processSelectedShapes.
    cbn [set_isProcessing isInitialized initializationData].
    destruct (isInitialized ocrState), (initializationData ocrState);
      reflexivity. }
  split; [intros s b; reflexivity |].
  split; [exact P |].
  split.
  { intros ocrState s b b'. unfold handleProcessSelected, bind, tryCatch.
    cbn [resetOCRState updateOCRState final outcome trace].
    unfold processSelectedShapes.
    cbn [set_isProcessing isInitialized initializationData].
    destruct (isInitialized ocrState), (initializationData ocrState);
      reflexivity. }
  split.
  - intros ocrState s ids bounds Hids Hne Hb.
    pose proof (initializeOCR_rasterizes env ids bounds Hids Hne Hb) as E.
    split; [apply E |].
    intros Hu.
    assert (U : processSelectedShapes env options ocrState
                = (initResult <- initializeOCR env ;;
                   ret {| success := init_success initResult;
                          result := None;
                          result_error :=
                            if init_success initResult then None
                            else Some (init_message initResult) |})).
    { destruct Hu as [H | H]; unfold processSelectedShapes; rewrite H;
        [reflexivity | now destruct (isInitialized ocrState)]. }
    rewrite U. apply emits_bind_l, E.
  - intros ocrState s data canvas bounds pre Hinit Hdata Hc Hb Hpre.
    unfold processSelectedShapes. rewrite Hinit, Hdata.
    apply (recognize_calls_engine env options ocrState data canvas bounds pre
             Hc Hb Hpre).
Qed.

(** In the sample world, from a state in which a phase is processing:
    [initializeOCR] rasterizes the selected shape again, and on the
    initialized session [processSelectedShapes] calls the engine again. *)
Lemma entry_points_ignore_isProcessing_witness :
  isProcessing busyState = true
  /\ In (Rasterize ["shape:a"%string])
        (trace (initializeOCR sampleWorld busyState))
  /\ In (Rasterize ["shape:a"%string])
        (trace (processSelectedShapes sampleWorld buttonOptions
                  busyState busyState))
  /\ isProcessing busyInitializedState = true
  /\ In (Recognize sampleCanvas
           {| raster := 101; canvas_width := 900; canvas_height := 450 |})
        (trace (processSelectedShapes sampleWorld buttonOptions
                  busyInitializedState busyInitializedState)).
Proof.
  destruct (entry_points_ignore_isProcessing sampleWorld buttonOptions)
    as (_ & _ & _ & R & E).
  destruct (R busyState busyState ["shape:a"%string] sampleBounds
              eq_refl ltac:(discriminate) eq_refl) as (R1 & R2).
  split; [reflexivity |]. split; [exact R1 |].
  split; [apply R2; left; reflexivity |].
  split; [reflexivity |].
  apply (E busyInitializedState busyInitializedState _ sampleCanvas
           sampleBounds _ eq_refl eq_refl eq_refl eq_refl eq_refl).
Defined.

End SessionFacts.

(** ** Every call settles *)

Module SettleFacts.

Import Ocr Session SessionFacts.

Section Triples.

Context {A B : Type}.
Variables (P : OCRState -> Prop) (E : option Message -> OCRState -> Prop).






End Triples.










End SettleFacts.

(** ** The character boxes of a recognition *)

Module ExtractionFacts.

Import Ocr Tesseract JsString CharacterExtraction Reconcile ReconcileFacts.

(** *** The ids *)

Lemma uint_of_zeros (k : nat) (s : string) (d : Decimal.uint) :
  NilEmpty.uint_of_string s = Some d ->
  exists d', NilEmpty.uint_of_string (zeros k ++ s) = Some d'
             /\ Nat.of_uint d' = Nat.of_uint d.
Proof.
  intros H. induction k as [| k (d' & E & IH)]; cbn.
  - exists d. split; [exact H | reflexivity].
  - rewrite E. cbn. exists (Decimal.D0 d'). split; [reflexivity | exact IH].
Qed.

(** The number of an id is the index it was made from, plus one. *)
Lemma charNumber_charIdOf (charIndex : nat) :
  charNumber (charIdOf charIndex) = Some (charIndex + 1)%nat.
Proof.
  unfold charNumber, charIdOf, padStart0, String_of_nat.
  destruct (uint_of_zeros
              (3 - String.length
                     (NilEmpty.string_of_uint (Nat.to_uint (charIndex + 1))))
              _ _ (NilEmpty.usu (Nat.to_uint (charIndex + 1))))
    as (d' & E & H).
  rewrite E. cbn [option_map]. f_equal.
  rewrite H. apply Unsigned.of_to.
Qed.

Lemma charIdOf_inj (i j : nat) : charIdOf i = charIdOf j -> i = j.
Proof.
  intros H. apply (f_equal charNumber) in H.
  rewrite !charNumber_charIdOf in H. injection H. lia.
Qed.

(** *** The loop *)

Lemma numbered_pushSymbol st symbol :
  numbered st -> numbered (pushSymbol st symbol).
Proof.
  intros [Hn Hid]. unfold pushSymbol.
  destruct (negb (trimIsEmpty (text symbol))); [| now split].
  cbv zeta. split; cbn [charIndex characters].
  - rewrite length_app. cbn. lia.
  - intros k b Hk.
    destruct (Nat.lt_ge_cases k (List.length (characters st))) as [L | G].
    + rewrite nth_error_app1 in Hk by exact L. now apply Hid.
    + rewrite nth_error_app2 in Hk by exact G.
      destruct (k - List.length (characters st))%nat as [| r] eqn:E.
      * cbn in Hk. injection Hk as <-. cbn [char_id]. f_equal. lia.
      * destruct r; discriminate Hk.
Qed.

Lemma fold_invariant {A S} (P : S -> Prop) (f : S -> A -> S) :
  (forall s a, P s -> P (f s a)) ->
  forall l s, P s -> P (fold_left f l s).
Proof.
  intros H l. induction l as [| a l IH]; intros s Hs; cbn; auto.
Qed.

Lemma numbered_extraction (data : RecognizeData) :
  numbered (fold_left pushParagraph (paragraphs data)
              {| characters := []; charIndex := 0 |}).
Proof.
  apply fold_invariant.
  - intros st paragraph. apply fold_invariant.
    intros st' line. apply fold_invariant.
    intros st'' word H. unfold pushWord.
    destruct (symbols word) as [[| s l] |]; auto.
    apply fold_invariant; auto using numbered_pushSymbol.
  - split; [reflexivity |]. intros [| k] b H; discriminate H.
Qed.

(** The characters pushed for a list of symbols are those of its
    symbols that are not blank, in order. *)
Lemma pushSymbol_chars (l : list Symbol) (st : Extracted) :
  map char (characters (fold_left pushSymbol l st))
  = map char (characters st)
    ++ filter (fun t => negb (trimIsEmpty t)) (map text l).
Proof.
  revert st. induction l as [| s l IH]; intros st; cbn [fold_left map filter].
  - now rewrite app_nil_r.
  - rewrite IH. unfold pushSymbol.
    destruct (negb (trimIsEmpty (text s))); [| reflexivity].
    cbv zeta. cbn [characters]. rewrite map_app, <- app_assoc. reflexivity.
Qed.

Lemma pushWord_chars (word : Word) (st : Extracted) :
  map char (characters (pushWord st word))
  = map char (characters st)
    ++ filter (fun t => negb (trimIsEmpty t))
         (map text (match symbols word with Some l => l | None => [] end)).
Proof.
  unfold pushWord. destruct (symbols word) as [[| s l] |].
  - cbn. now rewrite app_nil_r.
  - apply pushSymbol_chars.
  - cbn. now rewrite app_nil_r.
Qed.

Lemma fold_chars {A} (push : Extracted -> A -> Extracted)
    (inner : A -> list Symbol) :
  (forall st a,
      map char (characters (push st a))
      = map char (characters st)
        ++ filter (fun t => negb (trimIsEmpty t)) (map text (inner a))) ->
  forall l st,
    map char (characters (fold_left push l st))
    = map char (characters st)
      ++ filter (fun t => negb (trimIsEmpty t))
           (map text (flat_map inner l)).
Proof.
  intros H l. induction l as [| a l IH]; intros st; cbn [fold_left flat_map].
  - cbn. now rewrite app_nil_r.
  - rewrite IH, H, map_app, filter_app, app_assoc. reflexivity.
Qed.

Lemma extracted_ids (data : RecognizeData) (k : nat) (b : CharacterBox) :
  nth_error (extractCharacterBoxes data) k = Some b -> char_id b = charIdOf k.
Proof.
  unfold extractCharacterBoxes.
  destruct (numbered_extraction data) as [_ Hid]. apply Hid.
Qed.

(** X19. The boxes that [extractCharacterBoxes] returns are those of the
    symbols that are not blank, in reading order; the box at position [k]
    has the id [c] followed by [k + 1] in at least three digits, so the
    ids of one recognition are pairwise distinct. *)
Theorem extracted_ids_count_up (data : RecognizeData) :
  let boxes := extractCharacterBoxes data in
  map char boxes
  = filter (fun t => negb (trimIsEmpty t)) (map text (symbolsOf data))
  /\ (forall k b, nth_error boxes k = Some b ->
                  char_id b = charIdOf k
                  /\ charNumber (char_id b) = Some (k + 1)%nat)
  /\ NoDup (map char_id boxes).
Proof.
  cbv zeta. unfold extractCharacterBoxes.
  destruct (numbered_extraction data) as [Hn Hid].
  set (st := fold_left pushParagraph (paragraphs data) _) in *.
  split; [| split].
  - subst st. unfold symbolsOf.
    rewrite (fold_chars pushParagraph
               (fun paragraph =>
                  flat_map
                    (fun line =>
                       flat_map
                         (fun word =>
                            match symbols word with
                            | Some l => l
                            | None => []
                            end) (words line)) (lines paragraph))).
    + reflexivity.
    + intros st' paragraph. unfold pushParagraph.
      apply (fold_chars pushLine).
      intros st'' line. unfold pushLine.
      apply (fold_chars pushWord). intros; apply pushWord_chars.
  - intros k b H. rewrite (Hid k b H). split; [reflexivity |].
    apply charNumber_charIdOf.
  - apply (NoDup_nth_error (map char_id (characters st))).
    intros i j Hi E. rewrite length_map in Hi.
    rewrite !nth_error_map in E.
    destruct (nth_error (characters st) i) as [bi |] eqn:Ei;
      [| apply nth_error_None in Ei; lia].
    destruct (nth_error (characters st) j) as [bj |] eqn:Ej;
      [| discriminate E].
    cbn in E. injection E as E.
    rewrite (Hid i bi Ei), (Hid j bj Ej) in E. now apply charIdOf_inj.
Qed.

(** *** The boxes in the map of [validateAndFixGPTCoordinates] *)

Lemma find_last_unique {A} (p : A -> bool) (l : list A) (a : A) :
  In a l -> p a = true -> (forall b, In b l -> p b = true -> b = a) ->
  find p l = Some a.
Proof.
  intros Hin Hp Hu.
  destruct (find p l) as [b |] eqn:E.
  - apply find_some in E as [Hb Hpb]. f_equal. now apply Hu.
  - now rewrite (find_none _ _ E a Hin) in Hp.
Qed.

(** X20. Every box of an extraction is found under its own id in the map
    that [validateAndFixGPTCoordinates] builds from the extraction, so an
    annotation that carries the id of a box, and other numbers than the
    box, comes back with the [bbox] and the [center] of that box. *)
Theorem extracted_box_is_found_by_its_id (data : RecognizeData)
    (k : nat) (b : CharacterBox) (error : HandwritingError) :
  nth_error (extractCharacterBoxes data) k = Some b ->
  Map_get (charMapOf (extractCharacterBoxes data)) (char_id b) = Some b
  /\ (id error = char_id b -> coordsMatch error b = false ->
      validateAndFixGPTCoordinates [error] (extractCharacterBoxes data)
      = ([with_bbox_center error (char_bbox b) (char_center b)],
         [CoordsFixed (id error) (Ocr.bbox error) (char_bbox b)])).
Proof.
  intros Hk.
  assert (G : Map_get (charMapOf (extractCharacterBoxes data)) (char_id b)
              = Some b).
  { rewrite charMap_get. unfold canonical.
    pose proof (extracted_ids data) as Hid.
    apply find_last_unique.
    - apply in_rev. rewrite rev_involutive. eapply nth_error_In, Hk.
    - apply String.eqb_refl.
    - intros c Hc E. apply String.eqb_eq in E.
      apply in_rev in Hc. apply In_nth_error in Hc as (j & Hj).
      assert (j = k).
      { rewrite (Hid j c Hj), (Hid k b Hk) in E.
        now apply charIdOf_inj. }
      subst j. congruence. }
  split; [exact G |].
  intros Hid Hm. unfold validateAndFixGPTCoordinates.
  cbn [map fst snd List.concat]. unfold fixError.
  rewrite Hid, G, Hm. reflexivity.
Qed.

Lemma extracted_box_is_found_by_its_id_witness :
  exists b,
    nth_error (extractCharacterBoxes sampleRecognition) 2 = Some b
    /\ char_id b = "c003"%string /\ char b = "4"%string
    /\ Map_get (charMapOf (extractCharacterBoxes sampleRecognition)) "c003"
       = Some b.
Proof.
  assert (H : exists b,
             nth_error (extractCharacterBoxes sampleRecognition) 2 = Some b
             /\ char_id b = "c003"%string /\ char b = "4"%string)
    by (eexists; repeat split; vm_compute; reflexivity).
  destruct H as (b & Hb & Hid & Hc).
  exists b. split; [exact Hb |]. split; [exact Hid |]. split; [exact Hc |].
  rewrite <- Hid.
  apply (extracted_box_is_found_by_its_id sampleRecognition 2 b
           Reconcile.strayError Hb).
Defined.

(** *** [validateOCRResult] *)

Import Session OcrQuality.

Lemma check_lengths c i s st :
  List.length (fst st) = List.length (snd st) ->
  List.length (fst (check c i s st)) = List.length (snd (check c i s st)).
Proof.
  intros H. unfold check. destruct c; [| exact H].
  cbn [fst snd]. rewrite !length_app. cbn. lia.
Qed.

Lemma check_empty c i s st :
  Nat.eqb (List.length (fst (check c i s st))) 0
  = negb c && Nat.eqb (List.length (fst st)) 0.
Proof.
  unfold check. destruct c; cbn [fst negb andb]; [| reflexivity].
  rewrite length_app. cbn.
  destruct (List.length (fst st)); reflexivity.
Qed.

(** X21. [validateOCRResult] pushes one suggestion with every issue, and
    declares the result valid exactly when the text is not empty, there
    is a character box, the average confidence is not below 0.5 and no
    character is below 0.3.  Without character boxes the average is
    [NaN], which is not below 0.5: the only issues are the missing text,
    if it is missing, and the missing boxes. *)
Theorem validateOCRResult_issues (ocrResult : OCRResult) :
  let v := validateOCRResult ocrResult in
  List.length (issues v) = List.length (suggestions v)
  /\ isValid v = validateOCRResult_isValid ocrResult
  /\ (charBoxes ocrResult = [] ->
      issues v
      = (if String.eqb (fullText ocrResult) "" then [NoTextRecognized]
         else [])
        ++ [NoCharacterBoxes]).
Proof.
  cbv zeta. unfold validateOCRResult. cbv zeta. cbn [isValid issues suggestions].
  split; [| split].
  - repeat apply check_lengths. reflexivity.
  - rewrite !check_empty. cbn [fst List.length Nat.eqb].
    unfold validateOCRResult_isValid. cbv zeta.
    destruct (String.eqb (fullText ocrResult) ""),
      (Nat.eqb (List.length (charBoxes ocrResult)) 0),
      (_ <? 0.5), (existsb _ _); reflexivity.
  - intros ->. cbn [List.length Nat.eqb fold_left existsb].
    unfold check.
    destruct (String.eqb (fullText ocrResult) ""); reflexivity.
Qed.

End ExtractionFacts.

(** ** The worker of the processor *)

Module ProcessorFacts.

Import Tesseract Processor.

(** Every case of a method. *)
Ltac cases :=
  repeat
    (cbn in *;
     match goal with
     | |- context [match ?x with _ => _ end] => destruct x eqn:?
     end).

Lemma after_ready this c : ready this -> ready (after this c).
Proof.
  unfold ready. destruct this as [w i]. intros H.
  destruct c as [cw sp | a | t | cw sp a];
    unfold after, initialize, recognize, cleanup, recognition,
      initialize, recognize;
    cases; subst; cbn in *; intros; try congruence; auto.
Qed.

Lemma afterAll_ready cs : forall this, ready this -> ready (afterAll cs this).
Proof.
  unfold afterAll.
  induction cs as [| c cs IH]; intros this H; cbn [fold_left]; [exact H |].
  apply IH, after_ready, H.
Qed.

(** X22. Whatever the engine answers, in every state a new
    [TesseractOCRProcessor] reaches by calls of [initialize], [recognize],
    [cleanup] and [processImage]: a processor that is initialized has a
    worker; [recognize] on a processor that is not initialized throws
    its own error and does not call the engine; [processImage] never
    throws that error, because its [initialize] has either thrown or left
    the processor initialized; and after a [cleanup] whose [terminate]
    resolved the processor is as new. *)
Theorem processor_is_ready (cs : list MethodCall) :
  let this := afterAll cs newProcessor in
  (isInitialized this = true -> exists w, worker this = Some w)
  /\ (forall answer,
         isInitialized this = false ->
         settled (recognize answer this) = inr NotInitialized
         /\ calls (recognize answer this) = []
         /\ left (recognize answer this) = this)
  /\ (forall createWorker setParameters answer,
         settled (recognition createWorker setParameters answer this)
         <> inr NotInitialized)
  /\ (forall done, left (cleanup (Resolves done) this) = newProcessor).
Proof.
  cbv zeta.
  pose proof (afterAll_ready cs newProcessor) as R.
  assert (R0 : ready newProcessor) by (intros H; discriminate H).
  specialize (R R0). unfold ready in R.
  destruct (afterAll cs newProcessor) as [w i]. cbn in R.
  split; [| split; [| split]].
  - cbn. intros ->. destruct w as [w |]; [eauto |].
    now contradiction (R eq_refl).
  - cbn. intros answer ->. unfold recognize. cbn.
    destruct w; auto.
  - intros cw sp a.
    destruct cw, sp, a, i, w; cbn; try discriminate;
      now contradiction (R eq_refl).
  - intros done. unfold cleanup. cbn.
    destruct w as [w |]; [reflexivity |].
    destruct i; [now contradiction (R eq_refl) | reflexivity].
Qed.

(** The worker a call leaves was there before or was created by the
    call, and a call terminates no other worker than the one that was
    there. *)
Lemma after_worker this c w :
  worker (after this c) = Some w ->
  worker this = Some w \/ In (CreateWorker w) (callsOf this c).
Proof.
  destruct this as [w0 i].
  destruct c as [cw sp | a | t | cw sp a];
    unfold after, callsOf, initialize, recognize, cleanup, recognition,
      initialize, recognize;
    cases; subst; cbn in *; intros H; try discriminate H;
    try (injection H as ->); auto.
Qed.

Lemma callsOf_terminate this c w :
  In (Terminate w) (callsOf this c) -> worker this = Some w.
Proof.
  destruct this as [w0 i].
  destruct c as [cw sp | a | t | cw sp a];
    unfold callsOf, initialize, recognize, cleanup, recognition,
      initialize, recognize;
    cases; subst; cbn in *; intros H;
    repeat (destruct H as [H | H]; [try discriminate H |]);
    try (injection H as ->); try reflexivity; try contradiction.
Qed.

(** Only a worker the processor holds, or one created later, is ever
    terminated. *)
Lemma terminated_was_held cs :
  forall this w,
    In (Terminate w) (engineCalls cs this) ->
    worker this = Some w \/ In (CreateWorker w) (engineCalls cs this).
Proof.
  induction cs as [| c cs IH]; intros this w H; cbn [engineCalls] in *.
  - destruct H.
  - apply in_app_or in H as [H | H].
    + left. eapply callsOf_terminate, H.
    + destruct (IH _ _ H) as [W | C].
      * destruct (after_worker _ _ _ W) as [W' | C]; [now left |].
        right. apply in_or_app. now left.
      * right. apply in_or_app. now right.
Qed.

(** X23. A worker whose [setParameters] was rejected is lost: the next
    [initialize] puts another worker in its place, and whatever calls
    follow, the first worker is never terminated (unless the engine hands
    out the same worker again). *)
Theorem rejected_worker_is_never_terminated (this : TesseractOCRProcessor)
    (w1 w2 : Worker) (message : string) (setParameters : Answer unit)
    (cs : list MethodCall) :
  isInitialized this = false -> w1 <> w2 ->
  let first := CallInitialize (Resolves w1) (Rejects message) in
  let second := CallInitialize (Resolves w2) setParameters in
  ~ In (CreateWorker w1) (engineCalls cs (after (after this first) second)) ->
  In (CreateWorker w1) (engineCalls (first :: second :: cs) this)
  /\ ~ In (Terminate w1) (engineCalls (first :: second :: cs) this).
Proof.
  intros Hinit Hne first second Hlater. subst first second.
  destruct this as [w0 i]. cbn in Hinit. subst i.
  cbn [engineCalls callsOf after initialize isInitialized left calls worker]
    in *.
  assert (E : calls
                (match setParameters with
                 | Resolves _ =>
                     {| left := {| worker := Some w2; isInitialized := true |};
                        settled := inl tt;
                        calls := [CreateWorker w2; SetParameters w2] |}
                 | Rejects message0 =>
                     {| left := {| worker := Some w2;
                                   isInitialized := false |};
                        settled := inr (EngineError message0);
                        calls := [CreateWorker w2; SetParameters w2] |}
                 end) = [CreateWorker w2; SetParameters w2])
    by now destruct setParameters.
  split; [now left |].
  intros H. cbn [app In] in H.
  destruct H as [H | [H | H]]; try discriminate H.
  apply in_app_or in H as [H | H].
  - destruct setParameters; cbn in H;
      destruct H as [H | [H | []]]; discriminate H.
  - apply terminated_was_held in H as [W | C]; [| now apply Hlater].
    destruct setParameters; cbn in W; injection W as W; congruence.
Qed.

Lemma rejected_worker_is_never_terminated_witness :
  ~ In (Terminate 1%nat)
      (engineCalls
         [ CallInitialize (Resolves 1%nat) (Rejects "set-parameters");
           CallInitialize (Resolves 2%nat) (Resolves tt);
           CallProcessImage (Resolves 3%nat) (Resolves tt)
             (Rejects "recognize");
           CallCleanup (Resolves tt); CallCleanup (Resolves tt) ]
         newProcessor).
Proof.
  apply (rejected_worker_is_never_terminated newProcessor 1%nat 2%nat
           "set-parameters" (Resolves tt)
           [ CallProcessImage (Resolves 3%nat) (Resolves tt)
               (Rejects "recognize");
             CallCleanup (Resolves tt); CallCleanup (Resolves tt) ]).
  - reflexivity.
  - discriminate.
  - cbn. intros H.
    repeat (destruct H as [H | H]; [discriminate H |]). exact H.
Defined.

End ProcessorFacts.
